(** * multicube: guess grids, model grids and best-guess selection

    A shallow embedding of [SubCube] (src/subcube.py) and the properties
    its specification states about it.

    Numbers.  The cube, the parameter bounds and the guess grids hold
    floating-point values in the source; they are modelled as exact
    rationals ([Q]).  Values that the source obtains through a square
    root or a division (standard deviations, signal-to-noise ratios) and
    the special values [inf] and [nan] live in [fval] below, which is
    exact as well.  Rounding is therefore outside the model.

    Libraries.  The source is Python 2 ([np.prod(map(...))] needs a list)
    on NumPy 1.13 to 1.16 and SciPy up to 1.2: a boolean mask must have
    the shape of what it indexes ([IndexError] otherwise), a float is not
    a dimension ([TypeError]), and [scipy.stats.mode] keeps the reduced
    axis.

    Effects.  Methods of [SubCube] mutate [self], write to the log and
    raise exceptions.  They are modelled in the monad [M]: a method takes
    the object and returns an outcome ([Ok] or [Raise]) with the object
    as the method left it, so mutations made before an exception are
    kept, as in Python. *)

From Stdlib Require Import String List Bool Arith ZArith QArith Qminmax Qabs
  Qround Lia Lqa Finite.
Import ListNotations.

Local Open Scope nat_scope.

(** ** Exceptions, log and arrays *)

Inductive exn : Type :=
| ValueError
| TypeError
| IndexError
| AttributeError
| NotImplementedError
| MemoryError
| UnboundLocalError
| ZeroDivisionError
| UnitConversionError.

Inductive res (A : Type) : Type :=
| Ok (a : A)
| Raise (e : exn).
Arguments Ok {A} a.
Arguments Raise {A} e.

Inductive level : Type := LInfo | LWarn | LError.

(** A record of [astropy.log]: the level and the message (format
    arguments are left out of the message). *)
Definition event : Type := (level * string)%type.

(** A numpy array: its shape and its elements in C (row-major) order. *)
Record ndarray (A : Type) : Type := mk_array {
  shape : list nat;
  data : list A
}.
Arguments mk_array {A} shape data.
Arguments shape {A} n.
Arguments data {A} n.

Definition prod_nat (l : list nat) : nat := fold_right Nat.mul 1 l.

(** [a.size] as numpy has it: the product of the shape. *)
Definition size {A} (a : ndarray A) : nat := prod_nat (shape a).

(** The array's shape describes its buffer. *)
Definition wf_array {A} (a : ndarray A) : Prop :=
  length (data a) = prod_nat (shape a).

(** ** Pure helpers of the grid builder *)

Module Grid.

(** [np.linspace(start, stop, num)] with [endpoint=True]: [num] points
    [start + k * step] with [step = (stop - start) / (num - 1)], the last
    one set to [stop]; a negative [num] is a [ValueError]. *)
Definition linspace (start stop : Q) (num : Z) : res (list Q) :=
  if (num <? 0)%Z then Raise ValueError
  else
    let n := Z.to_nat num in
    let step := ((stop - start) / inject_Z (num - 1))%Q in
    Ok (map (fun k =>
               if (1 <? n) && (k =? n - 1) then stop
               else (inject_Z (Z.of_nat k) * step + start)%Q)
            (seq 0 n)).

(** [a[1:][:-1]] *)
Definition clip {A} (l : list A) : list A := removelast (tl l).

(** The flattened Cartesian product, first list varying slowest. *)
Fixpoint cartesian {A} (ls : list (list A)) : list (list A) :=
  match ls with
  | [] => [[]]
  | xs :: rest => flat_map (fun x => map (cons x) (cartesian rest)) xs
  end.

Definition swap01 {A} (l : list A) : list A :=
  match l with
  | a :: b :: r => b :: a :: r
  | _ => l
  end.

(** The points of [np.meshgrid] on the slices of [par_space] (default
    [indexing='xy']) in
    the C order of the grids: the grids have the first two axes swapped,
    shape [(n1, n0, n2, ...)], and grid [i] holds [par_space[i][j_i]] at
    index [(j1, j0, j2, ...)].  Point [r] is the vector of the [r]-th
    entries of the flattened grids. *)
Definition mesh_points {A} (par_space : list (list A)) : list (list A) :=
  map swap01 (cartesian (swap01 par_space)).

(** [np.meshgrid] on the slices of [par_space], each grid flattened. *)
Definition meshgrid (par_space : list (list Q)) : list (list Q) :=
  map (fun i => map (fun p => nth i p 0%Q) (mesh_points par_space))
      (seq 0 (length par_space)).

(** [a.reshape(n, m).T] on a flat buffer [a]: element [(r, i)] of the
    result is element [(i, r)] of the [n x m] array. *)
Definition reshape_T (a : list Q) (n m : nat) : res (ndarray Q) :=
  if length a =? n * m then
    Ok (mk_array [m; n]
          (flat_map (fun r => map (fun i => nth (i * m + r) a 0%Q) (seq 0 n))
                    (seq 0 m)))
  else Raise ValueError.

(** [np.atleast_1d(finesse) * np.ones(npars)]: numpy broadcasting of a
    length-[k] vector against a length-[npars] one. *)
Definition broadcast_ones (finesse : list Z) (npars : nat) : res (list Z) :=
  if length finesse =? npars then Ok finesse
  else match finesse with
       | [f] => Ok (repeat f npars)
       | _ => if npars =? 1 then Ok finesse else Raise ValueError
       end.

(** Python's [zip] of three lists stops at the shortest. *)
Fixpoint zip3 {A B C} (a : list A) (b : list B) (c : list C)
  : list (A * B * C) :=
  match a, b, c with
  | x :: a', y :: b', z :: c' => (x, y, z) :: zip3 a' b' c'
  | _, _, _ => []
  end.

(** Monadic map over a list in the error monad, left to right. *)
Fixpoint mapM_res {A B} (f : A -> res B) (l : list A) : res (list B) :=
  match l with
  | [] => Ok []
  | x :: r =>
      match f x with
      | Raise e => Raise e
      | Ok y => match mapM_res f r with
                | Raise e => Raise e
                | Ok ys => Ok (y :: ys)
                end
      end
  end.

Definition any2 (p : Q -> Q -> bool) (a b : list Q) : bool :=
  existsb (fun xy => p (fst xy) (snd xy)) (combine a b).

Definition Qgtb (a b : Q) : bool := negb (Qle_bool a b).

End Grid.

(** ** Floating-point values outside the rationals *)

(** [Sroot s] is the real number [sgn(s) * sqrt |s|]: the standard
    deviation of a sample of variance [v] is [Sroot v], and a rational [r]
    is [Sroot (r * |r|)].  The map [x |-> x * |x|] is an increasing
    bijection of the reals that commutes with products and quotients, so
    comparisons and divisions of such values are exact on [s]. *)
Inductive fval : Type :=
| Nan
| NegInf
| PosInf
| Sroot (s : Q).

Module F.

Definition of_Q (r : Q) : fval := Sroot (r * Qabs r).

Definition isnan (a : fval) : bool :=
  match a with Nan => true | _ => false end.

Definition Qltb (a b : Q) : bool := negb (Qle_bool b a).

(** [a < b] on floats: false as soon as one side is [nan]. *)
Definition ltb (a b : fval) : bool :=
  match a, b with
  | Nan, _ | _, Nan => false
  | _, NegInf => false
  | NegInf, _ => true
  | PosInf, _ => false
  | Sroot _, PosInf => true
  | Sroot x, Sroot y => Qltb x y
  end.

(** [a > b] *)
Definition gtb (a b : fval) : bool := ltb b a.

(** [a / b] on floats; a zero divisor is the positive zero (it is a
    standard deviation wherever the source divides). *)
Definition div (a b : fval) : fval :=
  match a, b with
  | Nan, _ | _, Nan => Nan
  | Sroot x, Sroot y =>
      if Qeq_bool y 0 then
        if Qltb 0 x then PosInf else if Qltb x 0 then NegInf else Nan
      else Sroot (x / y)
  | Sroot _, _ => Sroot 0
  | PosInf, Sroot y => if Qltb y 0 then NegInf else PosInf
  | NegInf, Sroot y => if Qltb y 0 then PosInf else NegInf
  | _, _ => Nan
  end.

Definition Qsum (l : list Q) : Q := fold_right Qplus 0%Q l.

Definition mean (l : list Q) : Q := (Qsum l / inject_Z (Z.of_nat (length l)))%Q.

(** The population variance, [mean(|x - mean(x)|^2)]. *)
Definition variance (l : list Q) : Q :=
  let m := mean l in mean (map (fun x => ((x - m) * (x - m))%Q) l).

(** [a.std()] of a 1-d sample: the square root of the variance; [nan]
    for an empty sample. *)
Definition std (l : list Q) : fval :=
  match l with
  | [] => Nan
  | _ => Sroot (variance l)
  end.

(** [np.argmin] of a 1-d array: the first [nan] if there is one, else
    the first minimum; [None] stands for the [ValueError] on an empty
    array.  The accumulator is the best index and value so far. *)
Fixpoint argmin_from (l : list fval) (i : nat) (best : nat * fval) : nat :=
  match l with
  | [] => fst best
  | x :: r =>
      if isnan (snd best) then fst best
      else if isnan x || ltb x (snd best) then argmin_from r (S i) (i, x)
      else argmin_from r (S i) best
  end.

Definition argmin (l : list fval) : option nat :=
  match l with
  | [] => None
  | x :: r => Some (argmin_from r 1 (0, x))
  end.

(** [np.argmax], likewise. *)
Fixpoint argmax_from (l : list fval) (i : nat) (best : nat * fval) : nat :=
  match l with
  | [] => fst best
  | x :: r =>
      if isnan (snd best) then fst best
      else if isnan x || ltb (snd best) x then argmax_from r (S i) (i, x)
      else argmax_from r (S i) best
  end.

Definition argmax (l : list fval) : option nat :=
  match l with
  | [] => None
  | x :: r => Some (argmax_from r 1 (0, x))
  end.

(** [a.min()]: [nan] as soon as the array holds one. *)
Definition min (l : list fval) : option fval :=
  match argmin l with
  | None => None
  | Some i => Some (nth i l Nan)
  end.

(** [np.nanmin]: the minimum of the entries that are not [nan], and
    [nan] when there is none. *)
Definition nanmin (l : list fval) : option fval :=
  match l with
  | [] => None
  | _ => match min (filter (fun x => negb (isnan x)) l) with
         | None => Some Nan
         | Some m => Some m
         end
  end.

End F.

(** ** The object and the monad of its methods *)

(** The spectral cube, [self.cube]: shape [(nchan, ny, nx)], the flux in
    C order.  [self.xarr], the spectral axis, has [nchan] entries. *)
Record cube3 : Type := mk_cube {
  nchan : nat;
  ny : nat;
  nx : nat;
  flux : list Q
}.

(** A 2-d array over the pixels, shape [(rows, cols)]. *)
Record map2 (A : Type) : Type := mk_map {
  rows : nat;
  cols : nat;
  cells : list A
}.
Arguments mk_map {A} rows cols cells.
Arguments rows {A} m.
Arguments cols {A} m.
Arguments cells {A} m.

(** [self.fiteach_args], the dictionary [make_guess_grid] stores for
    [Cube.fiteach]; the key ['fixed'] may have been popped. *)
Record fiteach : Type := mk_fiteach {
  fixed : option (list bool);
  limitedmin : list bool;
  limitedmax : list bool;
  minpars : list Q;
  maxpars : list Q
}.

(** A [SubCube].  The first block is what [pyspeckit.Cube] provides
    ([itemsize] is the byte size of a flux value, [npars] is
    [self.specfit.fitter.npars]); the second one is the attributes the
    methods below assign, [None] until then; [files] is the [.npy] files
    on disk, [log] the log records, oldest first. *)
Record SubCube : Type := mk_SubCube {
  cube : cube3;
  itemsize : nat;
  npars : nat;
  fittype : string;

  guess_grid : option (ndarray Q);
  model_grid : option (ndarray Q);
  fiteach_args : option fiteach;
  snr_map : option (map2 fval);
  _mask_signal : option (list bool);
  _mask_noise : option (list bool);
  _signal_map : option (map2 Q);
  _rms_map : option (map2 fval);
  _best_map : option (map2 nat);
  _best_rmsmap : option (map2 fval);
  best_guesses : option (ndarray Q);
  _best_model : option nat;
  best_guess_value : option (list Q);
  best_snr_guess : option (list Q);

  files : list (string * ndarray Q);
  log : list event
}.

Definition set_guess_grid (g : ndarray Q) (s : SubCube) : SubCube :=
  mk_SubCube (cube s) (itemsize s) (npars s) (fittype s)
    (Some g) (model_grid s) (fiteach_args s) (snr_map s) (_mask_signal s)
    (_mask_noise s) (_signal_map s) (_rms_map s) (_best_map s)
    (_best_rmsmap s) (best_guesses s) (_best_model s) (best_guess_value s)
    (best_snr_guess s) (files s) (log s).

Definition set_model_grid (g : ndarray Q) (s : SubCube) : SubCube :=
  mk_SubCube (cube s) (itemsize s) (npars s) (fittype s)
    (guess_grid s) (Some g) (fiteach_args s) (snr_map s) (_mask_signal s)
    (_mask_noise s) (_signal_map s) (_rms_map s) (_best_map s)
    (_best_rmsmap s) (best_guesses s) (_best_model s) (best_guess_value s)
    (best_snr_guess s) (files s) (log s).

Definition set_fiteach_args (f : fiteach) (s : SubCube) : SubCube :=
  mk_SubCube (cube s) (itemsize s) (npars s) (fittype s)
    (guess_grid s) (model_grid s) (Some f) (snr_map s) (_mask_signal s)
    (_mask_noise s) (_signal_map s) (_rms_map s) (_best_map s)
    (_best_rmsmap s) (best_guesses s) (_best_model s) (best_guess_value s)
    (best_snr_guess s) (files s) (log s).

Definition set_masks (ms mn : list bool) (s : SubCube) : SubCube :=
  mk_SubCube (cube s) (itemsize s) (npars s) (fittype s)
    (guess_grid s) (model_grid s) (fiteach_args s) (snr_map s) (Some ms)
    (Some mn) (_signal_map s) (_rms_map s) (_best_map s)
    (_best_rmsmap s) (best_guesses s) (_best_model s) (best_guess_value s)
    (best_snr_guess s) (files s) (log s).

Definition set_signal_map (m : map2 Q) (s : SubCube) : SubCube :=
  mk_SubCube (cube s) (itemsize s) (npars s) (fittype s)
    (guess_grid s) (model_grid s) (fiteach_args s) (snr_map s)
    (_mask_signal s) (_mask_noise s) (Some m) (_rms_map s) (_best_map s)
    (_best_rmsmap s) (best_guesses s) (_best_model s) (best_guess_value s)
    (best_snr_guess s) (files s) (log s).

Definition set_rms_map (m : map2 fval) (s : SubCube) : SubCube :=
  mk_SubCube (cube s) (itemsize s) (npars s) (fittype s)
    (guess_grid s) (model_grid s) (fiteach_args s) (snr_map s)
    (_mask_signal s) (_mask_noise s) (_signal_map s) (Some m) (_best_map s)
    (_best_rmsmap s) (best_guesses s) (_best_model s) (best_guess_value s)
    (best_snr_guess s) (files s) (log s).

Definition set_snr_map (m : map2 fval) (s : SubCube) : SubCube :=
  mk_SubCube (cube s) (itemsize s) (npars s) (fittype s)
    (guess_grid s) (model_grid s) (fiteach_args s) (Some m)
    (_mask_signal s) (_mask_noise s) (_signal_map s) (_rms_map s)
    (_best_map s) (_best_rmsmap s) (best_guesses s) (_best_model s)
    (best_guess_value s) (best_snr_guess s) (files s) (log s).

Definition set_best_map (bm : map2 nat) (s : SubCube) : SubCube :=
  mk_SubCube (cube s) (itemsize s) (npars s) (fittype s)
    (guess_grid s) (model_grid s) (fiteach_args s) (snr_map s)
    (_mask_signal s) (_mask_noise s) (_signal_map s) (_rms_map s)
    (Some bm) (_best_rmsmap s) (best_guesses s) (_best_model s)
    (best_guess_value s) (best_snr_guess s) (files s) (log s).

Definition set_best_rmsmap (rm : map2 fval) (s : SubCube) : SubCube :=
  mk_SubCube (cube s) (itemsize s) (npars s) (fittype s)
    (guess_grid s) (model_grid s) (fiteach_args s) (snr_map s)
    (_mask_signal s) (_mask_noise s) (_signal_map s) (_rms_map s)
    (_best_map s) (Some rm) (best_guesses s) (_best_model s)
    (best_guess_value s) (best_snr_guess s) (files s) (log s).

Definition set_best_guesses (g : ndarray Q) (s : SubCube) : SubCube :=
  mk_SubCube (cube s) (itemsize s) (npars s) (fittype s)
    (guess_grid s) (model_grid s) (fiteach_args s) (snr_map s)
    (_mask_signal s) (_mask_noise s) (_signal_map s) (_rms_map s)
    (_best_map s) (_best_rmsmap s) (Some g) (_best_model s)
    (best_guess_value s) (best_snr_guess s) (files s) (log s).

Definition set_best_model (m : nat) (s : SubCube) : SubCube :=
  mk_SubCube (cube s) (itemsize s) (npars s) (fittype s)
    (guess_grid s) (model_grid s) (fiteach_args s) (snr_map s)
    (_mask_signal s) (_mask_noise s) (_signal_map s) (_rms_map s)
    (_best_map s) (_best_rmsmap s) (best_guesses s) (Some m)
    (best_guess_value s) (best_snr_guess s) (files s) (log s).

Definition set_best_guess_value (v : list Q) (s : SubCube) : SubCube :=
  mk_SubCube (cube s) (itemsize s) (npars s) (fittype s)
    (guess_grid s) (model_grid s) (fiteach_args s) (snr_map s)
    (_mask_signal s) (_mask_noise s) (_signal_map s) (_rms_map s)
    (_best_map s) (_best_rmsmap s) (best_guesses s) (_best_model s)
    (Some v) (best_snr_guess s) (files s) (log s).

Definition set_best_snr_guess (v : list Q) (s : SubCube) : SubCube :=
  mk_SubCube (cube s) (itemsize s) (npars s) (fittype s)
    (guess_grid s) (model_grid s) (fiteach_args s) (snr_map s)
    (_mask_signal s) (_mask_noise s) (_signal_map s) (_rms_map s)
    (_best_map s) (_best_rmsmap s) (best_guesses s) (_best_model s)
    (best_guess_value s) (Some v) (files s) (log s).

Definition add_file (name : string) (a : ndarray Q) (s : SubCube) : SubCube :=
  mk_SubCube (cube s) (itemsize s) (npars s) (fittype s)
    (guess_grid s) (model_grid s) (fiteach_args s) (snr_map s)
    (_mask_signal s) (_mask_noise s) (_signal_map s) (_rms_map s)
    (_best_map s) (_best_rmsmap s) (best_guesses s) (_best_model s)
    (best_guess_value s) (best_snr_guess s) ((name, a) :: files s) (log s).

Definition add_log (e : event) (s : SubCube) : SubCube :=
  mk_SubCube (cube s) (itemsize s) (npars s) (fittype s)
    (guess_grid s) (model_grid s) (fiteach_args s) (snr_map s)
    (_mask_signal s) (_mask_noise s) (_signal_map s) (_rms_map s)
    (_best_map s) (_best_rmsmap s) (best_guesses s) (_best_model s)
    (best_guess_value s) (best_snr_guess s) (files s) (log s ++ [e]).

(** A method: the outcome and the object as the method left it. *)
Definition M (A : Type) : Type := SubCube -> res A * SubCube.

Definition ret {A} (a : A) : M A := fun s => (Ok a, s).

Definition bind {A B} (m : M A) (k : A -> M B) : M B :=
  fun s => match m s with
           | (Ok a, s') => k a s'
           | (Raise e, s') => (Raise e, s')
           end.

Definition raise {A} (e : exn) : M A := fun s => (Raise e, s).

Definition lift {A} (r : res A) : M A := fun s => (r, s).

Definition get_self : M SubCube := fun s => (Ok s, s).

Definition modify (f : SubCube -> SubCube) : M unit := fun s => (Ok tt, f s).

Definition log_msg (l : level) (msg : string) : M unit :=
  modify (add_log (l, msg)).

Definition exn_eqb (a b : exn) : bool :=
  match a, b with
  | ValueError, ValueError | TypeError, TypeError
  | IndexError, IndexError | AttributeError, AttributeError
  | NotImplementedError, NotImplementedError
  | MemoryError, MemoryError
  | UnboundLocalError, UnboundLocalError
  | ZeroDivisionError, ZeroDivisionError
  | UnitConversionError, UnitConversionError => true
  | _, _ => false
  end.

(** [try: body except e: handler] *)
Definition try_except {A} (body : M A) (e : exn) (handler : M A) : M A :=
  fun s => match body s with
           | (Raise e', s') =>
               if exn_eqb e e' then handler s' else (Raise e', s')
           | r => r
           end.

(** Reading an attribute that exists only once it has been assigned. *)
Definition attr {A} (o : option A) : M A :=
  match o with
  | Some a => ret a
  | None => raise AttributeError
  end.

Declare Scope M_scope.
Delimit Scope M_scope with M.
Notation "x <- m ;; k" := (bind m (fun x => k))
  (at level 61, m at next level, right associativity) : M_scope.
Notation "m ;; k" := (bind m (fun _ => k))
  (at level 61, right associativity) : M_scope.
Notation "' pat <- m ;; k" := (bind m (fun x => match x with pat => k end))
  (at level 61, pat pattern, m at next level, right associativity) : M_scope.
Local Open Scope M_scope.

(** ** Parameter Grid Builder *)

(** The [finesse] argument: an integer or a vector of integers. *)
Inductive finesse_arg : Type :=
| Scalar (n : Z)
| Vector (v : list Z).

(** [np.atleast_1d] *)
Definition atleast_1d (f : finesse_arg) : list Z :=
  match f with
  | Scalar n => [n]
  | Vector v => v
  end.

(** [minpars, maxpars = np.asarray([minpars, maxpars])]: the two
    sequences become the rows of one array, which needs them to have
    one length. *)
Definition asarray_pair (lo hi : list Q) : M (list Q * list Q) :=
  if length lo =? length hi then ret (lo, hi) else raise ValueError.

(** [SubCube._grid_parspace].  [nguesses], the product of the slice
    lengths, is the float [1.0] when there is no slice, which [reshape]
    refuses. *)
Definition _grid_parspace (lo hi : list Q) (finesse : finesse_arg)
    (clip_edges : bool) : M (ndarray Q) :=
  (if Grid.any2 Grid.Qgtb lo hi
   then log_msg LError
          "Some of the minimal parameters are larger than the maximal ones. Normally this is not supposed to happen."
   else ret tt) ;;
  let npars := length lo in
  finesse <- lift (Grid.broadcast_ones (atleast_1d finesse) npars) ;;
  log_msg LInfo "Binning the parameter space into a grid" ;;
  par_space <- lift (Grid.mapM_res
      (fun '(i_len, i_min, i_max) =>
         match Grid.linspace i_min i_max i_len with
         | Ok l => Ok (if clip_edges then Grid.clip l else l)
         | Raise e => Raise e
         end)
      (Grid.zip3 (map (fun f => (f + (if clip_edges then 2 else 0))%Z) finesse)
                 lo hi)) ;;
  match par_space with
  | [] => raise TypeError
  | _ =>
      let nguesses := prod_nat (map (@length Q) par_space) in
      lift (Grid.reshape_T (concat (Grid.meshgrid par_space)) npars nguesses)
  end.

(** [SubCube.make_guess_grid]; [clip_edges] is the keyword argument
    passed on to [_grid_parspace] ([True] when left out). *)
Definition make_guess_grid (lo hi : list Q) (finesse : finesse_arg)
    (fixed_ limitedmin_ limitedmax_ : option (list bool)) (clip_edges : bool)
  : M (ndarray Q) :=
  '(lo, hi) <- asarray_pair lo hi ;;
  let truths := repeat true (length lo) in
  let falses := repeat false (length lo) in
  let fixed_ := match fixed_ with None => falses | Some f => f end in
  let limitedmin_ := match limitedmin_ with None => truths | Some l => l end in
  let limitedmax_ := match limitedmax_ with None => truths | Some l => l end in
  modify (set_fiteach_args
            (mk_fiteach (Some fixed_) limitedmin_ limitedmax_ lo hi)) ;;
  s <- get_self ;;
  (if String.eqb (fittype s) "gaussian"
   then modify (set_fiteach_args
                  (mk_fiteach None limitedmin_ limitedmax_ lo hi))
   else ret tt) ;;
  guess_grid <- _grid_parspace lo hi finesse clip_edges ;;
  modify (set_guess_grid guess_grid) ;;
  ret guess_grid.

(** [np.vstack([a, b]).min(axis=0)] and [.max(axis=0)] of two vectors,
    which must have one length. *)
Definition vstack_min (a b : list Q) : M (list Q) :=
  if length a =? length b
  then ret (map (fun xy => Qmin (fst xy) (snd xy)) (combine a b))
  else raise ValueError.

Definition vstack_max (a b : list Q) : M (list Q) :=
  if length a =? length b
  then ret (map (fun xy => Qmax (fst xy) (snd xy)) (combine a b))
  else raise ValueError.

(** [np.append(a, b, axis=0)]: the entries of [b] after those of [a];
    both arrays have at least one axis and agree on the other axes. *)
Definition append_axis0 (a b : ndarray Q) : M (ndarray Q) :=
  match shape a, shape b with
  | ra :: ca, rb :: cb =>
      if list_eq_dec Nat.eq_dec ca cb
      then ret (mk_array (ra + rb :: ca) (data a ++ data b))
      else raise ValueError
  | _, _ => raise ValueError
  end.

(** [SubCube.expand_guess_grid] *)
Definition expand_guess_grid (lo hi : list Q) (finesse : finesse_arg)
    (clip_edges : bool) : M (ndarray Q) :=
  '(lo, hi) <- asarray_pair lo hi ;;
  guess_grid_new <- _grid_parspace lo hi finesse clip_edges ;;
  s <- get_self ;;
  args <- attr (fiteach_args s) ;;
  lo' <- vstack_min (minpars args) lo ;;
  hi' <- vstack_max (maxpars args) hi ;;
  modify (set_fiteach_args
            (mk_fiteach (fixed args) (limitedmin args) (limitedmax args)
                        lo' hi')) ;;
  match guess_grid s with
  | None => raise ValueError
  | Some old =>
      g <- append_axis0 old guess_grid_new ;;
      modify (set_guess_grid g) ;;
      ret g
  end.

(** The [k] consecutive blocks of [n] entries of a buffer: the rows of a
    [(k, n)] array. *)
Fixpoint chunks {A} (n : nat) (k : nat) (l : list A) : list (list A) :=
  match k with
  | 0 => []
  | S k' => firstn n l :: chunks n k' (skipn n l)
  end.

Definition rows_of {A} (a : ndarray A) : list (list A) :=
  match shape a with
  | [r; c] => chunks c r (data a)
  | _ => []
  end.

(** ** Model Synthesizer *)

(** [np.atleast_2d] on a shape. *)
Definition atleast_2d_shape (sh : list nat) : list nat :=
  match sh with
  | [] => [1; 1]
  | [n] => [1; n]
  | _ => sh
  end.

(** [t[-2:]] *)
Definition last2 (t : list nat) : list nat := skipn (length t - 2) t.

Definition shape_eqb (a b : list nat) : bool :=
  if list_eq_dec Nat.eq_dec a b then true else false.

Definition ends_with (suffix s : string) : bool :=
  let n := String.length s in
  let k := String.length suffix in
  (k <=? n) && String.eqb (substring (n - k) k s) suffix.

(** The file [np.save] writes to: the name gets the extension [.npy]
    unless it has it. *)
Definition npy_name (f : string) : string :=
  if ends_with ".npy" f then f else (f ++ ".npy")%string.

(** [os.path.isfile] *)
Definition isfile (s : SubCube) (f : string) : bool :=
  existsb (fun e => String.eqb (fst e) f) (files s).

Section Synthesizer.

(** [self.specfit.get_full_model(pars=...)], the model function of
    pyspeckit: a parameter vector to a spectrum on [self.xarr]. *)
Variable get_full_model : list Q -> list Q.

(** [model_grid[idx] = spectrum]: the spectrum is broadcast to the
    [nchan] entries of the row. *)
Definition assign_row (nchan : nat) (spectrum : list Q) : res (list Q) :=
  if length spectrum =? nchan then Ok spectrum
  else match spectrum with
       | [v] => Ok (repeat v nchan)
       | _ => Raise ValueError
       end.

(** The shape safeguard of [generate_model]: [true] when the guess grid
    is refused.  The remainder is evaluated last, and only when the
    first two tests let the grid through. *)
Definition bad_shape (s : SubCube) (gshape : list nat) : res bool :=
  let grid_shape := removelast gshape in
  if (1 <? length grid_shape)
     && negb (shape_eqb (last2 grid_shape) [ny (cube s); nx (cube s)])
  then Ok true
  else if 3 <? length grid_shape then Ok true
  else match npars s with
       | 0 => Raise ZeroDivisionError
       | _ => Ok (negb (last gshape 0 mod npars s =? 0))
       end.

(** [SubCube.generate_model].  A grid that is [None] on both sides is
    wrapped by [np.atleast_2d] into a [(1, 1)] array holding [None],
    which the model function cannot evaluate. *)
Definition generate_model (guess_grid_ : option (ndarray Q))
    (to_file : option string) (redo : bool) : M unit :=
  s <- get_self ;;
  skip <- (if redo then ret false
           else match to_file with
                | None => raise TypeError
                | Some f => ret (isfile s f)
                end) ;;
  if (skip : bool) then
    log_msg LInfo "A file with generated models is already in place. Skipping."
  else
    let guess_grid_ := match guess_grid_ with
                       | None => guess_grid s
                       | Some g => Some g
                       end in
    let gshape := atleast_2d_shape
                    (match guess_grid_ with Some g => shape g | None => [] end) in
    let grid_shape := removelast gshape in
    bad <- lift (bad_shape s gshape) ;;
    if (bad : bool) then raise ValueError
    else
      log_msg LInfo "Generating spectral models from the guess grid . . ." ;;
      match guess_grid_ with
      | None => raise TypeError
      | Some g =>
          spectra <- lift (Grid.mapM_res
                             (fun pars => assign_row (nchan (cube s))
                                            (get_full_model pars))
                             (chunks (last gshape 0) (prod_nat grid_shape)
                                     (data g))) ;;
          let model := mk_array (grid_shape ++ [nchan (cube s)])
                                (concat spectra) in
          match to_file with
          | Some f => modify (add_file (npy_name f) model)
          | None => modify (set_model_grid model)
          end
      end.

End Synthesizer.

(** ** Residual Evaluator / Best-Guess Selector *)

(** A model grid handed to [best_guess]: the array, and whether its type
    is [np.ndarray] (it is not for a memory-mapped file). *)
Record marray : Type := mk_marray {
  arr : ndarray Q;
  is_ndarray : bool
}.

(** What [best_guess] depends on outside the object: the memory that
    [psutil] reports as available, in bytes ([None] when [psutil] cannot
    be imported); the free memory in GB read from [free -g] ([None] when
    that output cannot be read); where an allocation fails with
    [MemoryError], in the broadcast, in [np.empty] of the per-pixel tier
    or while the per-pixel tier works on pixel [k]; and what an
    uninitialised cell of [np.empty] holds. *)
Record env : Type := mk_env {
  psutil_available : option Z;
  free_g : option Z;
  oom_broadcast : bool;
  oom_alloc : bool;
  oom_pixel : option nat;
  uninit : nat -> fval
}.

(** Truth value of an optional number: [None] and zero are false. *)
Definition truthy (q : option Q) : bool :=
  match q with
  | Some v => negb (Qeq_bool v 0)
  | None => false
  end.

(** [int(q)]: truncation towards zero. *)
Definition int_of_Q (q : Q) : Z :=
  if Qle_bool 0 q then Qfloor q else Qceiling q.

Module Sel.

Definition npix (c : cube3) : nat := ny c * nx c.

(** [cube[:, y, x]] for the pixel of flat index [p = y * nx + x]. *)
Definition spectrum (c : cube3) (p : nat) : list Q :=
  map (fun ch => nth (ch * npix c + p) (flux c) 0%Q) (seq 0 (nchan c)).

Definition sub (a b : list Q) : list Q :=
  map (fun xy => (fst xy - snd xy)%Q) (combine a b).

(** [model_grid[g]] of a 2-d grid. *)
Definition model_row (mg : ndarray Q) (g : nat) : list Q :=
  let c := last (shape mg) 0 in firstn c (skipn (g * c) (data mg)).

(** [model_grid.shape[0]] *)
Definition nmodels (mg : ndarray Q) : nat := hd 0 (shape mg).

(** Replace entry [i] of a buffer. *)
Fixpoint upd {A} (i : nat) (v : A) (l : list A) : list A :=
  match l, i with
  | [], _ => []
  | _ :: r, 0 => v :: r
  | x :: r, S i' => x :: upd i' v r
  end.

(** Tier 1, [(cube[None,:,:,:] - model_grid[:,:,None,None]).std(axis=1)]:
    entry [(g, y, x)] is the standard deviation over the channels of
    [cube[:, y, x] - model_grid[g]].  Indexing a 1-d grid with four
    indices is an [IndexError]. *)
Definition broadcast (e : env) (c : cube3) (mg : ndarray Q)
  : res (ndarray fval) :=
  match shape mg with
  | [g; _] =>
      if oom_broadcast e then Raise MemoryError
      else Ok (mk_array [g; ny c; nx c]
                 (flat_map (fun i =>
                              map (fun p => F.std (sub (spectrum c p)
                                                       (model_row mg i)))
                                  (seq 0 (npix c)))
                           (seq 0 g)))
  | _ => Raise IndexError
  end.

(** Tier 2, one pixel: [(cube[None,:,y,x] - model_grid).std(axis=1)]
    broadcast to [residual_rms[:, y, x]]; with a 1-d grid the difference
    has one row, whose deviation fills the column. *)
Definition pixel_column (c : cube3) (mg : ndarray Q) (p : nat) : list fval :=
  match shape mg with
  | [g; _] => map (fun i => F.std (sub (spectrum c p) (model_row mg i)))
                  (seq 0 g)
  | _ => repeat (F.std (sub (spectrum c p) (data mg))) (nmodels mg)
  end.

(** [residual_rms[:, y, x] = column] *)
Definition store_column (np_ p : nat) (column : list fval) (r : list fval)
  : list fval :=
  fold_left (fun acc i => upd (i * np_ + p) (nth i column Nan) acc)
            (seq 0 (length column)) r.

(** Tier 2 up to pixel [k] (all of it when [k] is the pixel count), on
    the buffer of [np.empty]. *)
Definition per_pixel_fill (e : env) (c : cube3) (mg : ndarray Q) (k : nat)
  : ndarray fval :=
  mk_array [nmodels mg; ny c; nx c]
    (fold_left (fun acc p => store_column (npix c) p (pixel_column c mg p) acc)
               (seq 0 k)
               (map (uninit e) (seq 0 (nmodels mg * npix c)))).

(** Tier 2, the [try] block: the binding of [residual_rms] when the
    block ends, and whether it ended in a [MemoryError]. *)
Definition per_pixel (e : env) (c : cube3) (mg : marray)
  : option (ndarray fval) * bool :=
  if negb (is_ndarray mg) then (None, true)
  else if oom_alloc e then (None, true)
  else match oom_pixel e with
       | Some k =>
           if k <? npix c then (Some (per_pixel_fill e c (arr mg) k), true)
           else (Some (per_pixel_fill e c (arr mg) (npix c)), false)
       | None => (Some (per_pixel_fill e c (arr mg) (npix c)), false)
       end.

(** [snr_mask[y, x]] *)
Definition mask_at (m : map2 bool) (y x : nat) : res bool :=
  if (y <? rows m) && (x <? cols m)
  then Ok (nth (y * cols m + x) (cells m) false)
  else Raise IndexError.

(** Tier 3, one residual: [(cube[:,y,x] - model_grid[model_id]).std()];
    an entry of a 1-d grid is a number, subtracted from every channel. *)
Definition nested_residual (c : cube3) (mg : ndarray Q) (p i : nat) : fval :=
  match shape mg with
  | [_; _] => F.std (sub (spectrum c p) (model_row mg i))
  | _ => F.std (map (fun v => (v - nth i (data mg) 0)%Q) (spectrum c p))
  end.

(** Tier 3, one pixel: the entries of [best_map] and [rmsmin_map], both
    float arrays ([None] is [nan] in [best_map]).  [pbar_inc] divides the
    model index once a residual is there; an empty [resid_rms_xy] has no
    [argmin]. *)
Definition nested_pixel (c : cube3) (mg : ndarray Q) (mask : option (map2 bool))
    (pbar_inc : nat) (p : nat) : res (option nat * fval) :=
  match (match mask with
         | Some m => mask_at m (p / nx c) (p mod nx c)
         | None => Ok true
         end) with
  | Raise e => Raise e
  | Ok false => Ok (None, Nan)
  | Ok true =>
      let resid_rms_xy := map (nested_residual c mg p) (seq 0 (nmodels mg)) in
      if (0 <? nmodels mg) && (pbar_inc =? 0) then Raise ZeroDivisionError
      else match F.argmin resid_rms_xy, F.nanmin resid_rms_xy with
           | Some i, Some m => Ok (Some i, m)
           | _, _ => Raise ValueError
           end
  end.

End Sel.

Module Pick.

(** [np.repeat([mask2d], nchan, axis=0)], the result of
    [SubCube.get_slice_mask]. *)
Definition get_slice_mask (nchan : nat) (mask2d : map2 bool) : ndarray bool :=
  mk_array [nchan; rows mask2d; cols mask2d]
           (concat (repeat (cells mask2d) nchan)).

(** [self.snr_map > sn_cut] *)
Definition snr_mask (snr : map2 fval) (sn_cut : Q) : map2 bool :=
  mk_map (rows snr) (cols snr)
         (map (fun v => F.gtb v (F.of_Q sn_cut)) (cells snr)).

(** [residual_rms[mask3d] = np.inf] *)
Definition mask_assign (r : ndarray fval) (mask3d : ndarray bool)
  : res (ndarray fval) :=
  if shape_eqb (shape r) (shape mask3d)
  then Ok (mk_array (shape r)
             (map (fun vm => if (snd vm : bool) then PosInf else fst vm)
                  (combine (data r) (data mask3d))))
  else Raise IndexError.

(** [residual_rms[:, y, x]] for the pixel of flat index [p]. *)
Definition column (r : ndarray fval) (np_ p : nat) : list fval :=
  map (fun g => nth (g * np_ + p) (data r) Nan) (seq 0 (hd 0 (shape r))).

(** [np.argmin(residual_rms, axis=0)]: no [argmin] along an empty axis. *)
Definition argmin_axis0 (r : ndarray fval) (ny nx : nat) : res (map2 nat) :=
  if hd 0 (shape r) =? 0 then Raise ValueError
  else Ok (mk_map ny nx
             (map (fun p => match F.argmin (column r (ny * nx) p) with
                            | Some i => i
                            | None => 0
                            end)
                  (seq 0 (ny * nx)))).

(** [residual_rms.min(axis=0)] *)
Definition min_axis0 (r : ndarray fval) (ny nx : nat) : res (map2 fval) :=
  if hd 0 (shape r) =? 0 then Raise ValueError
  else Ok (mk_map ny nx
             (map (fun p => match F.min (column r (ny * nx) p) with
                            | Some m => m
                            | None => Nan
                            end)
                  (seq 0 (ny * nx)))).

(** [guess_grid[i]]: block [i] along the first axis. *)
Definition block (g : ndarray Q) (i : nat) : res (list Q) :=
  match shape g with
  | [] => Raise IndexError
  | n :: rest =>
      if i <? n
      then Ok (firstn (prod_nat rest) (skipn (i * prod_nat rest) (data g)))
      else Raise IndexError
  end.

(** [np.rollaxis(a, -1)]: the last axis moved to the front. *)
Definition rollaxis_last (a : ndarray Q) : ndarray Q :=
  let k := last (shape a) 0 in
  let n := prod_nat (removelast (shape a)) in
  mk_array (k :: removelast (shape a))
           (flat_map (fun j => map (fun i => nth (i * k + j) (data a) 0%Q)
                                   (seq 0 n))
                     (seq 0 k)).

(** [np.rollaxis(self.guess_grid[best_map], -1)] *)
Definition lookup_guesses (g : ndarray Q) (best_map : map2 nat)
  : res (ndarray Q) :=
  match Grid.mapM_res (block g) (cells best_map) with
  | Raise e => Raise e
  | Ok blocks =>
      match shape g with
      | [] => Raise IndexError
      | _ :: rest =>
          Ok (rollaxis_last
                (mk_array (rows best_map :: cols best_map :: rest)
                          (concat blocks)))
      end
  end.

(** [np.unique(np.ravel(a))]: the values of the array, ascending. *)
Definition unique (l : list nat) : list nat :=
  filter (fun v => existsb (Nat.eqb v) l) (seq 0 (S (list_max l))).

(** [mode(best_map)] of [scipy.stats], then [[0][0,0]] and [[1][0,0]].
    [mode] works along axis 0, one result per column; entry [(0, 0)] is
    that of the first column: every value of the array is tried in
    ascending order and replaces the current one when it occurs more
    often in the column.  An empty array has empty results, which have
    no entry [(0, 0)]. *)
Definition mode_00 (best_map : map2 nat) : res (nat * nat) :=
  if rows best_map * cols best_map =? 0 then Raise IndexError
  else
    let column0 := map (fun y => nth (y * cols best_map) (cells best_map) 0)
                       (seq 0 (rows best_map)) in
    Ok (fold_left
          (fun (old : nat * nat) score =>
             let counts := count_occ Nat.eq_dec column0 score in
             if snd old <? counts then (score, counts) else old)
          (unique (cells best_map)) (0, 0)).

(** [best_map[np.unravel_index(i, self.snr_map.shape)]] *)
Definition at_snr_index (best_map : map2 nat) (snr : map2 fval) (i : nat)
  : res nat :=
  let y := i / cols snr in
  let x := i mod cols snr in
  if (y <? rows best_map) && (x <? cols best_map)
  then Ok (nth (y * cols best_map + x) (cells best_map) 0)
  else Raise IndexError.

End Pick.

(** Lines 297-309 of [best_guess]: the memory taken as available, in
    bytes.  [memory_limit or memgb] is evaluated only where [psutil] is
    missing; [memgb] is then what [free -g] reports, or 8. *)
Definition memory_bytes (e : env) (memory_limit : option Q) : Z :=
  match psutil_available e with
  | Some mem => mem
  | None =>
      let memgb := match free_g e with
                   | Some v => inject_Z v
                   | None => inject_Z 8
                   end in
      let memgb := match memory_limit with
                   | Some l => if truthy memory_limit then l else memgb
                   | None => memgb
                   end in
      (int_of_Q memgb * 2 ^ 30)%Z
  end.

Definition available_memory (e : env) (memory_limit : option Q) : M Z :=
  (match psutil_available e, free_g e with
   | None, None =>
       log_msg LWarn "Can't get the free RAM size, assuming 8 GB"
   | _, _ => ret tt
   end) ;;
  ret (memory_bytes e memory_limit).

(** [self.cube.nbytes * model_grid.shape[0] * 2] *)
Definition threshold (s : SubCube) (mg : ndarray Q) : Z :=
  (Z.of_nat (nchan (cube s) * ny (cube s) * nx (cube s) * itemsize s)
   * Z.of_nat (Sel.nmodels mg) * 2)%Z.

(** The local variables of [best_guess] after the residuals: the binding
    of [residual_rms], if any, and those of [best_map] and [rmsmin_map]
    made by the nested tier. *)
Record locals : Type := mk_locals {
  residual_rms : option (ndarray fval);
  nested_maps : option (map2 (option nat) * map2 fval)
}.

(** Lines 334-355, the handler of [MemoryError]: the nested tier. *)
Definition nested (mg : ndarray Q) (sn_cut : option Q) (pbar_inc : nat)
  : M (map2 (option nat) * map2 fval) :=
  log_msg LWarn
    "Not enough memory to broadcast model grid to the XY grid. This is bad for a number of reasons, the formost of which: the running time just went through the roof. Leave it overnight maybe?" ;;
  s <- get_self ;;
  mask <- (match sn_cut with
           | Some cut =>
               if truthy sn_cut then
                 snr <- attr (snr_map s) ;;
                 ret (Some (Pick.snr_mask snr cut))
               else ret None
           | None => ret None
           end) ;;
  px <- lift (Grid.mapM_res (Sel.nested_pixel (cube s) mg mask pbar_inc)
                            (seq 0 (Sel.npix (cube s)))) ;;
  ret (mk_map (ny (cube s)) (nx (cube s)) (map fst px),
       mk_map (ny (cube s)) (nx (cube s)) (map snd px)).

(** Lines 312-363: the choice of the tier and the residuals. *)
Definition residual_stage (e : env) (mg : marray) (sn_cut : option Q)
    (pbar_inc : nat) (mem : Z) : M locals :=
  s <- get_self ;;
  if (mem <? threshold s (arr mg))%Z then
    log_msg LWarn
      "The available free memory might not be enough for broadcasting model grid to the spectral cube. Will iterate over all the XY pairs instead. Coffee time!" ;;
    match Sel.per_pixel e (cube s) mg with
    | (r, false) => ret (mk_locals r None)
    | (r, true) =>
        maps <- nested (arr mg) sn_cut pbar_inc ;;
        ret (mk_locals r (Some maps))
    end
  else
    r <- lift (Sel.broadcast e (cube s) (arr mg)) ;;
    ret (mk_locals (Some r) None).

(** A local variable that must have been bound. *)
Definition local {A} (o : option A) : M A :=
  match o with
  | Some a => ret a
  | None => raise UnboundLocalError
  end.

(** Lines 365-397: masking, the maps and the reported guesses, from
    [residual_rms] alone; the maps of the nested tier are not read. *)
Definition selection_stage (l : locals) (sn_cut : option Q) : M unit :=
  s <- get_self ;;
  let c := cube s in
  r <- (match sn_cut with
        | Some cut =>
            if truthy sn_cut then
              snr <- attr (snr_map s) ;;
              r <- local (residual_rms l) ;;
              r' <- lift (Pick.mask_assign r
                            (Pick.get_slice_mask (nchan c)
                                                 (Pick.snr_mask snr cut))) ;;
              ret (Some r')
            else ret (residual_rms l)
        | None => ret (residual_rms l)
        end) ;;
  r <- local r ;;
  best_map <- lift (Pick.argmin_axis0 r (ny c) (nx c)) ;;
  rmsmin_map <- lift (Pick.min_axis0 r (ny c) (nx c)) ;;
  modify (set_best_map best_map) ;;
  modify (set_best_rmsmap rmsmin_map) ;;
  g <- (match guess_grid s with
        | None => raise TypeError
        | Some g => ret g
        end) ;;
  bg <- lift (Pick.lookup_guesses g best_map) ;;
  modify (set_best_guesses bg) ;;
  '(best_model_num, best_model_freq) <- lift (Pick.mode_00 best_map) ;;
  (if F.Qltb (inject_Z (Z.of_nat best_model_freq)
              / inject_Z (Z.of_nat (ny c * nx c))) (5 # 100)
   then log_msg LWarn
          "Selected model is best only for less than %5 of the cube, consider using the map of guesses."
   else ret tt) ;;
  modify (set_best_model best_model_num) ;;
  v <- lift (Pick.block g best_model_num) ;;
  modify (set_best_guess_value v) ;;
  log_msg LInfo "Overall best model" ;;
  try_except
    (snr <- attr (snr_map s) ;;
     best_snr <- (match F.argmax (cells snr) with
                  | Some i => ret i
                  | None => raise ValueError
                  end) ;;
     i <- lift (Pick.at_snr_index best_map snr best_snr) ;;
     v <- lift (Pick.block g i) ;;
     modify (set_best_snr_guess v) ;;
     log_msg LInfo "Best model @ highest SNR")
    AttributeError
    (log_msg LWarn
       "Can't find the SNR map, best guess at highest SNR pixel will not be stored.").

(** Lines 279-286: the model grid to use; [from_file] is the array
    [np.load] returns for the file name given. *)
Definition resolve_model_grid (model_grid_ from_file : option marray)
  : M marray :=
  s <- get_self ;;
  match model_grid_ with
  | Some m => ret m
  | None =>
      match from_file with
      | Some m => ret m
      | None =>
          match model_grid s with
          | None => raise TypeError
          | Some a => ret (mk_marray a true)
          end
      end
  end.

(** [SubCube.best_guess] *)
Definition best_guess (e : env) (model_grid_ : option marray)
    (sn_cut memory_limit : option Q) (from_file : option marray)
    (pbar_inc : nat) : M unit :=
  s <- get_self ;;
  mg <- resolve_model_grid model_grid_ from_file ;;
  match shape (arr mg) with
  | [] => raise IndexError
  | sh =>
      if negb (last sh 0 =? nchan (cube s)) then raise ValueError
      else if 2 <? length sh then raise NotImplementedError
      else
        log_msg LInfo "Calculating residuals for generated models . . ." ;;
        mem <- available_memory e memory_limit ;;
        l <- residual_stage e mg sn_cut pbar_inc mem ;;
        selection_stage l sn_cut
  end.

(** ** Signal/Noise Estimator *)

(** [round] of Python 2 on a float: halves go away from zero. *)
Definition py_round (q : Q) : Z :=
  if Qle_bool 0 q then Qfloor (q + (1 # 2)) else Qceiling (q - (1 # 2)).

(** A slice bound on an axis of [n] entries: a negative bound counts
    from the end, and bounds are clipped to the axis. *)
Definition slice_bound (n : nat) (i : Z) : Z :=
  if (i <? 0)%Z then Z.max 0 (i + Z.of_nat n) else Z.min i (Z.of_nat n).

(** [mask[low:high] = True] *)
Definition set_slice (low high : Z) (mask : list bool) : list bool :=
  map (fun pb =>
         let p := Z.of_nat (fst pb) in
         if (slice_bound (length mask) low <=? p)%Z
            && (p <? slice_bound (length mask) high)%Z
         then true else snd pb)
      (combine (seq 0 (length mask)) mask).

Definition pixel_units : list string :=
  ["pix"; "pixel"; "pixels"; "chan"; "channel"; "channels"]%string.

Section Estimator.

(** The spectral axis of pyspeckit: whether it converts to a unit, and
    the channel of a value given in that unit ([xarr.x_to_pix]). *)
Variable unit_ok : string -> bool.
Variable x_to_pix : string -> Q -> Z.

(** [SubCube.get_mask] *)
Definition get_mask (low_indices high_indices : list Q) (unit : string)
  : M (list bool) :=
  s <- get_self ;;
  fold_left
    (fun (acc : M (list bool)) (lh : Q * Q) =>
       mask <- acc ;;
       '(index_low, index_high) <-
         (if negb (existsb (String.eqb unit) pixel_units) then
            if unit_ok unit
            then ret (x_to_pix unit (fst lh), x_to_pix unit (snd lh))
            else raise UnitConversionError
          else ret (int_of_Q (fst lh), int_of_Q (snd lh))) ;;
       ret (set_slice (Z.min index_low index_high)
                      (Z.max index_low index_high) mask))
    (combine low_indices high_indices)
    (ret (repeat false (nchan (cube s)))).

(** [self.cube[mask, :, :]]: the channels the mask selects; the mask
    has one entry per channel. *)
Definition select_channels (c : cube3) (mask : list bool) : res (list nat) :=
  if length mask =? nchan c
  then Ok (filter (fun ch => nth ch mask false) (seq 0 (nchan c)))
  else Raise IndexError.

Definition Qmax_list (x : Q) (l : list Q) : Q := fold_left Qmax l x.

(** [SubCube.get_rms_map] *)
Definition get_rms_map (noise_mask : option (list bool)) : M (map2 fval) :=
  s <- get_self ;;
  noise_mask <- (match noise_mask with
                 | Some m => ret m
                 | None =>
                     log_msg LWarn
                       "no noise mask was given, will calculate the RMS over all channels, thus overestimating the noise!" ;;
                     ret (repeat true (nchan (cube s)))
                 end) ;;
  chans <- lift (select_channels (cube s) noise_mask) ;;
  let rms_map :=
    mk_map (ny (cube s)) (nx (cube s))
      (map (fun p => F.std (map (fun ch => nth (ch * Sel.npix (cube s) + p)
                                              (flux (cube s)) 0%Q) chans))
           (seq 0 (Sel.npix (cube s)))) in
  modify (set_rms_map rms_map) ;;
  ret rms_map.

(** [SubCube.get_signal_map]; the mask it makes up when given none is
    [np.array(self.xarr.shape, dtype=bool)], of one entry.  A maximum
    over no channel is a [ValueError]. *)
Definition get_signal_map (signal_mask : option (list bool)) : M (map2 Q) :=
  s <- get_self ;;
  signal_mask <- (match signal_mask with
                  | Some m => ret m
                  | None =>
                      log_msg LWarn
                        "no signal mask was given, will calculate the signal over all channels: true signal might be lower." ;;
                      ret [negb (nchan (cube s) =? 0)]
                  end) ;;
  chans <- lift (select_channels (cube s) signal_mask) ;;
  match chans with
  | [] => raise ValueError
  | ch0 :: rest =>
      let at_ p ch := nth (ch * Sel.npix (cube s) + p) (flux (cube s)) 0%Q in
      let signal_map :=
        mk_map (ny (cube s)) (nx (cube s))
          (map (fun p => Qmax_list (at_ p ch0) (map (at_ p) rest))
               (seq 0 (Sel.npix (cube s)))) in
      modify (set_signal_map signal_map) ;;
      ret signal_map
  end.

(** [SubCube.get_snr_map]; [signal] and [noise] are the pairs of rows
    [(starts, ends)] of the [2 x N] arrays. *)
Definition get_snr_map (signal noise : option (list Q * list Q))
    (unit : string) (signal_mask noise_mask : option (list bool))
  : M (map2 fval) :=
  s <- get_self ;;
  let size_ := inject_Z (Z.of_nat (nchan (cube s))) in
  let default_cut := 33 # 100 in
  let i_low := py_round (size_ * default_cut) in
  let i_high := py_round (size_ * (1 - default_cut)) in
  let '(signal, unit_signal) :=
    match signal with
    | Some sg => (sg, unit)
    | None => (([inject_Z (i_low + 1)], [inject_Z (i_high - 1)]),
               "pixel"%string)
    end in
  let '(noise, unit_noise) :=
    match noise with
    | Some nz => (nz, unit)
    | None => (([inject_Z 0; inject_Z i_high],
                [inject_Z i_low; inject_Z (Z.of_nat (nchan (cube s)) - 1)]),
               "pixel"%string)
    end in
  signal_mask <- (match signal_mask with
                  | Some m => ret m
                  | None => get_mask (fst signal) (snd signal) unit_signal
                  end) ;;
  noise_mask <- (match noise_mask with
                 | Some m => ret m
                 | None => get_mask (fst noise) (snd noise) unit_noise
                 end) ;;
  modify (set_masks signal_mask noise_mask) ;;
  signal_map <- get_signal_map (Some signal_mask) ;;
  rms_map <- get_rms_map (Some noise_mask) ;;
  let snr_map :=
    mk_map (rows signal_map) (cols signal_map)
      (map (fun sr => F.div (F.of_Q (fst sr)) (snd sr))
           (combine (cells signal_map) (cells rms_map))) in
  modify (set_snr_map snr_map) ;;
  ret snr_map.

End Estimator.

(** ** Statements of the specification and sample inputs *)

(** The finesse of each of [n] dimensions. *)
Definition finesse_vec (n : nat) (f : finesse_arg) : list Z :=
  match f with
  | Scalar k => repeat k n
  | Vector v => v
  end.

(** A positive integer, or one positive integer per dimension. *)
Definition valid_finesse (n : nat) (f : finesse_arg) : Prop :=
  length (finesse_vec n f) = n /\ Forall (fun k => (0 < k)%Z) (finesse_vec n f).

(** [G], the product of the finesses. *)
Definition grid_size (n : nat) (f : finesse_arg) : nat :=
  prod_nat (map Z.to_nat (finesse_vec n f)).

(** Component [i] of a vector. *)
Definition comp (v : list Q) (i : nat) : Q := nth i v 0%Q.



Definition low_memory_warning : event :=
  (LWarn,
   "The available free memory might not be enough for broadcasting model grid to the spectral cube. Will iterate over all the XY pairs instead. Coffee time!"%string).

Definition nested_warning : event :=
  (LWarn,
   "Not enough memory to broadcast model grid to the XY grid. This is bad for a number of reasons, the formost of which: the running time just went through the roof. Leave it overnight maybe?"%string).

Definition low_confidence_warning : event :=
  (LWarn,
   "Selected model is best only for less than %5 of the cube, consider using the map of guesses."%string).

(** The default masks of [get_snr_map] on [n] channels, from the cuts
    [i_low = round(0.33 n)] and [i_high = round(0.67 n)]. *)
Definition i_low (n : nat) : Z := py_round (inject_Z (Z.of_nat n) * (33 # 100)).
Definition i_high (n : nat) : Z :=
  py_round (inject_Z (Z.of_nat n) * (1 - (33 # 100))).

Definition in_range (a b : Z) (ch : nat) : bool :=
  ((Z.min a b <=? Z.of_nat ch) && (Z.of_nat ch <? Z.max a b))%Z.

Definition default_signal_mask (n : nat) : list bool :=
  map (in_range (i_low n + 1) (i_high n - 1)) (seq 0 n).

Definition default_noise_mask (n : nat) : list bool :=
  map (fun ch => in_range 0 (i_low n) ch
                 || in_range (i_high n) (Z.of_nat n - 1) ch)
      (seq 0 n).

Module Demo.

Local Open Scope Q_scope.

(** A cube of 2 channels on 2 x 2 pixels: the spectrum is [(0, 2)] at
    pixel (0, 0) and [(0, 4)] at the three others. *)
Definition cube22 : cube3 := mk_cube 2 2 2 [0; 0; 0; 0; 2; 4; 4; 4].

(** Two guesses of one parameter and their models [(0, 2)] and [(0, 4)]. *)
Definition guesses : ndarray Q := mk_array [2; 1]%nat [10; 20].
Definition models : ndarray Q := mk_array [2; 2]%nat [0; 2; 0; 4].

(** Signal-to-noise 5 everywhere but 1 at pixel (0, 1). *)
Definition snr22 : map2 fval :=
  mk_map 2 2 [F.of_Q 5; F.of_Q 1; F.of_Q 5; F.of_Q 5].

Definition blank (c : cube3) : SubCube :=
  mk_SubCube c 8 1 "gaussian" None None None None None None None None None
             None None None None None [] [].

Definition sc : SubCube :=
  mk_SubCube cube22 8 1 "gaussian" (Some guesses) (Some models) None
             (Some snr22) None None None None None None None None None None
             [] [].

(** [psutil] reports 16 GiB and no allocation fails. *)
Definition roomy : env :=
  mk_env (Some (2 ^ 34)%Z) None false false None (fun _ => Nan).

(** [psutil] reports no memory available. *)
Definition tight : env :=
  mk_env (Some 0%Z) None false false None (fun _ => Nan).



(** No [psutil], [free -g] reports 16 GB. *)
Definition no_psutil : env :=
  mk_env None (Some 16%Z) false false None (fun _ => Nan).

Definition in_memory (a : ndarray Q) : marray := mk_marray a true.
Definition memmapped (a : ndarray Q) : marray := mk_marray a false.

(** A guess cube on the 2 x 2 pixels, one parameter each, and a model
    function that repeats its parameter on the two channels. *)
Definition guess_cube : ndarray Q := mk_array [2; 2; 1]%nat [1; 2; 3; 4].
Definition flat_model (pars : list Q) : list Q :=
  [hd 0 pars; hd 0 pars].

(** A spectrum of 9 channels on one pixel. *)
Definition line9 : cube3 := mk_cube 9 1 1 [0; 1; 0; 1; 5; 7; 6; 1; 0].

(** The sample object with recorded bounds [5, 25] for its parameter. *)
Definition bounds0 : fiteach := mk_fiteach None [true] [true] [5] [25].
Definition sc_bounds : SubCube := set_fiteach_args bounds0 sc.

End Demo.

(** ** Definitions used by the proofs *)

(** The [k]-th point of [np.linspace(lo, hi, num)]. *)
Definition point (lo hi : Q) (num : Z) (k : nat) : Q :=
  (inject_Z (Z.of_nat k) * ((hi - lo) / inject_Z (num - 1)) + lo)%Q.

(** One slice of the parameter space, as the loop of [_grid_parspace]
    builds it. *)
Definition slice_of (clip_edges : bool) (x : Z * Q * Q) : res (list Q) :=
  let '(i_len, i_min, i_max) := x in
  match Grid.linspace i_min i_max i_len with
  | Ok l => Ok (if clip_edges then Grid.clip l else l)
  | Raise e => Raise e
  end.

Definition edge (clip_edges : bool) (f : Z) : Z :=
  (f + (if clip_edges then 2 else 0))%Z.

Definition slices (lo hi : list Q) (fs : list Z) : list (list Q) :=
  map (fun x : Z * Q * Q =>
         let '(n, a, b) := x in map (point a b n) (seq 1 (Z.to_nat (n - 2))))
      (Grid.zip3 (map (edge true) fs) lo hi).

Definition slices_full (lo hi : list Q) (fs : list Z) : list (list Q) :=
  map (fun x : Z * Q * Q =>
         let '(n, a, b) := x in
         map (fun k => if (1 <? Z.to_nat n) && (k =? Z.to_nat n - 1) then b
                       else point a b n k)
             (seq 0 (Z.to_nat n)))
      (Grid.zip3 (map (edge false) fs) lo hi).

Definition par_space_of (c : bool) (lo hi : list Q) (fs : list Z) :=
  if c then slices lo hi fs else slices_full lo hi fs.

(** The log after a run of [_grid_parspace]. *)
Definition grid_log (lo hi : list Q) (s : SubCube) : SubCube :=
  add_log (LInfo, "Binning the parameter space into a grid"%string)
    (if Grid.any2 Grid.Qgtb lo hi
     then add_log
            (LError,
             "Some of the minimal parameters are larger than the maximal ones. Normally this is not supposed to happen."%string)
            s
     else s).

(** Element-wise minimum and maximum of two vectors. *)
Definition vmin (a b : list Q) : list Q :=
  map (fun xy => Qmin (fst xy) (snd xy)) (combine a b).
Definition vmax (a b : list Q) : list Q :=
  map (fun xy => Qmax (fst xy) (snd xy)) (combine a b).

(** One expansion as the specification describes it: the grid returned
    and stored is the old one followed by the new sub-grid, and the
    recorded bounds are the element-wise minimum and maximum of the old
    and the new ones, never narrower than the old ones. *)
Definition expanded_from (s : SubCube) (old : ndarray Q) (args : fiteach)
    (lo hi : list Q) (f : finesse_arg) (c : bool)
    (new g : ndarray Q) (s' : SubCube) (args' : fiteach) : Prop :=
  fst (_grid_parspace lo hi f c s) = Ok new /\
  expand_guess_grid lo hi f c s = (Ok g, s') /\
  guess_grid s' = Some g /\
  rows_of g = rows_of old ++ rows_of new /\
  fiteach_args s' = Some args' /\
  forall i, i < length lo ->
    comp (minpars args') i = Qmin (comp (minpars args) i) (comp lo i) /\
    comp (maxpars args') i = Qmax (comp (maxpars args) i) (comp hi i) /\
    (comp (minpars args') i <= comp (minpars args) i)%Q /\
    (comp (maxpars args) i <= comp (maxpars args') i)%Q.

Definition expanded_twice (s : SubCube) (old : ndarray Q) (args : fiteach)
    (lo1 hi1 : list Q) (f1 : finesse_arg) (c1 : bool)
    (lo2 hi2 : list Q) (f2 : finesse_arg) (c2 : bool) : Prop :=
  exists new1 g1 s1 args1 new2 g2 s2 args2,
    expanded_from s old args lo1 hi1 f1 c1 new1 g1 s1 args1 /\
    expanded_from s1 g1 args1 lo2 hi2 f2 c2 new2 g2 s2 args2 /\
    rows_of g2 = rows_of old ++ rows_of new1 ++ rows_of new2 /\
    forall i, i < length lo1 ->
      comp (minpars args2) i
      = Qmin (Qmin (comp (minpars args) i) (comp lo1 i)) (comp lo2 i) /\
      comp (maxpars args2) i
      = Qmax (Qmax (comp (maxpars args) i) (comp hi1 i)) (comp hi2 i).

(** The exceptions a computation can end in. *)
Definition raises_only {A} (P : exn -> Prop) (m : M A) : Prop :=
  forall s e s', m s = (Raise e, s') -> P e.

Definition fails_only {A} (P : exn -> Prop) (r : res A) : Prop :=
  forall e, r = Raise e -> P e.

(** The exceptions of the array operations of the selector. *)
Definition array_error (e : exn) : Prop :=
  e = IndexError \/ e = ValueError \/ e = ZeroDivisionError.

(** Every exception but [x]. *)
Definition not_exn (x e : exn) : Prop := e <> x.

(** A model grid that passes the two shape checks: one or two axes, the
    last one of the length of the spectral axis. *)
Definition accepted (s : SubCube) (mg : marray) : Prop :=
  shape (arr mg) <> [] /\
  last (shape (arr mg)) 0 = nchan (cube s) /\
  length (shape (arr mg)) <= 2.

(** The object when the residuals are about to be computed. *)
Definition at_residuals (e : env) (s : SubCube) : SubCube :=
  let s1 := add_log
              (LInfo, "Calculating residuals for generated models . . ."%string)
              s in
  match psutil_available e, free_g e with
  | None, None =>
      add_log (LWarn, "Can't get the free RAM size, assuming 8 GB"%string) s1
  | _, _ => s1
  end.

(** The residuals the maps are taken from: [residual_rms] as the tiers
    left it, or masked when the cutoff is a true value. *)
Definition masked_residuals (l : locals) (sn : option Q) (s : SubCube)
  : res (ndarray fval) :=
  let unmasked := match residual_rms l with
                  | Some r => Ok r
                  | None => Raise UnboundLocalError
                  end in
  match sn with
  | Some cut =>
      if truthy sn then
        match snr_map s, residual_rms l with
        | None, _ => Raise AttributeError
        | Some _, None => Raise UnboundLocalError
        | Some snr, Some r =>
            Pick.mask_assign r
              (Pick.get_slice_mask (nchan (cube s)) (Pick.snr_mask snr cut))
        end
      else unmasked
  | None => unmasked
  end.

(** The test of line 381 on the count of the reported model. *)
Definition under_5_percent (freq : nat) (c : cube3) : bool :=
  F.Qltb (inject_Z (Z.of_nat freq) / inject_Z (Z.of_nat (ny c * nx c)))
         (5 # 100).

(** The first column of a map. *)
Definition column0 (bm : map2 nat) : list nat :=
  map (fun y => nth (y * cols bm) (cells bm) 0) (seq 0 (rows bm)).



(** The log records a method added. *)
Definition new_log (s s' : SubCube) : list event :=
  skipn (length (log s)) (log s').

(** The cell of a residual buffer at model [i] and pixel [p], for [np_]
    pixels. *)
Definition cell (np_ : nat) (buf : list fval) (i p : nat) : fval :=
  nth (i * np_ + p) buf Nan.

(** ** Definitions used by the further properties *)

(** The record [_grid_parspace] logs for bounds in the wrong order. *)
Definition inverted_bounds_error : event :=
  (LError,
   "Some of the minimal parameters are larger than the maximal ones. Normally this is not supposed to happen."%string).

(** The dictionary [make_guess_grid] stores on an object [s]: the
    defaults are all-[False] for [fixed] and all-[True] for the two
    [limited] entries, and [fixed] is popped for the gaussian fitter. *)
Definition recorded_args (fx lmin lmax : option (list bool)) (lo hi : list Q)
    (s : SubCube) : fiteach :=
  mk_fiteach
    (if String.eqb (fittype s) "gaussian" then None
     else Some (match fx with
                | None => repeat false (length lo)
                | Some f => f
                end))
    (match lmin with None => repeat true (length lo) | Some l => l end)
    (match lmax with None => repeat true (length lo) | Some l => l end)
    lo hi.

(** The records [generate_model] writes to the log. *)
Definition skipping_event : event :=
  (LInfo, "A file with generated models is already in place. Skipping."%string).

Definition generating_event : event :=
  (LInfo, "Generating spectral models from the guess grid . . ."%string).

(** The grid [generate_model] works on: its argument, or the grid of the
    object when the argument is left out. *)
Definition grid_used (go : option (ndarray Q)) (s : SubCube)
  : option (ndarray Q) :=
  match go with
  | Some g => Some g
  | None => guess_grid s
  end.

(** The residual of model [i] at the pixel of flat index [p]: the
    standard deviation over the channels of [cube[:, y, x] -
    model_grid[i]]. *)
Definition resid (c : cube3) (mg : ndarray Q) (i p : nat) : fval :=
  F.std (Sel.sub (Sel.spectrum c p) (Sel.model_row mg i)).

(** The array of the residuals of [g] models, of shape [(g, Y, X)]. *)
Definition residuals (c : cube3) (mg : ndarray Q) (g : nat) : ndarray fval :=
  mk_array [g; ny c; nx c]
    (flat_map (fun i => map (fun p => resid c mg i p) (seq 0 (Sel.npix c)))
              (seq 0 g)).

(** No allocation fails. *)
Definition no_allocation_fails (e : env) : Prop :=
  oom_broadcast e = false /\ oom_alloc e = false /\ oom_pixel e = None.

(** The warning of [best_guess] for an object without SNR map. *)
Definition snr_missing_warning : event :=
  (LWarn,
   "Can't find the SNR map, best guess at highest SNR pixel will not be stored."%string).

(** The SNR map, when there is one, has one cell per pixel of the cube. *)
Definition snr_map_fits (s : SubCube) : Prop :=
  match snr_map s with
  | None => True
  | Some snr =>
      rows snr = ny (cube s) /\ cols snr = nx (cube s) /\
      length (cells snr) = ny (cube s) * nx (cube s)
  end.


(** The object without its log: what two objects share when they differ
    in their log records only. *)
Definition without_log (s : SubCube) : SubCube :=
  mk_SubCube (cube s) (itemsize s) (npars s) (fittype s)
    (guess_grid s) (model_grid s) (fiteach_args s) (snr_map s)
    (_mask_signal s) (_mask_noise s) (_signal_map s) (_rms_map s)
    (_best_map s) (_best_rmsmap s) (best_guesses s) (_best_model s)
    (best_guess_value s) (best_snr_guess s) (files s) [].

(** A computation that only adds records to the log. *)
Definition log_extends {A} (m : M A) : Prop :=
  forall s, exists evs, log (snd (m s)) = log s ++ evs.

(** The warning of [best_guess] when the free memory cannot be read. *)
Definition free_ram_warning : event :=
  (LWarn, "Can't get the free RAM size, assuming 8 GB"%string).

(** The channels [mask[low:high] = True] sets, for the bounds of one
    range given in pixels: the bounds are cut to integers and sorted. *)
Definition in_slice (n : nat) (lh : Q * Q) (ch : nat) : Prop :=
  let a := int_of_Q (fst lh) in
  let b := int_of_Q (snd lh) in
  (slice_bound n (Z.min a b) <= Z.of_nat ch)%Z /\
  (Z.of_nat ch < slice_bound n (Z.max a b))%Z.

(** The flux of channel [ch] at the pixel of flat index [p]. *)
Definition flux_at (c : cube3) (ch p : nat) : Q :=
  nth (ch * Sel.npix c + p) (flux c) 0%Q.

(** The warnings of the estimator for a mask that was not given. *)
Definition no_signal_mask_warning : event :=
  (LWarn,
   "no signal mask was given, will calculate the signal over all channels: true signal might be lower."%string).



(** ** Choosing the spectral model *)





(** ** Sample inputs of the further properties *)

Module Sample.

Local Open Scope Q_scope.

(** The sample grid of two models, held in memory. *)
Definition grid : option marray := Some (Demo.in_memory Demo.models).

(** Three models for the two channels of the sample cube. *)
Definition three_models : ndarray Q :=
  mk_array [3; 2]%nat [0; 2; 0; 4; 1; 1].

(** The run of [best_guess] on the sample object, without cutoff. *)
Definition selection : res unit * SubCube :=
  best_guess Demo.roomy grid None None None 1000 Demo.sc.

(** A spectral axis that converts to no unit. *)
Definition no_unit (unit : string) : bool := false.
Definition no_pix (unit : string) (x : Q) : Z := 0%Z.

(** A spectrum of 8 channels on one pixel. *)
Definition line8 : cube3 := mk_cube 8 1 1 [0; 1; 0; 5; 7; 6; 1; 0].


End Sample.

(** * Properties *)

(** * Lists *)

Lemma nth_seq_map {A} (l : list A) (d : A) :
  map (fun i => nth i l d) (seq 0 (length l)) = l.
Proof.
  induction l as [|x l IH]; [reflexivity|].
  cbn [length seq map nth]. rewrite <- seq_shift, map_map. now rewrite IH.
Qed.

Lemma prod_nat_app (a b : list nat) :
  prod_nat (a ++ b) = prod_nat a * prod_nat b.
Proof.
  induction a as [|x a IH]; cbn [app prod_nat fold_right].
  - now rewrite Nat.mul_1_l.
  - fold (prod_nat (a ++ b)). fold (prod_nat a). rewrite IH. apply Nat.mul_assoc.
Qed.

Lemma length_flat_map_const {A} {B} (f : B -> list A) (l : list B) (n : nat) :
  (forall x, In x l -> length (f x) = n) ->
  length (flat_map f l) = length l * n.
Proof.
  induction l as [|x l IH]; intros H; [reflexivity|].
  cbn [flat_map]. rewrite length_app, H, IH by (intuition auto with datatypes).
  cbn; lia. 
Qed.

Lemma firstn_app_exact {A} (a b : list A) (n : nat) :
  length a = n -> firstn n (a ++ b) = a.
Proof.
  intros <-. rewrite firstn_app, Nat.sub_diag, firstn_O, app_nil_r.
  apply firstn_all.
Qed.

Lemma skipn_app_exact {A} (a b : list A) (n : nat) :
  length a = n -> skipn n (a ++ b) = b.
Proof.
  intros <-. rewrite skipn_app, Nat.sub_diag, skipn_all. reflexivity.
Qed.

Lemma chunks_flat_map {A} {B} (f : B -> list A) (l : list B) (n : nat) :
  (forall x, In x l -> length (f x) = n) ->
  chunks n (length l) (flat_map f l) = map f l.
Proof.
  induction l as [|x l IH]; intros H; [reflexivity|].
  cbn [flat_map length chunks map].
  assert (Hx : length (f x) = n) by (apply H; now left).
  rewrite firstn_app_exact, skipn_app_exact by assumption.
  rewrite IH by (intros; apply H; now right). reflexivity.
Qed.

Lemma nth_concat_uniform {A} (ls : list (list A)) (n i r : nat) (d : A) :
  Forall (fun l => length l = n) ls ->
  r < n ->
  nth (i * n + r) (concat ls) d = nth r (nth i ls []) d.
Proof.
  intros H Hr. revert i. induction H as [|l ls Hl _ IH]; intros i.
  - cbn [concat]. now destruct (i * n + r), i, r.
  - destruct i as [|i]; cbn [concat nth Nat.mul Nat.add].
    + rewrite app_nth1 by lia. reflexivity.
    + rewrite app_nth2 by lia.
      replace (n + i * n + r - length l) with (i * n + r) by lia. apply IH.
Qed.

Lemma cartesian_length {A} (ls : list (list A)) :
  length (Grid.cartesian ls) = prod_nat (map (@length A) ls).
Proof.
  induction ls as [|xs ls IH]; [reflexivity|].
  cbn [Grid.cartesian map prod_nat fold_right].
  rewrite (length_flat_map_const _ _ (length (Grid.cartesian ls))).
  - rewrite IH. reflexivity.
  - intros. now rewrite length_map.
Qed.

Lemma cartesian_In {A} (ls : list (list A)) (p : list A) :
  In p (Grid.cartesian ls) -> Forall2 (fun x l => In x l) p ls.
Proof.
  revert p. induction ls as [|xs ls IH]; intros p H.
  - destruct H as [<-|[]]. constructor.
  - cbn [Grid.cartesian] in H. apply in_flat_map in H as (x & Hx & H).
    apply in_map_iff in H as (q & <- & Hq). constructor; auto.
Qed.

Lemma swap01_involutive {A} (l : list A) : Grid.swap01 (Grid.swap01 l) = l.
Proof. now destruct l as [|a [|b l]]. Qed.

Lemma swap01_length {A} (l : list A) : length (Grid.swap01 l) = length l.
Proof. now destruct l as [|a [|b l]]. Qed.

Lemma Forall2_swap01 {A} {B} (R : A -> B -> Prop) (p : list A) (ls : list B) :
  Forall2 R p ls -> Forall2 R (Grid.swap01 p) (Grid.swap01 ls).
Proof.
  intros H. destruct H as [|a b p ls Hab H]; [constructor|].
  destruct H as [|a' b' p ls Hab' H]; cbn; repeat constructor; auto.
Qed.

Lemma mesh_points_In {A} (ps : list (list A)) (p : list A) :
  In p (Grid.mesh_points ps) -> Forall2 (fun x l => In x l) p ps.
Proof.
  unfold Grid.mesh_points. intros H.
  apply in_map_iff in H as (q & <- & Hq). apply cartesian_In in Hq.
  apply Forall2_swap01 in Hq. now rewrite swap01_involutive in Hq.
Qed.

Lemma mesh_points_length {A} (ps : list (list A)) :
  length (Grid.mesh_points ps) = prod_nat (map (@length A) ps).
Proof.
  unfold Grid.mesh_points. rewrite length_map, cartesian_length.
  destruct ps as [|a [|b ps]]; cbn; lia.
Qed.

(** * The grid builder *)

Lemma clip_map_seq {A} (F : nat -> A) (m : nat) :
  Grid.clip (map F (seq 0 (S (S m)))) = map F (seq 1 m).
Proof.
  unfold Grid.clip. cbn [seq map tl].
  change (F 1 :: map F (seq 2 m)) with (map F (seq 1 (S m))).
  rewrite seq_S, map_app. cbn [map]. apply removelast_last.
Qed.

Lemma linspace_clip (lo hi : Q) (f : Z) :
  (0 < f)%Z ->
  exists l, Grid.linspace lo hi (f + 2) = Ok l /\
            Grid.clip l = map (point lo hi (f + 2)) (seq 1 (Z.to_nat f)).
Proof.
  intros Hf. unfold Grid.linspace.
  destruct (Z.ltb_spec (f + 2) 0); [lia|].
  eexists; split; [reflexivity|].
  replace (Z.to_nat (f + 2)) with (S (S (Z.to_nat f))) by lia.
  rewrite clip_map_seq. apply map_ext_in. intros k Hk.
  apply in_seq in Hk.
  destruct (Nat.eqb_spec k (S (S (Z.to_nat f)) - 1)); [lia|].
  now rewrite andb_false_r.
Qed.


Lemma mapM_res_ok {A B} (f : A -> res B) (g : A -> B) (l : list A) :
  (forall x, In x l -> f x = Ok (g x)) ->
  Grid.mapM_res f l = Ok (map g l).
Proof.
  induction l as [|x l IH]; intros H; [reflexivity|].
  cbn [Grid.mapM_res map]. rewrite H by now left.
  rewrite IH by (intros; apply H; now right). reflexivity.
Qed.

Lemma zip3_length {A B C} (a : list A) (b : list B) (c : list C) (n : nat) :
  length a = n -> length b = n -> length c = n ->
  length (Grid.zip3 a b c) = n.
Proof.
  revert b c n. induction a as [|x a IH]; intros [|y b] [|z c] n; cbn;
    intros; subst; try discriminate; auto.
Qed.

Lemma zip3_nth {A B C} (a : list A) (b : list B) (c : list C) i da db dc :
  length a = length b -> length b = length c ->
  nth i (Grid.zip3 a b c) (da, db, dc) = (nth i a da, nth i b db, nth i c dc).
Proof.
  revert b c i. induction a as [|x a IH]; intros [|y b] [|z c] i; cbn;
    intros; try discriminate; try (now destruct i).
  destruct i; [reflexivity|]. apply IH; lia.
Qed.

Lemma zip3_In {A B C} (a : list A) (b : list B) (c : list C) x y z :
  In (x, y, z) (Grid.zip3 a b c) -> In x a /\ In y b /\ In z c.
Proof.
  revert b c. induction a as [|x' a IH]; intros [|y' b] [|z' c]; cbn;
    try tauto.
  intros [E|H]; [inversion E; subst; auto|].
  apply IH in H. tauto.
Qed.

Lemma clip_length {A} (l : list A) : length (Grid.clip l) = length l - 2.
Proof.
  unfold Grid.clip. destruct l as [|x l]; [reflexivity|]. cbn [tl length].
  destruct l as [|y l] using rev_ind; [reflexivity|].
  rewrite removelast_last, length_app. cbn. lia.
Qed.

Lemma linspace_length (a b : Q) (num : Z) :
  (0 <= num)%Z ->
  exists l, Grid.linspace a b num = Ok l /\ length l = Z.to_nat num.
Proof.
  intros H. unfold Grid.linspace. destruct (Z.ltb_spec num 0); [lia|].
  eexists; split; [reflexivity|]. now rewrite length_map, length_seq.
Qed.

Lemma par_space_runs (c : bool) (lo hi : list Q) (fs : list Z) :
  Forall (fun k => (0 < k)%Z) fs ->
  Grid.mapM_res (slice_of c) (Grid.zip3 (map (edge c) fs) lo hi)
  = Ok (par_space_of c lo hi fs).
Proof.
  intros Hf. rewrite Forall_forall in Hf.
  destruct c; cbn [par_space_of]; apply mapM_res_ok; intros [[n a] b] H;
    apply zip3_In in H as (H & _ & _);
    apply in_map_iff in H as (k & <- & Hk); specialize (Hf k Hk);
    unfold edge, slice_of.
  - destruct (linspace_clip a b k Hf) as (l & -> & ->).
    now replace (k + 2 - 2)%Z with k by lia.
  - unfold Grid.linspace. destruct (Z.ltb_spec (k + 0) 0); [lia|].
    reflexivity.
Qed.

Lemma map_zip3_fst {A B C} (a : list A) (b : list B) (c : list C) :
  length a = length b -> length b = length c ->
  map (fun x => fst (fst x)) (Grid.zip3 a b c) = a.
Proof.
  revert b c. induction a as [|x a IH]; intros [|y b] [|z c]; cbn;
    intros; try discriminate; auto.
  f_equal. apply IH; lia.
Qed.

Lemma par_space_lengths (c : bool) (lo hi : list Q) (fs : list Z) :
  length fs = length lo -> length lo = length hi ->
  map (@length Q) (par_space_of c lo hi fs) = map Z.to_nat fs.
Proof.
  intros H1 H2.
  transitivity
    (map (fun n => Z.to_nat (n - (if c then 2 else 0)))
         (map (fun x : Z * Q * Q => fst (fst x))
              (Grid.zip3 (map (edge c) fs) lo hi))).
  - destruct c; cbn [par_space_of]; unfold slices, slices_full;
      rewrite !map_map; apply map_ext; intros [[n a] b];
      cbn [fst]; rewrite length_map, length_seq; f_equal; lia.
  - rewrite map_zip3_fst by (now rewrite ?length_map).
    rewrite map_map. apply map_ext. intros k. unfold edge.
    destruct c; f_equal; lia.
Qed.

Lemma par_space_length (c : bool) (lo hi : list Q) (fs : list Z) :
  length fs = length lo -> length lo = length hi ->
  length (par_space_of c lo hi fs) = length lo.
Proof.
  intros H1 H2.
  rewrite <- (length_map (@length Q)), par_space_lengths by assumption.
  now rewrite length_map.
Qed.

Lemma broadcast_ones_valid (n : nat) (f : finesse_arg) :
  valid_finesse n f ->
  Grid.broadcast_ones (atleast_1d f) n = Ok (finesse_vec n f).
Proof.
  intros [Hlen _]. unfold Grid.broadcast_ones.
  destruct f as [k|v]; cbn [atleast_1d finesse_vec] in *.
  - destruct n as [|[|n]]; reflexivity.
  - apply Nat.eqb_eq in Hlen. now rewrite Hlen.
Qed.

(** The rows of the array [_grid_parspace] returns are the points of the
    mesh, in their order. *)
Lemma reshape_T_meshgrid (ps : list (list Q)) :
  let g := mk_array [length (Grid.mesh_points ps); length ps]
             (flat_map (fun r => map (fun i =>
                            nth (i * length (Grid.mesh_points ps) + r)
                                (concat (Grid.meshgrid ps)) 0%Q)
                          (seq 0 (length ps)))
                       (seq 0 (length (Grid.mesh_points ps)))) in
  Grid.reshape_T (concat (Grid.meshgrid ps)) (length ps)
                 (prod_nat (map (@length Q) ps)) = Ok g /\
  rows_of g = Grid.mesh_points ps.
Proof.
  cbv zeta. set (pts := Grid.mesh_points ps). set (G := length pts).
  set (P := length ps).
  assert (Hrows : Forall (fun l : list Q => length l = G) (Grid.meshgrid ps)).
  { apply Forall_forall. intros l Hl. unfold Grid.meshgrid in Hl.
    apply in_map_iff in Hl as (i & <- & _). now rewrite length_map. }
  assert (Hflat : length (concat (Grid.meshgrid ps)) = P * G).
  { unfold Grid.meshgrid. rewrite <- flat_map_concat_map.
    rewrite (length_flat_map_const _ _ G).
    - now rewrite length_seq.
    - intros. now rewrite length_map. }
  assert (Hpts : forall p, In p pts -> length p = P).
  { intros p Hp. apply mesh_points_In in Hp.
    now apply Forall2_length in Hp. }
  split.
  - unfold Grid.reshape_T. rewrite <- mesh_points_length.
    fold pts G. rewrite Hflat, Nat.eqb_refl. reflexivity.
  - unfold rows_of. cbn [shape data].
    rewrite <- (length_seq G 0) at 1.
    rewrite chunks_flat_map by (intros; now rewrite length_map, length_seq).
    transitivity (map (fun r => nth r pts []) (seq 0 G));
      [|apply nth_seq_map].
    apply map_ext_in. intros r Hr. apply in_seq in Hr.
    assert (Hp : length (nth r pts []) = P) by (apply Hpts, nth_In; lia).
    transitivity (map (fun i => nth i (nth r pts []) 0%Q) (seq 0 P));
      [|rewrite <- Hp; apply nth_seq_map].
    apply map_ext_in. intros i Hi. apply in_seq in Hi.
    rewrite (nth_concat_uniform _ G) by (assumption || lia).
    unfold Grid.meshgrid. fold pts P.
    rewrite (nth_indep _ [] (map (fun p => nth i p 0%Q) pts))
      by (rewrite length_map, length_seq; lia).
    rewrite (map_nth (fun i => map (fun p => nth i p 0%Q) pts)).
    rewrite seq_nth by lia. cbn [Nat.add].
    rewrite (nth_indep _ 0%Q (nth i [] 0%Q)) by (rewrite length_map; lia).
    now rewrite (map_nth (fun p => nth i p 0%Q)).
Qed.

Lemma grid_parspace_run (c : bool) (lo hi : list Q) (f : finesse_arg)
    (s : SubCube) :
  lo <> [] -> length lo = length hi -> valid_finesse (length lo) f ->
  exists g,
    _grid_parspace lo hi f c s = (Ok g, grid_log lo hi s) /\
    shape g = [grid_size (length lo) f; length lo] /\
    rows_of g
    = Grid.mesh_points (par_space_of c lo hi (finesse_vec (length lo) f)) /\
    length (data g) = grid_size (length lo) f * length lo.
Proof.
  intros Hne Hlen Hf.
  pose proof (broadcast_ones_valid _ _ Hf) as Hb.
  destruct Hf as [Hfl Hpos].
  set (fs := finesse_vec (length lo) f) in *.
  pose proof (par_space_runs c lo hi fs Hpos) as Hps.
  pose proof (par_space_lengths c lo hi fs Hfl Hlen) as Hl.
  pose proof (par_space_length c lo hi fs Hfl Hlen) as Hn.
  set (ps := par_space_of c lo hi fs) in *.
  destruct (reshape_T_meshgrid ps) as [Hr Hrows].
  rewrite Hn in Hr.
  assert (HG : length (Grid.mesh_points ps) = grid_size (length lo) f).
  { rewrite mesh_points_length, Hl. reflexivity. }
  assert (Hps0 : ps <> []).
  { intros E. rewrite E in Hn. destruct lo; [congruence|discriminate]. }
  match type of Hr with _ = Ok ?g => exists g end.
  split; [|split; [|split]].
  - unfold _grid_parspace, bind, lift, log_msg, modify, ret, grid_log.
    unfold slice_of, edge in Hps.
    clearbody ps. clear Hrows.
    destruct (Grid.any2 Grid.Qgtb lo hi); rewrite Hb; cbn beta iota;
      rewrite Hps; (destruct ps; [congruence|]);
      rewrite Hr; reflexivity.
  - cbn [shape]. now rewrite HG.
  - rewrite <- Hn. exact Hrows.
  - cbn [data]. rewrite (length_flat_map_const _ _ (length lo)).
    + now rewrite length_seq, HG.
    + intros. now rewrite length_map, length_seq.
Qed.

Lemma Forall2_nth_rel {A B} (R : A -> B -> Prop) (p : list A) (ls : list B)
    (i : nat) (da : A) (db : B) :
  Forall2 R p ls -> i < length ls -> R (nth i p da) (nth i ls db).
Proof.
  intros H. revert i. induction H as [|a b p ls Hab _ IH]; intros i Hi.
  - cbn in Hi. lia.
  - destruct i; [exact Hab|]. apply IH. cbn in Hi. lia.
Qed.



(** * Expanding the guess grid *)

Lemma chunks_app {A} (n k1 k2 : nat) (a b : list A) :
  length a = k1 * n ->
  chunks n (k1 + k2) (a ++ b) = chunks n k1 a ++ chunks n k2 b.
Proof.
  revert a. induction k1 as [|k1 IH]; intros a Ha.
  - destruct a; [reflexivity|discriminate].
  - cbn [Nat.add chunks app]. cbn [Nat.mul] in Ha.
    rewrite <- (firstn_skipn n a) at 1 2. rewrite <- app_assoc.
    assert (Hn : length (firstn n a) = n) by (rewrite length_firstn; lia).
    rewrite firstn_app_exact, skipn_app_exact by assumption.
    rewrite IH by (rewrite length_skipn; lia). reflexivity.
Qed.

Lemma vmin_length (a b : list Q) :
  length a = length b -> length (vmin a b) = length a.
Proof.
  intros H. unfold vmin. rewrite length_map, length_combine. lia.
Qed.

Lemma vmax_length (a b : list Q) :
  length a = length b -> length (vmax a b) = length a.
Proof.
  intros H. unfold vmax. rewrite length_map, length_combine. lia.
Qed.

Lemma comp_vmin (a b : list Q) (i : nat) :
  length a = length b -> i < length a ->
  comp (vmin a b) i = Qmin (comp a i) (comp b i).
Proof.
  intros H Hi. unfold comp, vmin.
  rewrite (nth_indep _ 0%Q (Qmin (fst (0%Q, 0%Q)) (snd (0%Q, 0%Q))))
    by (rewrite length_map, length_combine; lia).
  rewrite (map_nth (fun xy => Qmin (fst xy) (snd xy))).
  now rewrite combine_nth.
Qed.

Lemma comp_vmax (a b : list Q) (i : nat) :
  length a = length b -> i < length a ->
  comp (vmax a b) i = Qmax (comp a i) (comp b i).
Proof.
  intros H Hi. unfold comp, vmax.
  rewrite (nth_indep _ 0%Q (Qmax (fst (0%Q, 0%Q)) (snd (0%Q, 0%Q))))
    by (rewrite length_map, length_combine; lia).
  rewrite (map_nth (fun xy => Qmax (fst xy) (snd xy))).
  now rewrite combine_nth.
Qed.

(** One expansion, on an object that holds a grid of [P]-vectors and
    bounds of [P] parameters. *)
Lemma expand_step (s : SubCube) (old : ndarray Q) (args : fiteach)
    (g0 : nat) (lo hi : list Q) (f : finesse_arg) (c : bool) :
  guess_grid s = Some old ->
  shape old = [g0; length lo] ->
  length (data old) = g0 * length lo ->
  fiteach_args s = Some args ->
  length (minpars args) = length lo ->
  length (maxpars args) = length lo ->
  lo <> [] -> length lo = length hi -> valid_finesse (length lo) f ->
  exists new g s',
    _grid_parspace lo hi f c s = (Ok new, grid_log lo hi s) /\
    expand_guess_grid lo hi f c s = (Ok g, s') /\
    shape g = [g0 + grid_size (length lo) f; length lo] /\
    length (data g) = (g0 + grid_size (length lo) f) * length lo /\
    data g = data old ++ data new /\
    rows_of g = rows_of old ++ rows_of new /\
    guess_grid s' = Some g /\
    fiteach_args s'
    = Some (mk_fiteach (fixed args) (limitedmin args) (limitedmax args)
                       (vmin (minpars args) lo) (vmax (maxpars args) hi)).
Proof.
  intros Hg Hsh Hwf Ha Hmin Hmax Hne Hlen Hf.
  destruct (grid_parspace_run c lo hi f s Hne Hlen Hf)
    as (new & Hrun & Hnsh & Hrows & Hdata).
  exists new. 
  unfold expand_guess_grid, bind, asarray_pair, get_self, attr, vstack_min,
    vstack_max, modify, ret, raise.
  apply Nat.eqb_eq in Hlen as Hlenb. rewrite Hlenb. cbn beta iota.
  rewrite Hrun. cbn beta iota.
  assert (E1 : fiteach_args (grid_log lo hi s) = Some args)
    by (unfold grid_log; now destruct (Grid.any2 _ _ _)).
  assert (E2 : guess_grid (grid_log lo hi s) = Some old)
    by (unfold grid_log; now destruct (Grid.any2 _ _ _)).
  rewrite E1, E2. cbn beta iota.
  apply Nat.eqb_eq in Hmin as Hminb. rewrite Hminb. cbn beta iota.
  assert (Hmaxb : (length (maxpars args) =? length hi) = true)
    by (apply Nat.eqb_eq; lia).
  rewrite Hmaxb. cbn beta iota.
  unfold append_axis0, ret. rewrite Hsh, Hnsh.
  destruct (list_eq_dec Nat.eq_dec [length lo] [length lo]); [|congruence].
  do 2 eexists. split; [reflexivity|]. split; [reflexivity|].
  cbn [shape data]. split; [reflexivity|].
  split; [rewrite length_app, Hwf, Hdata; lia|].
  split; [reflexivity|]. split; [|split; reflexivity].
  unfold rows_of. cbn [shape data]. rewrite Hsh, Hnsh.
  now apply chunks_app.
Qed.

Lemma expanded_from_step (s : SubCube) (old : ndarray Q) (args : fiteach)
    (g0 : nat) (lo hi : list Q) (f : finesse_arg) (c : bool) :
  guess_grid s = Some old ->
  shape old = [g0; length lo] ->
  length (data old) = g0 * length lo ->
  fiteach_args s = Some args ->
  length (minpars args) = length lo ->
  length (maxpars args) = length lo ->
  lo <> [] -> length lo = length hi -> valid_finesse (length lo) f ->
  exists new g s' args',
    expanded_from s old args lo hi f c new g s' args' /\
    shape g = [g0 + grid_size (length lo) f; length lo] /\
    length (data g) = (g0 + grid_size (length lo) f) * length lo /\
    minpars args' = vmin (minpars args) lo /\
    maxpars args' = vmax (maxpars args) hi.
Proof.
  intros Hg Hsh Hwf Ha Hmin Hmax Hne Hlen Hf.
  destruct (expand_step s old args g0 lo hi f c) as
    (new & g & s' & Hrun & Hex & Hgsh & Hgwf & _ & Hrows & Hgg & Hargs);
    try assumption.
  exists new, g, s',
    (mk_fiteach (fixed args) (limitedmin args) (limitedmax args)
                (vmin (minpars args) lo) (vmax (maxpars args) hi)).
  split; [|split; [|split; [|split]]];
    [|exact Hgsh|exact Hgwf|reflexivity|reflexivity].
  unfold expanded_from. rewrite Hrun.
  repeat (split; [first [reflexivity | assumption]|]).
  intros i Hi. cbn [minpars maxpars].
  rewrite comp_vmin, comp_vmax by lia.
  repeat split; [apply Q.le_min_l|apply Q.le_max_l].
Qed.

(** C2: on an object that holds a guess grid of [P]-vectors and recorded
    bounds, [expand_guess_grid] with new bounds of [P >= 1] parameters and
    a positive finesse returns and stores the old grid entries, in their
    order, followed by those of the new sub-grid, and records the
    element-wise minimum of the old and new [minpars] and maximum of the
    old and new [maxpars], so the recorded bounds never narrow; expanding
    with ranges R1 and then R2 leaves the element-wise minimum and
    maximum across the original bounds, R1 and R2. *)
Theorem expand_appends_and_widens (s : SubCube) (old : ndarray Q)
    (args : fiteach) (g0 : nat)
    (lo1 hi1 : list Q) (f1 : finesse_arg) (c1 : bool)
    (lo2 hi2 : list Q) (f2 : finesse_arg) (c2 : bool) :
  guess_grid s = Some old ->
  shape old = [g0; length lo1] ->
  length (data old) = g0 * length lo1 ->
  fiteach_args s = Some args ->
  length (minpars args) = length lo1 ->
  length (maxpars args) = length lo1 ->
  lo1 <> [] -> length lo1 = length hi1 -> valid_finesse (length lo1) f1 ->
  length lo2 = length lo1 -> length lo2 = length hi2 ->
  valid_finesse (length lo2) f2 ->
  expanded_twice s old args lo1 hi1 f1 c1 lo2 hi2 f2 c2.
Proof.
  intros Hg Hsh Hwf Ha Hmin Hmax Hne Hlen1 Hf1 Hlen Hlen2 Hf2.
  destruct (expanded_from_step s old args g0 lo1 hi1 f1 c1)
    as (new1 & g1 & s1 & a1 & H1 & Hsh1 & Hwf1 & Emin1 & Emax1);
    try assumption.
  pose proof H1 as (_ & _ & Hg1 & Hrows1 & Ha1 & Hb1).
  assert (Hne2 : lo2 <> []) by (destruct lo2, lo1; cbn in *; congruence).
  destruct (expanded_from_step s1 g1 a1 (g0 + grid_size (length lo1) f1)
              lo2 hi2 f2 c2)
    as (new2 & g2 & s2 & a2 & H2 & _ & _ & Emin2 & Emax2);
    try assumption; try (rewrite Hlen; assumption).
  { rewrite Emin1, vmin_length; lia. }
  { rewrite Emax1, vmax_length; lia. }
  pose proof H2 as (_ & _ & _ & Hrows2 & _ & Hb2).
  exists new1, g1, s1, a1, new2, g2, s2, a2.
  split; [exact H1|]. split; [exact H2|]. split.
  - now rewrite Hrows2, Hrows1, app_assoc.
  - intros i Hi.
    destruct (Hb1 i Hi) as (E1 & E2 & _).
    destruct (Hb2 i ltac:(lia)) as (E3 & E4 & _).
    now rewrite E3, E4, E1, E2.
Qed.

(** * Runs of methods *)

Lemma bind_ok {A B} (m : M A) (k : A -> M B) (s s' : SubCube) (b : B) :
  bind m k s = (Ok b, s') ->
  exists a s1, m s = (Ok a, s1) /\ k a s1 = (Ok b, s').
Proof.
  unfold bind. destruct (m s) as [[a|e] s1]; [eauto|discriminate].
Qed.

Lemma bind_run {A B} (m : M A) (k : A -> M B) (s s1 : SubCube) (a : A) :
  m s = (Ok a, s1) -> bind m k s = k a s1.
Proof. unfold bind. now intros ->. Qed.

Section Raises.
Context (P : exn -> Prop).

Lemma raises_bind {A B} (m : M A) (k : A -> M B) :
  raises_only P m -> (forall a, raises_only P (k a)) ->
  raises_only P (bind m k).
Proof.
  intros Hm Hk s e s'. unfold bind.
  destruct (m s) as [[a|e1] s1] eqn:E.
  - apply Hk.
  - intros [= <- <-]. eapply Hm, E.
Qed.

Lemma raises_ret {A} (a : A) : raises_only P (ret a).
Proof. intros s e s'. discriminate. Qed.

Lemma raises_modify (f : SubCube -> SubCube) : raises_only P (modify f).
Proof. intros s e s'. discriminate. Qed.

Lemma raises_log (l : level) (msg : string) : raises_only P (log_msg l msg).
Proof. apply raises_modify. Qed.

Lemma raises_get : raises_only P get_self.
Proof. intros s e s'. discriminate. Qed.

Lemma raises_raise {A} (e : exn) : P e -> raises_only P (@raise A e).
Proof. intros H s e' s'. now intros [= <- <-]. Qed.

Lemma raises_lift {A} (r : res A) : fails_only P r -> raises_only P (lift r).
Proof. intros H s e s'. unfold lift. intros [= E <-]. now apply H. Qed.

Lemma raises_attr {A} (o : option A) :
  P AttributeError -> raises_only P (attr o).
Proof. intros H. destruct o; [apply raises_ret|now apply raises_raise]. Qed.

Lemma raises_local {A} (o : option A) :
  P UnboundLocalError -> raises_only P (local o).
Proof. intros H. destruct o; [apply raises_ret|now apply raises_raise]. Qed.

Lemma raises_try {A} (body handler : M A) (e : exn) :
  raises_only P body -> raises_only P handler ->
  raises_only P (try_except body e handler).
Proof.
  intros Hb Hh s e1 s'. unfold try_except.
  destruct (body s) as [[a|e2] s1] eqn:E; [discriminate|].
  destruct (exn_eqb e e2).
  - apply Hh.
  - intros [= <- <-]. eapply Hb, E.
Qed.

Lemma fails_mapM {A B} (f : A -> res B) (l : list A) :
  (forall x, fails_only P (f x)) -> fails_only P (Grid.mapM_res f l).
Proof.
  intros Hf. induction l as [|x l IH]; intros e; cbn; [discriminate|].
  destruct (f x) as [y|e1] eqn:E.
  - destruct (Grid.mapM_res f l); [discriminate|].
    intros [= <-]. now apply IH.
  - intros [= <-]. eapply Hf, E.
Qed.

End Raises.

(** * Which exceptions the stages raise *)

Lemma fails_weaken {A} (P Q : exn -> Prop) (r : res A) :
  fails_only P r -> (forall e, P e -> Q e) -> fails_only Q r.
Proof. intros H HPQ e E. apply HPQ, H, E. Qed.

Ltac break_match_in H :=
  match type of H with
  | context [match ?x with _ => _ end] => destruct x eqn:?
  | context [if ?x then _ else _] => destruct x eqn:?
  end.

Ltac array_errors_of H :=
  first
    [ discriminate H
    | injection H as <-; unfold array_error; tauto
    | break_match_in H; array_errors_of H
    | injection H as H; subst;
      match goal with
      | H2 : _ = Raise _ |- _ => array_errors_of H2
      end ].

Ltac pure_errors :=
  unfold fails_only;
  let e := fresh "e" in let H := fresh "H" in
  intros e H; array_errors_of H.

Lemma mask_assign_errors r m : fails_only array_error (Pick.mask_assign r m).
Proof. unfold Pick.mask_assign. pure_errors. Qed.

Lemma argmin_axis0_errors r a b :
  fails_only array_error (Pick.argmin_axis0 r a b).
Proof. unfold Pick.argmin_axis0. pure_errors. Qed.

Lemma min_axis0_errors r a b : fails_only array_error (Pick.min_axis0 r a b).
Proof. unfold Pick.min_axis0. pure_errors. Qed.

Lemma block_errors g i : fails_only array_error (Pick.block g i).
Proof. unfold Pick.block. pure_errors. Qed.

Lemma lookup_guesses_errors g bm :
  fails_only array_error (Pick.lookup_guesses g bm).
Proof.
  unfold Pick.lookup_guesses. intros e.
  destruct (Grid.mapM_res (Pick.block g) (cells bm)) eqn:E.
  - destruct (shape g); [|discriminate]. intros [= <-]. now left.
  - intros [= <-]. eapply (fails_mapM array_error), E. apply block_errors.
Qed.

Lemma mode_00_errors bm : fails_only array_error (Pick.mode_00 bm).
Proof. unfold Pick.mode_00. pure_errors. Qed.

Lemma at_snr_index_errors bm snr i :
  fails_only array_error (Pick.at_snr_index bm snr i).
Proof. unfold Pick.at_snr_index. pure_errors. Qed.

Lemma nested_pixel_errors c mg mask pb p :
  fails_only array_error (Sel.nested_pixel c mg mask pb p).
Proof. unfold Sel.nested_pixel, Sel.mask_at. pure_errors. Qed.

Create HintDb array_errors.
#[local] Hint Resolve mask_assign_errors argmin_axis0_errors min_axis0_errors
  block_errors lookup_guesses_errors mode_00_errors at_snr_index_errors
  nested_pixel_errors : array_errors.

(** A computation written with the combinators above raises no [x] when
    it neither raises [x] itself nor, for [x] outside the array errors,
    through an array operation. *)
Ltac never_raises :=
  repeat
    match goal with
    | |- forall _, raises_only _ _ => intro
    | |- raises_only _ (bind _ _) => apply raises_bind
    | |- raises_only _ (ret _) => apply raises_ret
    | |- raises_only _ (modify _) => apply raises_modify
    | |- raises_only _ (log_msg _ _) => apply raises_log
    | |- raises_only _ get_self => apply raises_get
    | |- raises_only _ (raise _) =>
        apply raises_raise; unfold not_exn; discriminate
    | |- raises_only _ (attr _) =>
        apply raises_attr; unfold not_exn; discriminate
    | |- raises_only _ (local _) =>
        apply raises_local; unfold not_exn; discriminate
    | |- raises_only _ (try_except _ _ _) => apply raises_try
    | |- raises_only _ (lift _) =>
        apply raises_lift;
        eapply fails_weaken;
        [ solve [auto with array_errors
                | apply fails_mapM; auto with array_errors]
        | unfold array_error, not_exn; intros ? [->|[->| ->]]; discriminate ]
    | |- raises_only _ (match ?x with _ => _ end) => destruct x
    | |- raises_only _ (if ?x then _ else _) => destruct x
    end.



(** * The shape of a run of [best_guess] *)

Lemma resolve_state mgo ff s :
  snd (resolve_model_grid mgo ff s) = s.
Proof.
  unfold resolve_model_grid, bind, get_self, ret, raise.
  destruct mgo, ff, (model_grid s); reflexivity.
Qed.

Lemma best_guess_accepted e mgo sn ml ff pb s mg :
  fst (resolve_model_grid mgo ff s) = Ok mg ->
  accepted s mg ->
  best_guess e mgo sn ml ff pb s
  = bind (residual_stage e mg sn pb (memory_bytes e ml))
         (fun l => selection_stage l sn) (at_residuals e s).
Proof.
  intros Hr (Hne & Hlast & Hrank).
  pose proof (resolve_state mgo ff s) as Hs.
  unfold best_guess, bind at 1, get_self. unfold bind at 1.
  destruct (resolve_model_grid mgo ff s) as [r s1]. cbn in Hr, Hs. subst.
  destruct (shape (arr mg)) as [|d sh] eqn:Esh; [congruence|].
  rewrite Hlast, Nat.eqb_refl. cbn [negb].
  destruct (Nat.ltb_spec 2 (length (d :: sh))); [lia|].
  unfold available_memory, at_residuals, bind, log_msg, modify, ret.
  destruct (psutil_available e), (free_g e); reflexivity.
Qed.

Lemma best_guess_refused e mgo sn ml ff pb s :
  (forall mg, fst (resolve_model_grid mgo ff s) = Ok mg -> ~ accepted s mg) ->
  exists x,
    best_guess e mgo sn ml ff pb s = (Raise x, s) /\
    In x [TypeError; IndexError; ValueError; NotImplementedError].
Proof.
  intros H. pose proof (resolve_state mgo ff s) as Hs.
  unfold best_guess, bind at 1, get_self. unfold bind at 1.
  destruct (resolve_model_grid mgo ff s) as [[mg|x] s1] eqn:E;
    cbn in Hs; subst.
  - specialize (H mg eq_refl). unfold accepted in H.
    destruct (shape (arr mg)) as [|d sh] eqn:Esh.
    { exists IndexError. split; [reflexivity|cbn; tauto]. }
    destruct (Nat.eqb_spec (last (d :: sh) 0) (nchan (cube s)));
      cbn [negb];
      [|exists ValueError; split; [reflexivity|cbn; tauto]].
    destruct (Nat.ltb_spec 2 (length (d :: sh)));
      [exists NotImplementedError; split; [reflexivity|cbn; tauto]|].
    exfalso. apply H. split; [discriminate|split; [assumption|]].
    cbn [length] in *. lia.
  - exists TypeError. unfold resolve_model_grid, bind, get_self, ret, raise in E.
    destruct mgo, ff, (model_grid s); inversion E.
    split; [reflexivity|cbn; tauto].
Qed.

(** * Out of memory *)

Lemma nested_log mg sn pb s :
  log (snd (nested mg sn pb s)) = log s ++ [nested_warning].
Proof.
  unfold nested, bind, log_msg, modify, get_self, attr, lift, ret, raise.
  cbn beta iota.
  destruct sn as [cut|]; [destruct (truthy (Some cut))|]; cbn beta iota;
    try (destruct (snr_map _); cbn beta iota);
    try reflexivity;
    match goal with
    | |- context [Grid.mapM_res ?f ?l] => destruct (Grid.mapM_res f l)
    end; reflexivity.
Qed.

Lemma residual_stage_low e mg sn pb mem s :
  (mem < threshold s (arr mg))%Z ->
  residual_stage e mg sn pb mem s
  = match Sel.per_pixel e (cube s) mg with
    | (r, false) => (Ok (mk_locals r None), add_log low_memory_warning s)
    | (r, true) =>
        bind (nested (arr mg) sn pb)
             (fun maps => ret (mk_locals r (Some maps)))
             (add_log low_memory_warning s)
    end.
Proof.
  intros H. apply Z.ltb_lt in H.
  unfold residual_stage, bind at 1, get_self. rewrite H.
  unfold bind at 1, log_msg, modify.
  destruct (Sel.per_pixel e (cube s) mg) as [r [|]]; reflexivity.
Qed.

Lemma residual_stage_high e mg sn pb mem s :
  (threshold s (arr mg) <= mem)%Z ->
  residual_stage e mg sn pb mem s
  = match Sel.broadcast e (cube s) (arr mg) with
    | Ok r => (Ok (mk_locals (Some r) None), s)
    | Raise x => (Raise x, s)
    end.
Proof.
  intros H. apply Z.ltb_ge in H.
  unfold residual_stage, bind at 1, get_self. rewrite H.
  unfold bind, lift, ret. now destruct (Sel.broadcast _ _ _).
Qed.


Lemma threshold_at_residuals e s a :
  threshold (at_residuals e s) a = threshold s a.
Proof.
  unfold threshold, at_residuals.
  now destruct (psutil_available e), (free_g e).
Qed.

Lemma accepted_dec s mg : accepted s mg \/ ~ accepted s mg.
Proof.
  unfold accepted.
  destruct (shape (arr mg)) as [|d sh]; [right; intros (H & _); congruence|].
  destruct (Nat.eq_dec (last (d :: sh) 0) (nchan (cube s)));
    [|right; tauto].
  destruct (le_dec (length (d :: sh)) 2); [left|right; tauto].
  split; [discriminate|tauto].
Qed.


(** * Completed selection passes *)

Lemma get_self_ok s a s1 : get_self s = (Ok a, s1) -> a = s /\ s1 = s.
Proof. unfold get_self. now intros [= <- <-]. Qed.

Lemma modify_ok f s (u : unit) s1 : modify f s = (Ok u, s1) -> s1 = f s.
Proof. unfold modify. now intros [= <-]. Qed.

Lemma log_msg_ok l m s (u : unit) s1 :
  log_msg l m s = (Ok u, s1) -> s1 = add_log (l, m) s.
Proof. apply modify_ok. Qed.

Lemma lift_ok {A} (r : res A) s a s1 :
  lift r s = (Ok a, s1) -> r = Ok a /\ s1 = s.
Proof. unfold lift. now intros [= -> <-]. Qed.

Lemma ret_ok {A} (x : A) s a s1 : ret x s = (Ok a, s1) -> a = x /\ s1 = s.
Proof. unfold ret. now intros [= <- <-]. Qed.

Lemma attr_ok {A} (o : option A) s a s1 :
  attr o s = (Ok a, s1) -> o = Some a /\ s1 = s.
Proof. destruct o; cbn; [now intros [= <- <-]|discriminate]. Qed.

Lemma local_ok {A} (o : option A) s a s1 :
  local o s = (Ok a, s1) -> o = Some a /\ s1 = s.
Proof. destruct o; cbn; [now intros [= <- <-]|discriminate]. Qed.

Lemma selection_ok l sn s s' :
  selection_stage l sn s = (Ok tt, s') ->
  exists r bm rm g bgs m freq v last_event,
    masked_residuals l sn s = Ok r /\
    Pick.argmin_axis0 r (ny (cube s)) (nx (cube s)) = Ok bm /\
    Pick.min_axis0 r (ny (cube s)) (nx (cube s)) = Ok rm /\
    guess_grid s = Some g /\
    Pick.lookup_guesses g bm = Ok bgs /\
    Pick.mode_00 bm = Ok (m, freq) /\
    Pick.block g m = Ok v /\
    _best_map s' = Some bm /\ _best_rmsmap s' = Some rm /\
    best_guesses s' = Some bgs /\ _best_model s' = Some m /\
    best_guess_value s' = Some v /\
    log s' = log s
             ++ (if under_5_percent freq (cube s)
                 then [low_confidence_warning] else [])
             ++ [(LInfo, "Overall best model"%string); last_event] /\
    last_event <> low_confidence_warning.
Proof.
  unfold selection_stage. intros H.
  apply bind_ok in H as (a & s1 & H0 & H). apply get_self_ok in H0 as [-> ->].
  apply bind_ok in H as (r0 & s1 & Hr & H).
  apply bind_ok in H as (r & s2 & Hl & H). apply local_ok in Hl as [-> ->].
  assert (Hm : masked_residuals l sn s = Ok r /\ s1 = s).
  { unfold masked_residuals.
    destruct sn as [cut|]; [destruct (truthy (Some cut))|].
    - apply bind_ok in Hr as (snr & s3 & Ha & Hr).
      apply attr_ok in Ha as [-> ->].
      apply bind_ok in Hr as (r1 & s3 & Ha & Hr).
      apply local_ok in Ha as [-> ->].
      apply bind_ok in Hr as (r2 & s3 & Ha & Hr).
      apply lift_ok in Ha as [-> ->]. apply ret_ok in Hr as [[= ->] ->].
      now split.
    - apply ret_ok in Hr as [<- ->]. now split.
    - apply ret_ok in Hr as [<- ->]. now split. }
  destruct Hm as [Hm ->]. clear Hr.
  apply bind_ok in H as (bm & s1 & Hb & H). apply lift_ok in Hb as [Hb ->].
  apply bind_ok in H as (rm & s1 & Hrm & H). apply lift_ok in Hrm as [Hrm ->].
  apply bind_ok in H as (u1 & s1 & E1 & H). apply modify_ok in E1 as ->.
  apply bind_ok in H as (u2 & s1 & E2 & H). apply modify_ok in E2 as ->.
  apply bind_ok in H as (g & s1 & Hg & H).
  destruct (guess_grid s) as [g'|] eqn:Eg; [|discriminate].
  apply ret_ok in Hg as [-> ->].
  apply bind_ok in H as (bgs & s1 & Hbg & H). apply lift_ok in Hbg as [Hbg ->].
  apply bind_ok in H as (u3 & s1 & E3 & H). apply modify_ok in E3 as ->.
  apply bind_ok in H as ([m freq] & s1 & Hmode & H).
  apply lift_ok in Hmode as [Hmode ->].
  apply bind_ok in H as (u4 & s1 & Hw & H).
  apply bind_ok in H as (u5 & s2 & E5 & H). apply modify_ok in E5 as ->.
  apply bind_ok in H as (v & s2 & Hv & H). apply lift_ok in Hv as [Hv ->].
  apply bind_ok in H as (u6 & s2 & E6 & H). apply modify_ok in E6 as ->.
  apply bind_ok in H as (u7 & s2 & E7 & H). apply log_msg_ok in E7 as ->.
  fold (under_5_percent freq (cube s)) in Hw.
  assert (Hs1 : s1 = (if under_5_percent freq (cube s)
                      then add_log low_confidence_warning else fun x => x)
                       (set_best_guesses bgs
                          (set_best_rmsmap rm (set_best_map bm s)))).
  { destruct (under_5_percent freq (cube s)).
    - now apply log_msg_ok in Hw.
    - now apply ret_ok in Hw as [_ ->]. }
  clear Hw.
  assert (Ht : exists last_event,
             last_event <> low_confidence_warning /\
             _best_map s' = Some bm /\ _best_rmsmap s' = Some rm /\
             best_guesses s' = Some bgs /\ _best_model s' = Some m /\
             best_guess_value s' = Some v /\
             log s' = log s1 ++ [(LInfo, "Overall best model"%string);
                                 last_event]).
  { unfold try_except in H.
    match type of H with
    | context [bind ?a ?k ?st] => destruct (bind a k st) as [[u|x] s3] eqn:Eb
    end.
    - assert (s3 = s') by congruence. subst s3. clear H.
      apply bind_ok in Eb as (snr & s4 & Ha & Eb).
      apply attr_ok in Ha as [Ha ->].
      apply bind_ok in Eb as (i & s4 & Hi & Eb).
      destruct (F.argmax (cells snr)); [|discriminate].
      apply ret_ok in Hi as [-> ->].
      apply bind_ok in Eb as (j & s4 & Hj & Eb). apply lift_ok in Hj as [Hj ->].
      apply bind_ok in Eb as (w & s4 & Hw & Eb). apply lift_ok in Hw as [Hw ->].
      apply bind_ok in Eb as (u8 & s4 & E8 & Eb). apply modify_ok in E8 as ->.
      apply log_msg_ok in Eb as ->.
      eexists. split; [|subst s1; destruct (under_5_percent _ _); cbn;
                        rewrite <- ?app_assoc; repeat split; reflexivity].
      discriminate.
    - destruct x; try discriminate. cbn [exn_eqb] in H.
      apply log_msg_ok in H as ->.
      assert (E3 : s3 = add_log (LInfo, "Overall best model"%string)
                          (set_best_guess_value v (set_best_model m s1))).
      { destruct (snr_map s) as [snr|]; [|now injection Eb as <-].
        exfalso. revert Eb. unfold attr. rewrite (bind_run _ _ _ _ snr eq_refl).
        intros Eb.
        assert (R : raises_only (not_exn AttributeError)
                      (best_snr <-
                         match F.argmax (cells snr) with
                         | Some i => ret i
                         | None => raise ValueError
                         end ;;
                       i <- lift (Pick.at_snr_index bm snr best_snr) ;;
                       v0 <- lift (Pick.block g' i) ;;
                       modify (set_best_snr_guess v0) ;;
                       log_msg LInfo "Best model @ highest SNR"))
          by never_raises.
        now apply R in Eb. }
      subst s3. eexists.
      split; [|subst s1; destruct (under_5_percent _ _); cbn;
               rewrite <- ?app_assoc; repeat split; reflexivity].
      discriminate. }
  destruct Ht as (last_event & Hne & Hbm' & Hrm' & Hbgs' & Hm' & Hv' & Hlog).
  exists r, bm, rm, g', bgs, m, freq, v, last_event.
  split; [exact Hm|]. split; [exact Hb|]. split; [exact Hrm|].
  split; [reflexivity|]. split; [exact Hbg|]. split; [exact Hmode|].
  split; [exact Hv|]. repeat (split; [assumption|]). split; [|exact Hne].
  rewrite Hlog, Hs1. destruct (under_5_percent freq (cube s)); cbn;
    now rewrite <- ?app_assoc.
Qed.

(** * [argmin] and the mode *)

Lemma argmin_from_bound (l : list fval) (i : nat) (b : nat * fval) :
  fst b < i -> F.argmin_from l i b < i + length l.
Proof.
  revert i b. induction l as [|x l IH]; intros i b Hb; cbn [F.argmin_from length].
  - lia.
  - destruct (F.isnan (snd b)); [lia|].
    destruct (F.isnan x || F.ltb x (snd b)).
    + specialize (IH (S i) (i, x)). cbn [fst] in IH. lia.
    + specialize (IH (S i) b). lia.
Qed.

Lemma argmin_lt (l : list fval) (i : nat) :
  F.argmin l = Some i -> i < length l.
Proof.
  destruct l as [|x l]; [discriminate|]. cbn [F.argmin length].
  intros [= <-]. pose proof (argmin_from_bound l 1 (0, x)). cbn [fst] in H. lia.
Qed.

Lemma column_length r np_ p :
  length (Pick.column r np_ p) = hd 0 (shape r).
Proof. unfold Pick.column. now rewrite length_map, length_seq. Qed.

Lemma argmin_axis0_cells r a b bm :
  Pick.argmin_axis0 r a b = Ok bm ->
  rows bm = a /\ cols bm = b /\ length (cells bm) = a * b /\
  Forall (fun v => v < hd 0 (shape r)) (cells bm).
Proof.
  unfold Pick.argmin_axis0.
  destruct (Nat.eqb_spec (hd 0 (shape r)) 0) as [|Hg]; [discriminate|].
  intros [= <-]. cbn [rows cols cells].
  repeat split; [now rewrite length_map, length_seq|].
  apply Forall_forall. intros v Hv. apply in_map_iff in Hv as (p & <- & _).
  destruct (F.argmin (Pick.column r (a * b) p)) as [i|] eqn:E; [|lia].
  apply argmin_lt in E. now rewrite column_length in E.
Qed.














Lemma new_log_app s s' evs : log s' = log s ++ evs -> new_log s s' = evs.
Proof.
  intros E. unfold new_log. rewrite E. now apply skipn_app_exact.
Qed.

(** * The overall best guess *)

Lemma nested_frame mg sn pb s :
  let s1 := snd (nested mg sn pb s) in
  cube s1 = cube s /\ guess_grid s1 = guess_grid s /\ snr_map s1 = snr_map s.
Proof.
  cbv zeta.
  unfold nested, bind, log_msg, modify, get_self, attr, lift, ret, raise.
  cbn beta iota.
  destruct sn as [cut|]; [destruct (truthy (Some cut))|]; cbn beta iota;
    try (match goal with
         | |- context [match snr_map ?x with _ => _ end] =>
             destruct (snr_map x)
         end; cbn beta iota);
    try (repeat split; reflexivity);
    match goal with
    | |- context [Grid.mapM_res ?f ?l] => destruct (Grid.mapM_res f l)
    end; repeat split; reflexivity.
Qed.

Lemma residual_stage_frame e mg sn pb mem s :
  let s1 := snd (residual_stage e mg sn pb mem s) in
  cube s1 = cube s /\ guess_grid s1 = guess_grid s /\
  snr_map s1 = snr_map s /\
  exists pre, log s1 = log s ++ pre /\ ~ In low_confidence_warning pre.
Proof.
  cbv zeta. destruct (Z.ltb_spec mem (threshold s (arr mg))) as [H|H].
  - rewrite residual_stage_low by assumption.
    destruct (Sel.per_pixel e (cube s) mg) as [r [|]].
    + pose proof (nested_frame (arr mg) sn pb (add_log low_memory_warning s))
        as (H1 & H2 & H3).
      pose proof (nested_log (arr mg) sn pb (add_log low_memory_warning s)) as L.
      unfold bind.
      destruct (nested (arr mg) sn pb (add_log low_memory_warning s))
        as [[maps|x] s1]; cbn [snd ret] in *; rewrite H1, H2, H3, L;
        (repeat split; try reflexivity);
        exists [low_memory_warning; nested_warning];
        (split; [cbn; now rewrite <- app_assoc
                |cbn; intros [E|[E|[]]]; discriminate]).
    + cbn [snd]. repeat split; try reflexivity.
      exists [low_memory_warning]. split; [reflexivity|].
      cbn. intros [E|[]]. discriminate.
  - rewrite residual_stage_high by assumption.
    destruct (Sel.broadcast _ _ _); cbn [snd]; repeat split; try reflexivity;
      exists []; (split; [now rewrite app_nil_r|intros []]).
Qed.

Lemma at_residuals_frame e s :
  cube (at_residuals e s) = cube s /\
  guess_grid (at_residuals e s) = guess_grid s /\
  snr_map (at_residuals e s) = snr_map s /\
  exists pre, log (at_residuals e s) = log s ++ pre /\
              ~ In low_confidence_warning pre.
Proof.
  unfold at_residuals.
  destruct (psutil_available e), (free_g e); repeat split; try reflexivity;
    (eexists; split; [cbn; rewrite <- ?app_assoc; reflexivity|]);
    cbn; intuition discriminate.
Qed.

(** A completed run of [best_guess] is a completed selection pass on the
    residuals of an accepted grid. *)
Lemma best_guess_ok e mgo sn ml ff pb s s' :
  best_guess e mgo sn ml ff pb s = (Ok tt, s') ->
  exists mg l s1 pre,
    fst (resolve_model_grid mgo ff s) = Ok mg /\ accepted s mg /\
    residual_stage e mg sn pb (memory_bytes e ml) (at_residuals e s)
    = (Ok l, s1) /\
    selection_stage l sn s1 = (Ok tt, s') /\
    cube s1 = cube s /\ guess_grid s1 = guess_grid s /\
    snr_map s1 = snr_map s /\
    log s1 = log s ++ pre /\ ~ In low_confidence_warning pre.
Proof.
  intros H.
  destruct (fst (resolve_model_grid mgo ff s)) as [mg|x] eqn:Er.
  - destruct (accepted_dec s mg) as [Ha|Hn].
    + rewrite (best_guess_accepted _ _ _ _ _ _ _ mg) in H by assumption.
      apply bind_ok in H as (l & s1 & Hres & Hsel).
      pose proof (residual_stage_frame e mg sn pb (memory_bytes e ml)
                    (at_residuals e s)) as F.
      rewrite Hres in F. cbn [snd] in F.
      destruct F as (F1 & F2 & F3 & pre1 & F4 & F5).
      destruct (at_residuals_frame e s) as (G1 & G2 & G3 & pre0 & G4 & G5).
      exists mg, l, s1, (pre0 ++ pre1).
      repeat (split; [first [assumption|congruence]|]).
      split; [now rewrite F4, G4, app_assoc|].
      intros Hin. apply in_app_or in Hin. tauto.
    + destruct (best_guess_refused e mgo sn ml ff pb s) as (y & Ey & _).
      { intros mg' Hr'. rewrite Er in Hr'. now injection Hr' as <-. }
      congruence.
  - destruct (best_guess_refused e mgo sn ml ff pb s) as (y & Ey & _).
    { intros mg' Hr'. rewrite Er in Hr'. discriminate. }
    congruence.
Qed.


(** * A cutoff of zero *)







Lemma mapM_res_Forall2 {A B} (f : A -> res B) (l : list A) (ys : list B) :
  Grid.mapM_res f l = Ok ys -> Forall2 (fun x y => f x = Ok y) l ys.
Proof.
  revert ys. induction l as [|x l IH]; intros ys; cbn.
  - intros [= <-]. constructor.
  - destruct (f x) as [y|] eqn:E; [|discriminate].
    destruct (Grid.mapM_res f l) as [ys'|]; [|discriminate].
    intros [= <-]. constructor; auto.
Qed.







(** * Shapes of guess grids *)

Lemma shape_eqb_refl a : shape_eqb a a = true.
Proof. unfold shape_eqb. now destruct (list_eq_dec Nat.eq_dec a a). Qed.

Lemma shape_eqb_neq a b : a <> b -> shape_eqb a b = false.
Proof. intros H. unfold shape_eqb. now destruct (list_eq_dec Nat.eq_dec a b). Qed.

Lemma atleast_2d_shape_snoc (gs : list nat) (k : nat) :
  gs <> [] -> atleast_2d_shape (gs ++ [k]) = gs ++ [k].
Proof. destruct gs as [|a [|b gs]]; [congruence|reflexivity|reflexivity]. Qed.

Lemma last_snoc (gs : list nat) (k : nat) : last (gs ++ [k]) 0 = k.
Proof. apply last_last. Qed.

(** The safeguard on a grid of shape [gs ++ [k]], [gs] not empty. *)
Lemma bad_shape_snoc (s : SubCube) (gs : list nat) (k : nat) :
  bad_shape s (gs ++ [k])
  = if (1 <? length gs)
       && negb (shape_eqb (last2 gs) [ny (cube s); nx (cube s)])
    then Ok true
    else if 3 <? length gs then Ok true
    else match npars s with
         | 0 => Raise ZeroDivisionError
         | _ => Ok (negb (k mod npars s =? 0))
         end.
Proof. unfold bad_shape. now rewrite removelast_last, last_snoc. Qed.

Section SynthesizerFacts.

Variable get_full_model : list Q -> list Q.

Lemma generate_model_not_unsupported go tf rd s :
  fst (generate_model get_full_model go tf rd s) <> Raise NotImplementedError.
Proof.
  assert (R : raises_only (not_exn NotImplementedError)
                (generate_model get_full_model go tf rd)).
  { unfold generate_model.
    repeat
      match goal with
      | |- forall _, raises_only _ _ => intro
      | |- raises_only _ (bind _ _) => apply raises_bind
      | |- raises_only _ (ret _) => apply raises_ret
      | |- raises_only _ (modify _) => apply raises_modify
      | |- raises_only _ (log_msg _ _) => apply raises_log
      | |- raises_only _ get_self => apply raises_get
      | |- raises_only _ (raise _) =>
          apply raises_raise; unfold not_exn; discriminate
      | |- raises_only _ (match ?x with _ => _ end) => destruct x
      | |- raises_only _ (if ?x then _ else _) => destruct x
      end.
    - apply raises_lift. unfold bad_shape. intros x Hx.
      unfold not_exn. intros ->.
      repeat (break_match_in Hx; try discriminate).
    - apply raises_lift. apply fails_mapM. intros pars x Hx.
      unfold not_exn. intros ->. unfold assign_row in Hx.
      repeat (break_match_in Hx; try discriminate). }
  intros E. destruct (generate_model get_full_model go tf rd s) as [r s'] eqn:Eg.
  cbn in E. subst r. now apply R in Eg.
Qed.

Lemma generate_model_refuses (s : SubCube) (g : ndarray Q) (gs : list nat)
    (k : nat) :
  shape g = gs ++ [k] ->
  (1 < length gs /\ last2 gs <> [ny (cube s); nx (cube s)]) \/
  3 < length gs \/
  (npars s <> 0 /\ k mod npars s <> 0) ->
  generate_model get_full_model (Some g) None true s = (Raise ValueError, s).
Proof.
  intros Hsh Hbad. unfold generate_model, bind, get_self, ret, lift.
  cbn beta iota. rewrite Hsh.
  destruct gs as [|d gs].
  - (* a vector of parameters, seen as a grid of one row *)
    cbn [app atleast_2d_shape]. change [1; k] with ([1] ++ [k]).
    rewrite bad_shape_snoc. cbn [length last2].
    destruct Hbad as [[H _]|[H|[Hn Hk]]]; try (cbn in H; lia).
    cbn. destruct (npars s); [congruence|].
    apply Nat.eqb_neq in Hk. now rewrite Hk.
  - rewrite atleast_2d_shape_snoc by discriminate. rewrite bad_shape_snoc.
    destruct Hbad as [[H1 H2]|[H|[Hn Hk]]].
    + apply Nat.ltb_lt in H1. rewrite H1, shape_eqb_neq by assumption.
      reflexivity.
    + apply Nat.ltb_lt in H. rewrite H.
      now destruct (_ && _).
    + destruct (_ && _); [reflexivity|]. destruct (3 <? _); [reflexivity|].
      destruct (npars s); [congruence|].
      apply Nat.eqb_neq in Hk. now rewrite Hk.
Qed.

Lemma generate_model_spatial (s : SubCube) (g : ndarray Q) (lead : list nat)
    (k : nat) :
  shape g = lead ++ [ny (cube s); nx (cube s); k] ->
  length lead <= 1 ->
  npars s <> 0 -> k mod npars s = 0 ->
  (forall pars, length (get_full_model pars) = nchan (cube s)) ->
  generate_model get_full_model (Some g) None true s
  = (Ok tt,
     set_model_grid
       (mk_array (lead ++ [ny (cube s); nx (cube s); nchan (cube s)])
          (concat (map get_full_model
                       (chunks k (prod_nat (lead ++ [ny (cube s); nx (cube s)]))
                               (data g)))))
       (add_log
          (LInfo, "Generating spectral models from the guess grid . . ."%string)
          s)).
Proof.
  intros Hsh Hlead Hn Hk Hlen.
  unfold generate_model, bind, get_self, ret, lift, log_msg, modify.
  cbn beta iota. rewrite Hsh.
  replace (lead ++ [ny (cube s); nx (cube s); k])
    with ((lead ++ [ny (cube s); nx (cube s)]) ++ [k])
    by (now rewrite <- app_assoc).
  rewrite atleast_2d_shape_snoc by (destruct lead; discriminate).
  rewrite bad_shape_snoc, removelast_last, last_snoc.
  assert (H2 : last2 (lead ++ [ny (cube s); nx (cube s)])
               = [ny (cube s); nx (cube s)]).
  { unfold last2. rewrite length_app. cbn [length].
    replace (length lead + 2 - 2) with (length lead + 0) by lia.
    now rewrite skipn_app, Nat.add_0_r, skipn_all, Nat.sub_diag. }
  rewrite H2, shape_eqb_refl, andb_false_r.
  assert (H3 : (3 <? length (lead ++ [ny (cube s); nx (cube s)])) = false).
  { apply Nat.ltb_ge. rewrite length_app. cbn. lia. }
  rewrite H3. destruct (npars s) as [|n] eqn:En; [congruence|].
  apply Nat.eqb_eq in Hk. rewrite Hk. cbn [negb].
  rewrite (mapM_res_ok _ get_full_model).
  - now rewrite <- app_assoc.
  - intros pars _. unfold assign_row. now rewrite Hlen, Nat.eqb_refl.
Qed.

End SynthesizerFacts.

Lemma best_guess_unsupported e mg sn ml ff pb s :
  2 < length (shape (arr mg)) ->
  last (shape (arr mg)) 0 = nchan (cube s) ->
  best_guess e (Some mg) sn ml ff pb s = (Raise NotImplementedError, s).
Proof.
  intros Hr Hl. unfold best_guess, resolve_model_grid, bind, get_self, ret.
  cbn beta iota.
  destruct (shape (arr mg)) as [|d sh]; [cbn in Hr; lia|].
  rewrite Hl, Nat.eqb_refl. apply Nat.ltb_lt in Hr. now rewrite Hr.
Qed.

(** C6, as amended: [generate_model] accepts a guess grid of spatial
    shape, [Y x X x P] or [N x Y x X x P] with [Y x X] the pixels of the
    cube and [P] a multiple of the parameter count, and synthesizes one
    spectrum per grid point, a model grid of shape [Y x X x C] or
    [N x Y x X x C]; it raises the generic invalid-shape error
    ([ValueError]) for a grid whose spatial axes are not those of the
    cube, that has more than 3 leading axes or whose trailing axis is not
    a multiple of the parameter count, and never a not-supported error.
    The not-supported error comes from [best_guess], for a model grid of
    more than 2 axes. *)
Theorem spatial_guess_grid_is_synthesized (get_full_model : list Q -> list Q)
    (s : SubCube) (g : ndarray Q) :
  (forall lead k,
      shape g = lead ++ [ny (cube s); nx (cube s); k] ->
      length lead <= 1 -> npars s <> 0 -> k mod npars s = 0 ->
      (forall pars, length (get_full_model pars) = nchan (cube s)) ->
      exists s',
        generate_model get_full_model (Some g) None true s = (Ok tt, s') /\
        model_grid s'
        = Some (mk_array (lead ++ [ny (cube s); nx (cube s); nchan (cube s)])
                  (concat (map get_full_model
                             (chunks k
                                (prod_nat (lead ++ [ny (cube s); nx (cube s)]))
                                (data g)))))) /\
  (forall gs k,
      shape g = gs ++ [k] ->
      (1 < length gs /\ last2 gs <> [ny (cube s); nx (cube s)]) \/
      3 < length gs \/
      (npars s <> 0 /\ k mod npars s <> 0) ->
      generate_model get_full_model (Some g) None true s
      = (Raise ValueError, s)) /\
  (forall go tf rd,
      fst (generate_model get_full_model go tf rd s)
      <> Raise NotImplementedError) /\
  (forall e mg sn ml ff pb,
      2 < length (shape (arr mg)) ->
      last (shape (arr mg)) 0 = nchan (cube s) ->
      best_guess e (Some mg) sn ml ff pb s = (Raise NotImplementedError, s)).
Proof.
  split; [|split; [|split]].
  - intros lead k Hsh Hlead Hn Hk Hlen.
    rewrite (generate_model_spatial get_full_model s g lead k) by assumption.
    eexists. split; reflexivity.
  - intros gs k. apply generate_model_refuses.
  - intros go tf rd. apply generate_model_not_unsupported.
  - intros e mg sn ml ff pb. apply best_guess_unsupported.
Qed.

(** * The default masks *)

Lemma combine_seq_nth {A} (l : list A) (a : nat) (d : A) :
  combine (seq a (length l)) l
  = map (fun p => (p, nth (p - a) l d)) (seq a (length l)).
Proof.
  revert a. induction l as [|x l IH]; intros a; [reflexivity|].
  cbn [length seq combine map]. rewrite Nat.sub_diag. cbn [nth]. f_equal.
  rewrite IH. apply map_ext_in. intros p Hp. apply in_seq in Hp.
  replace (p - a) with (S (p - S a)) by lia. reflexivity.
Qed.

Lemma set_slice_map (low high : Z) (mask : list bool) :
  set_slice low high mask
  = map (fun p => if ((slice_bound (length mask) low <=? Z.of_nat p)%Z
                      && (Z.of_nat p <? slice_bound (length mask) high)%Z)
                  then true else nth p mask false)
        (seq 0 (length mask)).
Proof.
  unfold set_slice. rewrite (combine_seq_nth mask 0 false), map_map.
  apply map_ext. intros p. cbn [fst snd]. now rewrite Nat.sub_0_r.
Qed.

Lemma set_slice_length low high mask :
  length (set_slice low high mask) = length mask.
Proof. unfold set_slice. rewrite length_map, length_combine, length_seq. lia. Qed.

(** On bounds that are not negative, a slice is the range of its bounds. *)
Lemma slice_in_range (n p : nat) (a b : Z) :
  p < n -> (0 <= a)%Z -> (0 <= b)%Z ->
  ((slice_bound n (Z.min a b) <=? Z.of_nat p)%Z
   && (Z.of_nat p <? slice_bound n (Z.max a b))%Z)
  = in_range a b p.
Proof.
  intros Hp Ha Hb. unfold slice_bound, in_range.
  destruct (Z.ltb_spec (Z.min a b) 0); [lia|].
  destruct (Z.ltb_spec (Z.max a b) 0); [lia|].
  apply eq_true_iff_eq. rewrite !andb_true_iff, !Z.leb_le, !Z.ltb_lt. lia.
Qed.

Lemma int_of_Q_inject (z : Z) : int_of_Q (inject_Z z) = z.
Proof.
  unfold int_of_Q. destruct (Qle_bool 0 (inject_Z z)).
  - apply Qfloor_Z.
  - apply Qceiling_Z.
Qed.

Lemma py_round_nonneg (q : Q) : (0 <= q)%Q -> (0 <= py_round q)%Z.
Proof.
  intros H. unfold py_round. apply Qle_bool_iff in H as Hb. rewrite Hb.
  apply (Z.le_trans _ (Qfloor 0)); [change (Qfloor 0) with 0%Z; lia|].
  apply Qfloor_resp_le. lra.
Qed.

Lemma i_low_nonneg (n : nat) : (0 <= i_low n)%Z.
Proof.
  apply py_round_nonneg.
  assert (0 <= inject_Z (Z.of_nat n))%Q by (rewrite <- (Zle_Qle 0); lia).
  generalize dependent (inject_Z (Z.of_nat n)). intros N H. lra.
Qed.

Lemma i_high_pos (n : nat) : 0 < n -> (1 <= i_high n)%Z.
Proof.
  intros Hn. unfold i_high, py_round.
  assert (H1 : (1 <= inject_Z (Z.of_nat n))%Q) by (rewrite <- (Zle_Qle 1); lia).
  generalize dependent (inject_Z (Z.of_nat n)). intros N H1.
  assert (Hq : (0 <= N * (1 - (33 # 100)))%Q) by lra.
  apply Qle_bool_iff in Hq as Hb. rewrite Hb.
  apply (Z.le_trans _ (Qfloor 1)); [change (Qfloor 1) with 1%Z; lia|].
  apply Qfloor_resp_le. lra.
Qed.

Section EstimatorFacts.

Variable unit_ok : string -> bool.
Variable x_to_pix : string -> Q -> Z.

Lemma get_mask_pixel_one (a b : Z) (s : SubCube) :
  get_mask unit_ok x_to_pix [inject_Z a] [inject_Z b] "pixel" s
  = (Ok (set_slice (Z.min a b) (Z.max a b) (repeat false (nchan (cube s)))), s).
Proof.
  unfold get_mask, bind, get_self, ret. cbn [combine fold_left fst snd].
  change (negb (existsb (String.eqb "pixel") pixel_units)) with false.
  cbn beta iota. now rewrite !int_of_Q_inject.
Qed.

Lemma get_mask_pixel_two (a b a' b' : Z) (s : SubCube) :
  get_mask unit_ok x_to_pix [inject_Z a; inject_Z a'] [inject_Z b; inject_Z b']
           "pixel" s
  = (Ok (set_slice (Z.min a' b') (Z.max a' b')
           (set_slice (Z.min a b) (Z.max a b) (repeat false (nchan (cube s))))),
     s).
Proof.
  unfold get_mask, bind, get_self, ret. cbn [combine fold_left fst snd].
  change (negb (existsb (String.eqb "pixel") pixel_units)) with false.
  cbn beta iota. now rewrite !int_of_Q_inject.
Qed.

Lemma default_signal_slice (n : nat) :
  set_slice (Z.min (i_low n + 1) (i_high n - 1))
            (Z.max (i_low n + 1) (i_high n - 1)) (repeat false n)
  = default_signal_mask n.
Proof.
  rewrite set_slice_map, repeat_length. unfold default_signal_mask.
  apply map_ext_in. intros p Hp. apply in_seq in Hp.
  pose proof (i_low_nonneg n). pose proof (i_high_pos n ltac:(lia)).
  rewrite slice_in_range by lia.
  destruct (in_range _ _ p); [reflexivity|].
  apply nth_repeat.
Qed.

Lemma default_noise_slice (n : nat) :
  set_slice (Z.min (i_high n) (Z.of_nat n - 1))
            (Z.max (i_high n) (Z.of_nat n - 1))
            (set_slice (Z.min 0 (i_low n)) (Z.max 0 (i_low n))
                       (repeat false n))
  = default_noise_mask n.
Proof.
  rewrite set_slice_map, set_slice_length, repeat_length.
  unfold default_noise_mask.
  apply map_ext_in. intros p Hp. apply in_seq in Hp.
  pose proof (i_low_nonneg n). pose proof (i_high_pos n ltac:(lia)).
  rewrite slice_in_range by lia.
  rewrite set_slice_map, repeat_length.
  set (h := fun q => if (slice_bound n (Z.min 0 (i_low n)) <=? Z.of_nat q)%Z
                        && (Z.of_nat q <? slice_bound n (Z.max 0 (i_low n)))%Z
                     then true else nth q (repeat false n) false).
  rewrite (nth_indep _ false (h 0)) by (rewrite length_map, length_seq; lia).
  rewrite (map_nth h), seq_nth by lia. cbn [Nat.add]. unfold h.
  rewrite slice_in_range by lia. rewrite nth_repeat.
  destruct (in_range (i_high n) _ p), (in_range 0 _ p); reflexivity.
Qed.


End EstimatorFacts.

(** * The per-pixel tier computes the residuals of the broadcast *)

Lemma upd_length {A} (i : nat) (v : A) (l : list A) :
  length (Sel.upd i v l) = length l.
Proof.
  revert i. induction l as [|x l IH]; intros [|i]; cbn; auto.
Qed.

Lemma upd_nth {A} (i j : nat) (v d : A) (l : list A) :
  i < length l ->
  nth j (Sel.upd i v l) d = if j =? i then v else nth j l d.
Proof.
  revert i j. induction l as [|x l IH]; intros i j Hi; cbn in Hi; [lia|].
  destruct i as [|i], j as [|j]; cbn; auto. apply IH. lia.
Qed.

Lemma index_inj (n i q j p : nat) :
  q < n -> p < n -> i * n + q = j * n + p -> i = j /\ q = p.
Proof.
  intros Hq Hp E.
  destruct (Nat.lt_trichotomy i j) as [H|[H|H]].
  - assert (S i * n <= j * n) by (apply Nat.mul_le_mono_r; lia).
    cbn in *. lia.
  - subst. lia.
  - assert (S j * n <= i * n) by (apply Nat.mul_le_mono_r; lia).
    cbn in *. lia.
Qed.

Section Fill.

Variable np_ g : nat.
Variable f : nat -> nat -> fval.

Lemma store_column_spec (p : nat) (buf : list fval) :
  p < np_ -> length buf = g * np_ ->
  let buf' := Sel.store_column np_ p (map (fun i => f i p) (seq 0 g)) buf in
  length buf' = g * np_ /\
  forall i q, i < g -> q < np_ ->
    cell np_ buf' i q = if q =? p then f i p else cell np_ buf i q.
Proof.
  intros Hp Hlen. cbv zeta. unfold Sel.store_column.
  rewrite length_map, length_seq.
  set (col := map (fun i => f i p) (seq 0 g)).
  assert (Hcol : forall i, i < g -> nth i col Nan = f i p).
  { intros i Hi. unfold col.
    rewrite (nth_indep _ Nan ((fun i => f i p) 0))
      by (rewrite length_map, length_seq; lia).
    rewrite (map_nth (fun i => f i p)), seq_nth by lia. reflexivity. }
  assert (H : forall j, j <= g ->
            let b := fold_left (fun acc i => Sel.upd (i * np_ + p)
                                               (nth i col Nan) acc)
                               (seq 0 j) buf in
            length b = g * np_ /\
            forall i q, i < g -> q < np_ ->
              cell np_ b i q = if (q =? p) && (i <? j) then f i p
                           else cell np_ buf i q).
  { induction j as [|j IH]; intros Hj; cbv zeta.
    - cbn [seq fold_left]. split; [assumption|].
      intros i q _ _. now rewrite andb_false_r.
    - rewrite seq_S, fold_left_app. cbn [fold_left Nat.add].
      destruct (IH ltac:(lia)) as [Hl Hc]. clear IH.
      set (b := fold_left _ (seq 0 j) buf) in *.
      split; [now rewrite upd_length|].
      intros i q Hi Hq. unfold cell.
      assert (Hjp : j * np_ + p < g * np_).
      { apply Nat.lt_le_trans with (S j * np_); [cbn; lia|].
        apply Nat.mul_le_mono_r. lia. }
      rewrite upd_nth by (now rewrite Hl).
      destruct (Nat.eqb_spec (i * np_ + q) (j * np_ + p)) as [E|E].
      + destruct (index_inj np_ i q j p Hq Hp E) as [-> ->].
        rewrite Nat.eqb_refl. destruct (Nat.ltb_spec j (S j)); [|lia].
        now rewrite Hcol by lia.
      + fold (cell np_ b i q). rewrite Hc by assumption.
        destruct (Nat.eqb_spec q p) as [->|]; cbn [andb]; [|reflexivity].
        assert (i <> j) by (intros ->; apply E; reflexivity).
        destruct (Nat.ltb_spec i j), (Nat.ltb_spec i (S j));
          try reflexivity; lia. }
  destruct (H g (le_n g)) as [Hl Hc]. split; [exact Hl|].
  intros i q Hi Hq. rewrite Hc by assumption.
  destruct (Nat.ltb_spec i g); [|lia]. now rewrite andb_true_r.
Qed.

Lemma fill_spec (init : list fval) (k : nat) :
  length init = g * np_ -> k <= np_ ->
  let buf := fold_left
               (fun acc p => Sel.store_column np_ p
                               (map (fun i => f i p) (seq 0 g)) acc)
               (seq 0 k) init in
  length buf = g * np_ /\
  forall i q, i < g -> q < np_ ->
    cell np_ buf i q = if q <? k then f i q else cell np_ init i q.
Proof.
  intros Hlen. induction k as [|k IH]; intros Hk; cbv zeta.
  - cbn [seq fold_left]. split; [assumption|]. now intros.
  - rewrite seq_S, fold_left_app. cbn [fold_left Nat.add].
    destruct (IH ltac:(lia)) as [Hl Hc]. clear IH.
    set (b := fold_left _ (seq 0 k) init) in *.
    destruct (store_column_spec k b ltac:(lia) Hl) as [Hl' Hc'].
    split; [exact Hl'|]. intros i q Hi Hq.
    rewrite Hc', Hc by assumption.
    destruct (Nat.eqb_spec q k) as [E|E];
      destruct (Nat.ltb_spec q (S k)), (Nat.ltb_spec q k);
      try reflexivity; try lia. now subst.
Qed.

Lemma filled_is_broadcast (init : list fval) :
  length init = g * np_ ->
  fold_left (fun acc p => Sel.store_column np_ p
                            (map (fun i => f i p) (seq 0 g)) acc)
            (seq 0 np_) init
  = flat_map (fun i => map (fun p => f i p) (seq 0 np_)) (seq 0 g).
Proof.
  intros Hlen. destruct (fill_spec init np_ Hlen (le_n _)) as [Hl Hc].
  set (buf := fold_left _ (seq 0 np_) init) in *.
  assert (Hr : length (flat_map (fun i => map (fun p => f i p) (seq 0 np_))
                                (seq 0 g)) = g * np_).
  { rewrite (length_flat_map_const _ _ np_).
    - now rewrite length_seq.
    - intros. now rewrite length_map, length_seq. }
  apply (nth_ext _ _ Nan Nan); [congruence|].
  intros n Hn. rewrite Hl in Hn.
  assert (Hnp : 0 < np_) by nia.
  pose proof (Nat.div_mod_eq n np_) as Hdm.
  pose proof (Nat.mod_upper_bound n np_ ltac:(lia)) as Hm.
  assert (Hd : n / np_ < g) by (apply Nat.Div0.div_lt_upper_bound; lia).
  replace n with ((n / np_) * np_ + n mod np_) at 1 2 by lia.
  fold (cell np_ buf (n / np_) (n mod np_)). rewrite Hc by assumption.
  destruct (Nat.ltb_spec (n mod np_) np_); [|lia].
  rewrite flat_map_concat_map.
  rewrite (nth_concat_uniform _ np_)
    by (try lia; apply Forall_forall; intros l Hin;
        apply in_map_iff in Hin as (i & <- & _);
        now rewrite length_map, length_seq).
  rewrite (nth_indep _ [] ((fun i => map (fun p => f i p) (seq 0 np_)) 0))
    by (rewrite length_map, length_seq; lia).
  rewrite (map_nth (fun i => map (fun p => f i p) (seq 0 np_))).
  rewrite seq_nth by lia. cbn [Nat.add].
  rewrite (nth_indep _ Nan ((fun p => f (n / np_) p) 0))
    by (rewrite length_map, length_seq; lia).
  rewrite (map_nth (fun p => f (n / np_) p)), seq_nth by lia. reflexivity.
Qed.

End Fill.

(** On a 2-d grid held in memory, the per-pixel tier, when no allocation
    fails, binds [residual_rms] to the array the broadcast computes. *)
Lemma per_pixel_tier_is_broadcast (e e' : env) (c : cube3) (mg : marray)
    (g k : nat) :
  shape (arr mg) = [g; k] -> is_ndarray mg = true ->
  oom_alloc e = false -> oom_pixel e = None -> oom_broadcast e' = false ->
  exists r,
    Sel.per_pixel e c mg = (Some r, false) /\
    Sel.broadcast e' c (arr mg) = Ok r.
Proof.
  intros Hsh Hnd Ha Hp Hb.
  unfold Sel.per_pixel, Sel.broadcast. rewrite Hnd, Ha, Hp, Hsh, Hb.
  cbn [negb]. eexists. split; [reflexivity|].
  unfold Sel.per_pixel_fill, Sel.pixel_column, Sel.nmodels.
  rewrite Hsh. cbn [hd]. do 2 f_equal.
  symmetry.
  apply (filled_is_broadcast (Sel.npix c) g
           (fun i p => F.std (Sel.sub (Sel.spectrum c p)
                                      (Sel.model_row (arr mg) i)))).
  now rewrite length_map, length_seq.
Qed.

(** * Sample runs *)



(** Two expansions of the sample grid, below and above its bounds. *)
Lemma expand_appends_and_widens_witness :
  expanded_twice Demo.sc_bounds Demo.guesses Demo.bounds0
                 [0%Q] [8%Q] (Scalar 2) true [30%Q] [40%Q] (Scalar 1) true.
Proof.
  apply (expand_appends_and_widens Demo.sc_bounds Demo.guesses Demo.bounds0 2
           [0%Q] [8%Q] (Scalar 2) true [30%Q] [40%Q] (Scalar 1) true);
    try reflexivity; try discriminate;
    (split; [reflexivity|repeat constructor]).
Defined.

(** C3: on the sample cube the broadcast and the per-pixel tier give the
    same maps, while the nested tier, entered for a memory-mapped grid,
    computes its maps and then ends in [UnboundLocalError]: line 369
    reads [residual_rms], which that tier never binds, and no map is
    stored. *)
Theorem nested_tier_delivers_no_maps :
  let broadcast_run :=
    best_guess Demo.roomy (Some (Demo.in_memory Demo.models)) None None None
               1000 Demo.sc in
  let per_pixel_run :=
    best_guess Demo.tight (Some (Demo.in_memory Demo.models)) None None None
               1000 Demo.sc in
  let nested_run :=
    best_guess Demo.tight (Some (Demo.memmapped Demo.models)) None None None
               1000 Demo.sc in
  fst broadcast_run = Ok tt /\
  _best_map (snd broadcast_run) = Some (mk_map 2 2 [0; 1; 1; 1]) /\
  fst per_pixel_run = Ok tt /\
  _best_map (snd per_pixel_run) = _best_map (snd broadcast_run) /\
  _best_rmsmap (snd per_pixel_run) = _best_rmsmap (snd broadcast_run) /\
  option_map (fun l => option_map (fun m => cells (fst m)) (nested_maps l))
    (match fst (residual_stage Demo.tight (Demo.memmapped Demo.models) None
                               1000 0%Z Demo.sc) with
     | Ok l => Some l
     | Raise _ => None
     end)
  = Some (Some [Some 0; Some 1; Some 1; Some 1]) /\
  fst nested_run = Raise UnboundLocalError /\
  _best_map (snd nested_run) = None /\
  _best_rmsmap (snd nested_run) = None.
Proof. vm_compute. repeat split; reflexivity. Qed.

(** C4: with a cutoff of 2 on the sample cube, the pixel (0, 1) of
    signal-to-noise 1 fails the cutoff and yet gets model 1 and a finite
    residual in the broadcast and the per-pixel tier, where line 367
    sets to [inf] the residuals of the pixels that pass; when every
    pixel fails (cutoff 10) every pixel gets a model; the nested tier
    marks the failing pixel [nan] and then ends in [UnboundLocalError]. *)
Theorem failing_pixel_is_matched :
  let grid := Some (Demo.in_memory Demo.models) in
  let broadcast_run := best_guess Demo.roomy grid (Some 2%Q) None None 1000
                                  Demo.sc in
  let per_pixel_run := best_guess Demo.tight grid (Some 2%Q) None None 1000
                                  Demo.sc in
  let all_fail_run := best_guess Demo.roomy grid (Some 10%Q) None None 1000
                                 Demo.sc in
  let nested_run :=
    best_guess Demo.tight (Some (Demo.memmapped Demo.models)) (Some 2%Q) None
               None 1000 Demo.sc in
  map (fun v => F.gtb v (F.of_Q 2)) (cells Demo.snr22)
  = [true; false; true; true] /\
  fst broadcast_run = Ok tt /\
  _best_map (snd broadcast_run) = Some (mk_map 2 2 [0; 1; 0; 0]) /\
  option_map (fun m => map F.isnan (cells m)) (_best_rmsmap (snd broadcast_run))
  = Some [false; false; false; false] /\
  option_map (fun m => nth 0 (cells m) Nan) (_best_rmsmap (snd broadcast_run))
  = Some PosInf /\
  _best_map (snd per_pixel_run) = _best_map (snd broadcast_run) /\
  _best_rmsmap (snd per_pixel_run) = _best_rmsmap (snd broadcast_run) /\
  map (fun v => F.gtb v (F.of_Q 10)) (cells Demo.snr22)
  = [false; false; false; false] /\
  _best_map (snd all_fail_run) = Some (mk_map 2 2 [0; 1; 1; 1]) /\
  fst nested_run = Raise UnboundLocalError /\
  _best_map (snd nested_run) = None.
Proof. vm_compute. repeat split; reflexivity. Qed.



(** A guess cube on the pixels of the sample cube is synthesized. *)
Lemma spatial_guess_grid_counterexample :
  shape Demo.guess_cube = [ny Demo.cube22; nx Demo.cube22; 1] /\
  fst (generate_model Demo.flat_model (Some Demo.guess_cube) None true Demo.sc)
  = Ok tt /\
  model_grid
    (snd (generate_model Demo.flat_model (Some Demo.guess_cube) None true
                         Demo.sc))
  = Some (mk_array [2; 2; 2] [1; 1; 2; 2; 3; 3; 4; 4]%Q).
Proof. vm_compute. repeat split; reflexivity. Qed.

Lemma spatial_guess_grid_is_synthesized_witness :
  exists s',
    generate_model Demo.flat_model (Some Demo.guess_cube) None true Demo.sc
    = (Ok tt, s') /\
    model_grid s'
    = Some (mk_array ([] ++ [2; 2; 2])
              (concat (map Demo.flat_model
                         (chunks 1 (prod_nat ([] ++ [2; 2]))
                                 (data Demo.guess_cube))))).
Proof.
  apply (proj1 (spatial_guess_grid_is_synthesized Demo.flat_model Demo.sc
                  Demo.guess_cube) [] 1).
  - reflexivity.
  - cbn. lia.
  - discriminate.
  - reflexivity.
  - reflexivity.
Defined.



(** C8: with [psutil] importable and reporting 16 GiB, a memory limit of
    one byte ([2^-30] GB) is not read: the estimate of 256 bytes is
    compared with 16 GiB and the broadcast tier is used, where the limit
    would call for the per-pixel tier; without [psutil] the same limit
    is read (and truncated to 0 GB). *)
Theorem memory_limit_ignored_with_psutil :
  let limit := Some (1 # 1073741824)%Q in
  let grid := Some (Demo.in_memory Demo.models) in
  threshold Demo.sc Demo.models = 256%Z /\
  memory_bytes Demo.roomy limit = (2 ^ 34)%Z /\
  memory_bytes Demo.roomy limit = memory_bytes Demo.roomy None /\
  ~ In low_memory_warning
       (log (snd (best_guess Demo.roomy grid None limit None 1000 Demo.sc))) /\
  memory_bytes Demo.no_psutil limit = 0%Z /\
  In low_memory_warning
     (log (snd (best_guess Demo.no_psutil grid None limit None 1000 Demo.sc))).
Proof.
  vm_compute. repeat split; try reflexivity.
  - intros [E|[E|[E|[]]]]; discriminate.
  - right. left. reflexivity.
Qed.



(** * Further properties of the code *)

(** * Further properties of the grid builder *)

Lemma make_guess_grid_run (lo hi : list Q) (f : finesse_arg)
    (fx lmin lmax : option (list bool)) (c : bool) (s : SubCube) :
  length lo = length hi ->
  make_guess_grid lo hi f fx lmin lmax c s
  = match _grid_parspace lo hi f c
            (set_fiteach_args (recorded_args fx lmin lmax lo hi s) s) with
    | (Ok g, s') => (Ok g, set_guess_grid g s')
    | (Raise e, s') => (Raise e, s')
    end.
Proof.
  intros Hlen. apply Nat.eqb_eq in Hlen.
  unfold make_guess_grid, bind, asarray_pair, modify, get_self, ret,
    recorded_args.
  rewrite Hlen. cbn beta iota zeta. cbn [fittype set_fiteach_args].
  destruct (String.eqb (fittype s) "gaussian"); cbn beta iota;
    unfold set_fiteach_args;
    cbn [cube itemsize npars fittype guess_grid model_grid fiteach_args
         snr_map _mask_signal _mask_noise _signal_map _rms_map _best_map
         _best_rmsmap best_guesses _best_model best_guess_value
         best_snr_guess files log];
    match goal with
    | |- context [_grid_parspace lo hi f c ?s2] =>
        destruct (_grid_parspace lo hi f c s2) as [[g|e] s']
    end; reflexivity.
Qed.


Lemma cartesian_In_conv {A} (ls : list (list A)) (p : list A) :
  Forall2 (fun x l => In x l) p ls -> In p (Grid.cartesian ls).
Proof.
  induction 1 as [|x l p ls Hx _ IH]; [now left|].
  cbn [Grid.cartesian]. apply in_flat_map. exists x. split; [exact Hx|].
  now apply in_map.
Qed.

Lemma mesh_points_In_conv {A} (ps : list (list A)) (p : list A) :
  Forall2 (fun x l => In x l) p ps -> In p (Grid.mesh_points ps).
Proof.
  intros H. unfold Grid.mesh_points.
  rewrite <- (swap01_involutive p). apply in_map.
  now apply cartesian_In_conv, Forall2_swap01.
Qed.

Lemma slices_full_nth (lo hi : list Q) (fs : list Z) (i : nat) :
  length fs = length lo -> length lo = length hi -> i < length lo ->
  nth i (slices_full lo hi fs) []
  = map (fun k => if (1 <? Z.to_nat (nth i fs 0%Z))
                     && (k =? Z.to_nat (nth i fs 0%Z) - 1)
                  then comp hi i
                  else point (comp lo i) (comp hi i) (nth i fs 0%Z) k)
        (seq 0 (Z.to_nat (nth i fs 0%Z))).
Proof.
  intros H1 H2 Hi. unfold slices_full.
  set (h := fun x : Z * Q * Q =>
              let '(n, a, b) := x in
              map (fun k => if (1 <? Z.to_nat n) && (k =? Z.to_nat n - 1) then b
                            else point a b n k)
                  (seq 0 (Z.to_nat n))).
  rewrite (nth_indep _ [] (h (0%Z, 0%Q, 0%Q)))
    by (rewrite length_map, (zip3_length _ _ _ (length lo));
        rewrite ?length_map; lia).
  rewrite (map_nth h), zip3_nth by (rewrite ?length_map; lia).
  rewrite (nth_indep _ 0%Z (edge false 0%Z)) by (rewrite length_map; lia).
  rewrite (map_nth (edge false)). unfold h, edge, comp.
  now rewrite Z.add_0_r.
Qed.

(** The points of an unclipped slice lie between the bounds. *)
Lemma point_within (lo hi : Q) (f : Z) (k : nat) :
  k < Z.to_nat f -> (lo <= hi)%Q ->
  (lo <= point lo hi f k)%Q /\ (point lo hi f k <= hi)%Q.
Proof.
  intros Hk Hle. unfold point.
  destruct (Z.eq_dec f 1) as [->|Hf].
  - assert (k = 0) by lia. subst k. cbn [Z.sub Z.of_nat].
    change (inject_Z (1 - 1)) with 0%Q. split; unfold Qdiv; cbn; lra.
  - set (K := inject_Z (Z.of_nat k)). set (N := inject_Z (f - 1)).
    assert (HK : (0 <= K)%Q) by (unfold K; rewrite <- (Zle_Qle 0); lia).
    assert (HKN : (K <= N)%Q) by (unfold K, N; rewrite <- Zle_Qle; lia).
    assert (HN : (0 < N)%Q) by (unfold N; rewrite <- (Zlt_Qlt 0); lia).
    set (t := ((hi - lo) / N)%Q).
    assert (Ht : (t * N == hi - lo)%Q) by (unfold t; field; lra).
    assert (Ht0 : (0 <= t)%Q) by (unfold t; apply Qle_shift_div_l; lra).
    split; nra.
Qed.

Lemma any2_gtb (lo hi : list Q) :
  length lo = length hi ->
  (Grid.any2 Grid.Qgtb lo hi = true <->
   exists i, i < length lo /\ (comp hi i < comp lo i)%Q).
Proof.
  unfold Grid.any2, comp. revert hi.
  induction lo as [|a lo IH]; intros [|b hi] Hlen; try discriminate.
  - cbn. split; [discriminate|]. intros (i & Hi & _). lia.
  - cbn [combine existsb fst snd length]. rewrite orb_true_iff, IH by (cbn in Hlen; lia).
    unfold Grid.Qgtb. rewrite negb_true_iff, <- not_true_iff_false, Qle_bool_iff.
    split.
    + intros [H|(i & Hi & H)].
      * exists 0. split; [lia|]. cbn. lra.
      * exists (S i). split; [lia|exact H].
    + intros ([|i] & Hi & H).
      * left. cbn in H. lra.
      * right. exists i. split; [lia|exact H].
Qed.

Lemma grid_log_new (lo hi : list Q) (s : SubCube) :
  log (grid_log lo hi s)
  = log s ++ (if Grid.any2 Grid.Qgtb lo hi then [inverted_bounds_error] else [])
          ++ [(LInfo, "Binning the parameter space into a grid"%string)].
Proof.
  unfold grid_log, inverted_bounds_error.
  destruct (Grid.any2 Grid.Qgtb lo hi); cbn [log add_log];
    now rewrite <- ?app_assoc.
Qed.

(** X1: bounds in the wrong order are reported in the log and not refused:
    [make_guess_grid] still returns and stores a grid of [G] points, and
    the error record is written exactly when some [minpars[i]] exceeds
    [maxpars[i]]. *)
Theorem inverted_bounds_are_reported_not_refused (lo hi : list Q)
    (f : finesse_arg) (c : bool) (fx lmin lmax : option (list bool))
    (s : SubCube) :
  lo <> [] -> length lo = length hi -> valid_finesse (length lo) f ->
  exists g s',
    make_guess_grid lo hi f fx lmin lmax c s = (Ok g, s') /\
    guess_grid s' = Some g /\
    shape g = [grid_size (length lo) f; length lo] /\
    (In inverted_bounds_error (new_log s s') <->
     exists i, i < length lo /\ (comp hi i < comp lo i)%Q).
Proof.
  intros Hne Hlen Hf.
  rewrite make_guess_grid_run by assumption.
  set (s2 := set_fiteach_args (recorded_args fx lmin lmax lo hi s) s).
  destruct (grid_parspace_run c lo hi f s2 Hne Hlen Hf)
    as (g & -> & Hsh & _ & _).
  exists g. eexists. split; [reflexivity|]. split; [reflexivity|].
  split; [exact Hsh|].
  rewrite <- any2_gtb by assumption.
  rewrite (new_log_app s (set_guess_grid g (grid_log lo hi s2)) _
             (grid_log_new lo hi s2)).
  destruct (Grid.any2 Grid.Qgtb lo hi); cbn.
  - split; auto.
  - split; [|discriminate]. intros [E|[]]. discriminate E.
Qed.

Lemma Forall2_map_In {A} (h : list A -> A) (ls : list (list A)) :
  (forall sl, In sl ls -> In (h sl) sl) ->
  Forall2 (fun x l => In x l) (map h ls) ls.
Proof.
  induction ls as [|sl ls IH]; intros H; constructor.
  - apply H. now left.
  - apply IH. intros; apply H; now right.
Qed.

(** X2: with [clip_edges=False] the grid keeps the edges: [make_guess_grid]
    returns [G] points, every component between its bounds, one of the
    points is [minpars] and, when every finesse is at least 2, one is
    [maxpars]. *)
Theorem unclipped_grid_reaches_the_bounds (lo hi : list Q) (f : finesse_arg)
    (fx lmin lmax : option (list bool)) (s : SubCube) :
  lo <> [] ->
  length lo = length hi ->
  (forall i, i < length lo -> (comp lo i <= comp hi i)%Q) ->
  valid_finesse (length lo) f ->
  exists g s',
    make_guess_grid lo hi f fx lmin lmax false s = (Ok g, s') /\
    guess_grid s' = Some g /\
    length (rows_of g) = grid_size (length lo) f /\
    (forall row, In row (rows_of g) ->
       length row = length lo /\
       forall i, i < length lo ->
         (comp lo i <= comp row i)%Q /\ (comp row i <= comp hi i)%Q) /\
    (exists row, In row (rows_of g) /\
       forall i, i < length lo -> (comp row i == comp lo i)%Q) /\
    (Forall (fun k => (2 <= k)%Z) (finesse_vec (length lo) f) ->
     exists row, In row (rows_of g) /\
       forall i, i < length lo -> comp row i = comp hi i).
Proof.
  intros Hne Hlen Hle Hf.
  rewrite make_guess_grid_run by assumption.
  set (s2 := set_fiteach_args (recorded_args fx lmin lmax lo hi s) s).
  destruct (grid_parspace_run false lo hi f s2 Hne Hlen Hf)
    as (g & -> & Hsh & Hrows & _).
  destruct Hf as [Hfl Hpos]. rewrite Forall_forall in Hpos.
  set (fs := finesse_vec (length lo) f) in *.
  pose proof (par_space_length false lo hi fs Hfl Hlen) as Hn.
  cbn [par_space_of] in Hrows, Hn.
  assert (Hfi : forall i, i < length lo -> (0 < nth i fs 0)%Z).
  { intros i Hi. apply Hpos, nth_In. lia. }
  exists g. eexists. split; [reflexivity|]. split; [reflexivity|].
  split; [|split; [|split]].
  - rewrite Hrows, mesh_points_length.
    now rewrite (par_space_lengths false) by assumption.
  - intros row Hrow. rewrite Hrows in Hrow. apply mesh_points_In in Hrow.
    split; [apply Forall2_length in Hrow; now rewrite Hrow|].
    intros i Hi.
    apply (Forall2_nth_rel _ _ _ i 0%Q []) in Hrow; [|now rewrite Hn].
    rewrite slices_full_nth in Hrow by assumption.
    change (nth i row 0%Q) with (comp row i) in Hrow.
    apply in_map_iff in Hrow as (k & <- & Hk). apply in_seq in Hk.
    specialize (Hle i Hi).
    destruct (_ && _); [split; lra|].
    apply point_within; [lia|assumption].
  - (* the first point of every slice *)
    exists (map (fun sl => nth 0 sl 0%Q) (slices_full lo hi fs)).
    split.
    + rewrite Hrows. apply mesh_points_In_conv, Forall2_map_In.
      intros sl Hsl. apply (In_nth _ _ []) in Hsl as (i & Hi & <-).
      rewrite Hn in Hi. rewrite slices_full_nth by assumption.
      specialize (Hfi i Hi).
      destruct (Z.to_nat (nth i fs 0%Z)) eqn:E; [lia|]. now left.
    + intros i Hi. unfold comp at 1.
      rewrite (nth_indep _ 0%Q (nth 0 [] 0%Q))
        by (rewrite length_map, Hn; exact Hi).
      rewrite (map_nth (fun sl => nth 0 sl 0%Q)).
      rewrite slices_full_nth by assumption.
      specialize (Hfi i Hi).
      destruct (Z.to_nat (nth i fs 0%Z)) as [|m] eqn:E; [lia|].
      cbn [seq map nth].
      destruct m as [|m].
      * cbn. unfold point. cbn [Z.of_nat]. change (inject_Z 0) with 0%Q. lra.
      * replace ((1 <? S (S m)) && (0 =? S (S m) - 1)) with false
          by (cbn; reflexivity).
        unfold point. cbn [Z.of_nat]. change (inject_Z 0) with 0%Q. lra.
  - (* the last point of every slice *)
    intros H2. rewrite Forall_forall in H2.
    assert (Hf2 : forall i, i < length lo -> (2 <= nth i fs 0)%Z).
    { intros i Hi. apply H2, nth_In. lia. }
    exists (map (fun sl => last sl 0%Q) (slices_full lo hi fs)).
    assert (Hlast : forall i, i < length lo ->
              nth i (slices_full lo hi fs) [] <> [] /\
              last (nth i (slices_full lo hi fs) []) 0%Q = comp hi i).
    { intros i Hi. rewrite slices_full_nth by assumption.
      specialize (Hf2 i Hi).
      destruct (Z.to_nat (nth i fs 0%Z)) as [|m] eqn:E; [lia|].
      split; [discriminate|].
      rewrite seq_S, map_app. cbn [map]. rewrite last_last. cbn [Nat.add].
      destruct m; [lia|].
      replace (S (S m) - 1) with (S m) by lia.
      now rewrite Nat.eqb_refl. }
    split.
    + rewrite Hrows. apply mesh_points_In_conv, Forall2_map_In.
      intros sl Hsl. apply (In_nth _ _ []) in Hsl as (i & Hi & E).
      rewrite Hn in Hi. destruct (Hlast i Hi) as [Hne' _].
      rewrite E in Hne'.
      destruct (exists_last Hne') as (l' & x & ->).
      rewrite last_last. apply in_or_app. right. now left.
    + intros i Hi. unfold comp at 1.
      rewrite (nth_indep _ 0%Q (last [] 0%Q))
        by (rewrite length_map, Hn; exact Hi).
      rewrite (map_nth (fun sl => last sl 0%Q)).
      now apply Hlast.
Qed.



Lemma linspace_clip_nonneg (lo hi : Q) (f : Z) :
  (0 <= f)%Z ->
  exists l, Grid.linspace lo hi (f + 2) = Ok l /\
            Grid.clip l = map (point lo hi (f + 2)) (seq 1 (Z.to_nat f)).
Proof.
  intros Hf. unfold Grid.linspace.
  destruct (Z.ltb_spec (f + 2) 0); [lia|].
  eexists; split; [reflexivity|].
  replace (Z.to_nat (f + 2)) with (S (S (Z.to_nat f))) by lia.
  rewrite clip_map_seq. apply map_ext_in. intros k Hk.
  apply in_seq in Hk.
  destruct (Nat.eqb_spec k (S (S (Z.to_nat f)) - 1)); [lia|].
  now rewrite andb_false_r.
Qed.

Lemma par_space_runs_nonneg (c : bool) (lo hi : list Q) (fs : list Z) :
  Forall (fun k => (0 <= k)%Z) fs ->
  Grid.mapM_res (slice_of c) (Grid.zip3 (map (edge c) fs) lo hi)
  = Ok (par_space_of c lo hi fs).
Proof.
  intros Hf. rewrite Forall_forall in Hf.
  destruct c; cbn [par_space_of]; apply mapM_res_ok; intros [[n a] b] H;
    apply zip3_In in H as (H & _ & _);
    apply in_map_iff in H as (k & <- & Hk); specialize (Hf k Hk);
    unfold edge, slice_of.
  - destruct (linspace_clip_nonneg a b k Hf) as (l & -> & ->).
    now replace (k + 2 - 2)%Z with k by lia.
  - unfold Grid.linspace. destruct (Z.ltb_spec (k + 0) 0); [lia|].
    reflexivity.
Qed.

Lemma prod_nat_zero (l : list nat) : In 0 l -> prod_nat l = 0.
Proof.
  induction l as [|x l IH]; [intros []|].
  intros [->|H]; cbn [prod_nat fold_right]; [reflexivity|].
  fold (prod_nat l). rewrite IH by assumption. lia.
Qed.

(** X4: a finesse of zero is not an error.  When no finesse is negative
    and one of them is zero, [make_guess_grid] returns and stores an
    empty grid, of shape [(0, P)]. *)
Theorem zero_finesse_gives_an_empty_grid (lo hi : list Q) (f : finesse_arg)
    (c : bool) (fx lmin lmax : option (list bool)) (s : SubCube) :
  lo <> [] -> length lo = length hi ->
  length (finesse_vec (length lo) f) = length lo ->
  Forall (fun k => (0 <= k)%Z) (finesse_vec (length lo) f) ->
  In 0%Z (finesse_vec (length lo) f) ->
  exists s',
    make_guess_grid lo hi f fx lmin lmax c s
    = (Ok (mk_array [0; length lo] []), s') /\
    guess_grid s' = Some (mk_array [0; length lo] []).
Proof.
  intros Hne Hlen Hfl Hpos H0.
  rewrite make_guess_grid_run by assumption.
  set (s2 := set_fiteach_args (recorded_args fx lmin lmax lo hi s) s).
  assert (Hb : Grid.broadcast_ones (atleast_1d f) (length lo)
               = Ok (finesse_vec (length lo) f)).
  { unfold Grid.broadcast_ones.
    destruct f as [k|v]; cbn [atleast_1d finesse_vec] in *.
    - destruct (length lo) as [|[|n]]; reflexivity.
    - apply Nat.eqb_eq in Hfl. now rewrite Hfl. }
  set (fs := finesse_vec (length lo) f) in *.
  pose proof (par_space_runs_nonneg c lo hi fs Hpos) as Hps.
  pose proof (par_space_lengths c lo hi fs Hfl Hlen) as Hl.
  pose proof (par_space_length c lo hi fs Hfl Hlen) as Hn.
  set (ps := par_space_of c lo hi fs) in *.
  destruct (reshape_T_meshgrid ps) as [Hr _].
  assert (HG : length (Grid.mesh_points ps) = 0).
  { rewrite mesh_points_length, Hl. apply prod_nat_zero.
    apply in_map_iff. exists 0%Z. split; [reflexivity|assumption]. }
  rewrite Hn, HG in Hr. cbn [seq flat_map] in Hr.
  assert (Hps0 : ps <> []).
  { intros E. rewrite E in Hn. destruct lo; [congruence|discriminate]. }
  unfold _grid_parspace, bind, lift, log_msg, modify, ret.
  unfold slice_of, edge in Hps. clearbody ps.
  destruct (Grid.any2 Grid.Qgtb lo hi); rewrite Hb; cbn beta iota;
    rewrite Hps; (destruct ps; [congruence|]); rewrite Hr;
    eexists; split; reflexivity.
Qed.

(** * Further properties of the expansion *)

Lemma grid_log_args (lo hi : list Q) (s : SubCube) :
  fiteach_args (grid_log lo hi s) = fiteach_args s /\
  guess_grid (grid_log lo hi s) = guess_grid s.
Proof. unfold grid_log. now destruct (Grid.any2 _ _ _). Qed.

(** X5: [expand_guess_grid] on an object for which [make_guess_grid] was
    never called finds no recorded bounds: it raises [AttributeError]
    once the new sub-grid is built, and leaves the guess grid as it
    was. *)
Theorem expand_needs_recorded_bounds (lo hi : list Q) (f : finesse_arg)
    (c : bool) (s : SubCube) :
  fiteach_args s = None ->
  lo <> [] -> length lo = length hi -> valid_finesse (length lo) f ->
  let run := expand_guess_grid lo hi f c s in
  fst run = Raise AttributeError /\
  guess_grid (snd run) = guess_grid s /\
  fiteach_args (snd run) = None.
Proof.
  intros Ha Hne Hlen Hf. cbv zeta.
  apply Nat.eqb_eq in Hlen as Hlenb.
  unfold expand_guess_grid, bind, asarray_pair, get_self, attr, raise, ret.
  rewrite Hlenb. cbn beta iota.
  destruct (grid_parspace_run c lo hi f s Hne Hlen Hf) as (g & -> & _).
  cbn beta iota.
  destruct (grid_log_args lo hi s) as [E1 E2].
  rewrite E1, Ha. cbn [fst snd]. rewrite E1, E2. repeat split. exact Ha.
Qed.

(** X6: new bounds whose number of parameters differs from that of the
    recorded bounds are refused with [ValueError]; the recorded bounds
    and the guess grid stay as they were. *)
Theorem expand_refuses_another_parameter_count (lo hi : list Q)
    (f : finesse_arg) (c : bool) (s : SubCube) (args : fiteach) :
  fiteach_args s = Some args ->
  length (minpars args) <> length lo ->
  lo <> [] -> length lo = length hi -> valid_finesse (length lo) f ->
  let run := expand_guess_grid lo hi f c s in
  fst run = Raise ValueError /\
  guess_grid (snd run) = guess_grid s /\
  fiteach_args (snd run) = Some args.
Proof.
  intros Ha Hp Hne Hlen Hf. cbv zeta.
  apply Nat.eqb_eq in Hlen as Hlenb. apply Nat.eqb_neq in Hp.
  unfold expand_guess_grid, vstack_min, bind, asarray_pair, get_self, attr,
    raise, ret.
  rewrite Hlenb. cbn beta iota.
  destruct (grid_parspace_run c lo hi f s Hne Hlen Hf) as (g & -> & _).
  cbn beta iota.
  destruct (grid_log_args lo hi s) as [E1 E2].
  rewrite E1, Ha. cbn beta iota. rewrite Hp. cbn [fst snd].
  rewrite E1, E2. repeat split. exact Ha.
Qed.

(** X7: a grid made by [make_guess_grid] can be expanded by
    [expand_guess_grid] for bounds of the same number of parameters: the
    result keeps the [G1] points of the first grid in front of the [G2]
    new ones, and the recorded bounds are the element-wise minimum and
    maximum of the two ranges. *)
Theorem make_then_expand (lo1 hi1 : list Q) (f1 : finesse_arg) (c1 : bool)
    (fx lmin lmax : option (list bool))
    (lo2 hi2 : list Q) (f2 : finesse_arg) (c2 : bool) (s : SubCube) :
  lo1 <> [] -> length lo1 = length hi1 -> valid_finesse (length lo1) f1 ->
  length lo2 = length lo1 -> length lo2 = length hi2 ->
  valid_finesse (length lo2) f2 ->
  exists g1 s1 g2 s2 args,
    make_guess_grid lo1 hi1 f1 fx lmin lmax c1 s = (Ok g1, s1) /\
    expand_guess_grid lo2 hi2 f2 c2 s1 = (Ok g2, s2) /\
    guess_grid s2 = Some g2 /\
    shape g2 = [grid_size (length lo1) f1 + grid_size (length lo2) f2;
                length lo1] /\
    length (rows_of g2)
    = grid_size (length lo1) f1 + grid_size (length lo2) f2 /\
    firstn (grid_size (length lo1) f1) (rows_of g2) = rows_of g1 /\
    fiteach_args s2 = Some args /\
    forall i, i < length lo1 ->
      comp (minpars args) i = Qmin (comp lo1 i) (comp lo2 i) /\
      comp (maxpars args) i = Qmax (comp hi1 i) (comp hi2 i).
Proof.
  intros Hne1 Hlen1 Hf1 H21 Hlen2 Hf2.
  rewrite make_guess_grid_run by assumption.
  set (s0 := set_fiteach_args (recorded_args fx lmin lmax lo1 hi1 s) s).
  destruct (grid_parspace_run c1 lo1 hi1 f1 s0 Hne1 Hlen1 Hf1)
    as (g1 & -> & Hsh1 & Hrows1 & Hdata1).
  set (s1 := set_guess_grid g1 (grid_log lo1 hi1 s0)).
  assert (Hne2 : lo2 <> []).
  { intros E. rewrite E in H21. destruct lo1; [congruence|discriminate]. }
  assert (Hs : shape g1 = [grid_size (length lo1) f1; length lo2])
    by now rewrite H21.
  assert (Hd : length (data g1) = grid_size (length lo1) f1 * length lo2)
    by now rewrite H21.
  assert (Hmin : length (minpars (recorded_args fx lmin lmax lo1 hi1 s))
                 = length lo2) by now rewrite H21.
  assert (Hmax : length (maxpars (recorded_args fx lmin lmax lo1 hi1 s))
                 = length lo2) by (cbn [recorded_args maxpars]; lia).
  assert (Ha1 : fiteach_args s1
                = Some (recorded_args fx lmin lmax lo1 hi1 s))
    by exact (proj1 (grid_log_args lo1 hi1 s0)).
  destruct (expand_step s1 g1 (recorded_args fx lmin lmax lo1 hi1 s)
              (grid_size (length lo1) f1) lo2 hi2 f2 c2
              eq_refl Hs Hd Ha1 Hmin Hmax Hne2 Hlen2 Hf2)
    as (new & g2 & s2 & Hnew & Hexp & Hsh2 & Hd2 & _ & Hrows2 & Hg2 & Ha2).
  assert (Hl1 : length (rows_of g1) = grid_size (length lo1) f1).
  { destruct Hf1 as [Hfl1 _].
    rewrite Hrows1, mesh_points_length.
    now rewrite (par_space_lengths c1) by assumption. }
  assert (Hl2 : length (rows_of new) = grid_size (length lo2) f2).
  { destruct (grid_parspace_run c2 lo2 hi2 f2 s1 Hne2 Hlen2 Hf2)
      as (new' & Hnew' & _ & Hrows' & _).
    rewrite Hnew in Hnew'. injection Hnew' as <-.
    destruct Hf2 as [Hfl2 _].
    rewrite Hrows', mesh_points_length.
    now rewrite (par_space_lengths c2) by assumption. }
  exists g1, s1, g2, s2. eexists.
  split; [reflexivity|]. split; [exact Hexp|]. split; [exact Hg2|].
  split; [now rewrite Hsh2, H21|].
  split; [now rewrite Hrows2, length_app, Hl1, Hl2|].
  split; [rewrite Hrows2; now apply firstn_app_exact|].
  split; [exact Ha2|].
  intros i Hi. cbn [minpars maxpars recorded_args].
  rewrite comp_vmin, comp_vmax by lia. split; reflexivity.
Qed.

(** * Further properties of the synthesizer *)

Lemma chunks_length {A} (n k : nat) (l : list A) : length (chunks n k l) = k.
Proof.
  revert l. induction k as [|k IH]; intros l; [reflexivity|].
  cbn [chunks length]. now rewrite IH.
Qed.

Lemma chunks_concat {A} (ls : list (list A)) (n : nat) :
  Forall (fun l => length l = n) ls ->
  chunks n (length ls) (concat ls) = ls.
Proof.
  induction 1 as [|l ls Hl _ IH]; [reflexivity|].
  cbn [length chunks concat].
  now rewrite firstn_app_exact, skipn_app_exact, IH by assumption.
Qed.

Lemma string_length_append (a b : string) :
  String.length (a ++ b) = String.length a + String.length b.
Proof. induction a as [|c a IH]; [reflexivity|]. cbn. now rewrite IH. Qed.

Lemma append_npy_differs (f : string) : String.eqb (f ++ ".npy") f = false.
Proof.
  apply String.eqb_neq. intros E.
  apply (f_equal String.length) in E. rewrite string_length_append in E.
  cbn in E. lia.
Qed.

Section SynthesizerRuns.

Variable get_full_model : list Q -> list Q.

(** A run of [generate_model] that is not skipped, on [G] vectors of [k]
    parameters given as a [(G, k)] array or, for [G = 1], as a vector. *)
Lemma generate_model_run (go : option (ndarray Q)) (tf : option string)
    (rd : bool) (s : SubCube) (g : ndarray Q) (G k : nat) :
  grid_used go s = Some g ->
  shape g = [G; k] \/ (shape g = [k] /\ G = 1) ->
  npars s <> 0 -> k mod npars s = 0 ->
  (forall pars, length (get_full_model pars) = nchan (cube s)) ->
  rd = true \/ (exists f, tf = Some f /\ isfile s f = false) ->
  generate_model get_full_model go tf rd s
  = let model := mk_array [G; nchan (cube s)]
                   (concat (map get_full_model (chunks k G (data g)))) in
    (Ok tt,
     match tf with
     | Some f => add_file (npy_name f) model (add_log generating_event s)
     | None => set_model_grid model (add_log generating_event s)
     end).
Proof.
  intros Hg Hsh Hn Hk Hlen Hrd.
  assert (E : atleast_2d_shape (shape g) = [G; k]).
  { destruct Hsh as [->|[-> ->]]; reflexivity. }
  assert (Hbody : forall rd' : bool,
             (rd' = true \/ exists f, tf = Some f /\ isfile s f = false) ->
             (if rd' then ret false
              else match tf with
                   | None => raise TypeError
                   | Some f => ret (isfile s f)
                   end) s = (Ok false, s)).
  { intros [|] [H|(f & -> & Hf)]; try reflexivity; try discriminate.
    unfold ret. now rewrite Hf. }
  unfold generate_model. unfold bind at 1, get_self. unfold bind at 1.
  rewrite (Hbody rd Hrd). cbn beta iota zeta.
  fold (grid_used go s). rewrite Hg, E.
  unfold bind, lift, log_msg, modify, ret, raise.
  change [G; k] with ([G] ++ [k]).
  rewrite bad_shape_snoc, removelast_last, last_snoc.
  cbn [length Nat.ltb Nat.leb andb prod_nat fold_right app].
  destruct (npars s) as [|n] eqn:En; [congruence|].
  apply Nat.eqb_eq in Hk. rewrite Hk. cbn [negb].
  rewrite Nat.mul_1_r.
  rewrite (mapM_res_ok _ get_full_model).
  - destruct tf; reflexivity.
  - intros pars _. unfold assign_row. now rewrite Hlen, Nat.eqb_refl.
Qed.

(** X8: for a guess grid of [G] parameter vectors, given as an argument or
    taken from the object, [generate_model] stores a model grid of shape
    [(G, C)] whose [i]-th row is the model of the [i]-th guess; the guess
    grid is not touched. *)
Theorem model_grid_rows_follow_the_guesses (go : option (ndarray Q))
    (s : SubCube) (g : ndarray Q) (G k : nat) :
  grid_used go s = Some g ->
  shape g = [G; k] ->
  npars s <> 0 -> k mod npars s = 0 ->
  (forall pars, length (get_full_model pars) = nchan (cube s)) ->
  exists m s',
    generate_model get_full_model go None true s = (Ok tt, s') /\
    model_grid s' = Some m /\
    shape m = [G; nchan (cube s)] /\
    rows_of m = map get_full_model (rows_of g) /\
    guess_grid s' = guess_grid s.
Proof.
  intros Hg Hsh Hn Hk Hlen.
  rewrite (generate_model_run go None true s g G k) by auto.
  cbv zeta. do 2 eexists. split; [reflexivity|]. split; [reflexivity|].
  split; [reflexivity|]. split; [|reflexivity].
  unfold rows_of. rewrite Hsh. cbn [shape data].
  rewrite <- (chunks_length k G (data g)) at 1.
  rewrite <- (length_map get_full_model).
  apply chunks_concat, Forall_forall. intros l Hl.
  apply in_map_iff in Hl as (pars & <- & _). apply Hlen.
Qed.

(** X9: a single vector of parameters is taken as a grid of one guess: the
    model grid stored has shape [(1, C)] and holds the model of the
    vector. *)
Theorem a_vector_gives_a_grid_of_one_model (s : SubCube) (g : ndarray Q)
    (k : nat) :
  shape g = [k] -> length (data g) = k ->
  npars s <> 0 -> k mod npars s = 0 ->
  (forall pars, length (get_full_model pars) = nchan (cube s)) ->
  exists s',
    generate_model get_full_model (Some g) None true s = (Ok tt, s') /\
    model_grid s'
    = Some (mk_array [1; nchan (cube s)] (get_full_model (data g))).
Proof.
  intros Hsh Hd Hn Hk Hlen.
  rewrite (generate_model_run (Some g) None true s g 1 k) by auto.
  cbv zeta. eexists. split; [reflexivity|].
  cbn [model_grid set_model_grid chunks map concat].
  rewrite <- Hd, firstn_all, app_nil_r. reflexivity.
Qed.

(** X10: with [to_file] the models go to a file and not to the object, and
    the file gets the extension [.npy] unless the name has it.  A later
    call with [redo=False] looks for the name as given: it skips the
    work when the name ends in [.npy], and otherwise, unless a file of
    that very name exists, does all of it again. *)
Theorem saved_models_are_found_by_their_full_name (s : SubCube)
    (g : ndarray Q) (G k : nat) (f : string) :
  shape g = [G; k] ->
  npars s <> 0 -> k mod npars s = 0 ->
  (forall pars, length (get_full_model pars) = nchan (cube s)) ->
  let first := generate_model get_full_model (Some g) (Some f) true s in
  let s1 := snd first in
  fst first = Ok tt /\
  model_grid s1 = model_grid s /\
  (exists m, files s1 = (npy_name f, m) :: files s /\
             rows_of m = map get_full_model (rows_of g)) /\
  (ends_with ".npy" f = true ->
   generate_model get_full_model (Some g) (Some f) false s1
   = (Ok tt, add_log skipping_event s1)) /\
  (ends_with ".npy" f = false -> isfile s f = false ->
   generate_model get_full_model (Some g) (Some f) false s1
   = generate_model get_full_model (Some g) (Some f) true s1).
Proof.
  intros Hsh Hn Hk Hlen. cbv zeta.
  rewrite (generate_model_run (Some g) (Some f) true s g G k) by auto.
  cbv zeta. cbn [fst snd].
  set (m := mk_array [G; nchan (cube s)]
              (concat (map get_full_model (chunks k G (data g))))).
  set (s1 := add_file (npy_name f) m (add_log generating_event s)).
  split; [reflexivity|]. split; [reflexivity|]. split; [|split].
  - exists m. split; [reflexivity|].
    unfold rows_of. rewrite Hsh. cbn [shape data m].
    rewrite <- (chunks_length k G (data g)) at 1.
    rewrite <- (length_map get_full_model).
    apply chunks_concat, Forall_forall. intros l Hl.
    apply in_map_iff in Hl as (pars & <- & _). apply Hlen.
  - intros He.
    assert (Hf : isfile s1 f = true).
    { unfold isfile, s1, npy_name. rewrite He. cbn [files add_file existsb fst].
      now rewrite String.eqb_refl. }
    unfold generate_model, bind, get_self, ret, log_msg, modify.
    cbn beta iota. rewrite Hf. reflexivity.
  - intros He Hf0.
    assert (Hf : isfile s1 f = false).
    { unfold isfile, s1, npy_name. rewrite He.
      cbn [files add_file add_log existsb fst].
      rewrite append_npy_differs. exact Hf0. }
    rewrite (generate_model_run (Some g) (Some f) false s1 g G k); auto.
    + now rewrite (generate_model_run (Some g) (Some f) true s1 g G k) by auto.
    + right. now exists f.
Qed.

End SynthesizerRuns.

(** * Further properties of the selector *)

Lemma nth_grid {A} (F : nat -> nat -> A) (k n j i : nat) (d : A) :
  j < k -> i < n ->
  nth (j * n + i) (flat_map (fun j => map (F j) (seq 0 n)) (seq 0 k)) d
  = F j i.
Proof.
  intros Hj Hi. rewrite flat_map_concat_map.
  rewrite (nth_concat_uniform _ n)
    by (try lia; apply Forall_forall; intros l Hin;
        apply in_map_iff in Hin as (x & <- & _);
        now rewrite length_map, length_seq).
  rewrite (nth_indep _ [] ((fun j => map (F j) (seq 0 n)) 0))
    by (rewrite length_map, length_seq; lia).
  rewrite (map_nth (fun j => map (F j) (seq 0 n))), seq_nth by lia.
  cbn [Nat.add].
  rewrite (nth_indep _ d (F j 0)) by (rewrite length_map, length_seq; lia).
  rewrite (map_nth (F j)), seq_nth by lia. reflexivity.
Qed.

Lemma broadcast_residuals (e : env) (c : cube3) (mg : ndarray Q) (g k : nat) :
  shape mg = [g; k] -> oom_broadcast e = false ->
  Sel.broadcast e c mg = Ok (residuals c mg g).
Proof. intros Hsh Hb. unfold Sel.broadcast. now rewrite Hsh, Hb. Qed.

Lemma per_pixel_residuals (e : env) (c : cube3) (mg : marray) (g k : nat) :
  shape (arr mg) = [g; k] -> is_ndarray mg = true ->
  oom_alloc e = false -> oom_pixel e = None ->
  Sel.per_pixel e c mg = (Some (residuals c (arr mg) g), false).
Proof.
  intros Hsh Hnd Ha Hp.
  unfold Sel.per_pixel. rewrite Hnd, Ha, Hp. cbn [negb]. do 2 f_equal.
  unfold Sel.per_pixel_fill, Sel.pixel_column, Sel.nmodels, residuals.
  rewrite Hsh. cbn [hd]. f_equal.
  apply (filled_is_broadcast (Sel.npix c) g (resid c (arr mg))).
  now rewrite length_map, length_seq.
Qed.

(** With a grid held in memory and no failing allocation, both the
    broadcast and the per-pixel tier bind [residual_rms] to the array of
    the residuals. *)
Lemma residual_stage_completes (e : env) (mg : marray) (sn : option Q)
    (pb : nat) (mem : Z) (s : SubCube) (g k : nat) :
  shape (arr mg) = [g; k] -> is_ndarray mg = true -> no_allocation_fails e ->
  residual_stage e mg sn pb mem s
  = (Ok (mk_locals (Some (residuals (cube s) (arr mg) g)) None),
     if (mem <? threshold s (arr mg))%Z then add_log low_memory_warning s
     else s).
Proof.
  intros Hsh Hnd (Hb & Ha & Hp).
  destruct (Z.ltb_spec mem (threshold s (arr mg))).
  - rewrite residual_stage_low by assumption.
    now rewrite (per_pixel_residuals e (cube s) mg g k).
  - rewrite residual_stage_high by assumption.
    now rewrite (broadcast_residuals e (cube s) (arr mg) g k).
Qed.



(** ** The order of the values that are not [nan] *)












Lemma nth_map_seq {A} (F : nat -> A) (n i : nat) (d : A) :
  i < n -> nth i (map F (seq 0 n)) d = F i.
Proof.
  intros Hi. rewrite (nth_indep _ d (F 0)) by (rewrite length_map, length_seq; lia).
  now rewrite (map_nth F), seq_nth by lia.
Qed.



(** * Runs of [best_guess] that complete *)




(** ** Steps of a run *)

Lemma bind_get_self {B} (k : SubCube -> M B) (s : SubCube) :
  bind get_self k s = k s s.
Proof. reflexivity. Qed.

Lemma bind_ret {A B} (a : A) (k : A -> M B) (s : SubCube) :
  bind (ret a) k s = k a s.
Proof. reflexivity. Qed.

Lemma bind_modify {B} (f : SubCube -> SubCube) (k : unit -> M B)
    (s : SubCube) :
  bind (modify f) k s = k tt (f s).
Proof. reflexivity. Qed.

Lemma bind_log {B} (lv : level) (msg : string) (k : unit -> M B)
    (s : SubCube) :
  bind (log_msg lv msg) k s = k tt (add_log (lv, msg) s).
Proof. reflexivity. Qed.

Lemma bind_lift {A B} (r : res A) (a : A) (k : A -> M B) (s : SubCube) :
  r = Ok a -> bind (lift r) k s = k a s.
Proof. now intros ->. Qed.

Lemma bind_lift_raise {A B} (r : res A) (x : exn) (k : A -> M B)
    (s : SubCube) :
  r = Raise x -> bind (lift r) k s = (Raise x, s).
Proof. now intros ->. Qed.

Lemma bind_local {A B} (a : A) (k : A -> M B) (s : SubCube) :
  bind (local (Some a)) k s = k a s.
Proof. reflexivity. Qed.

Lemma bind_attr {A B} (a : A) (k : A -> M B) (s : SubCube) :
  bind (attr (Some a)) k s = k a s.
Proof. reflexivity. Qed.

Lemma bind_attr_none {A B} (k : A -> M B) (s : SubCube) :
  bind (attr None) k s = (Raise AttributeError, s).
Proof. reflexivity. Qed.

Lemma bind_raise {A B} (x : exn) (k : A -> M B) (s : SubCube) :
  bind (raise x) k s = (Raise x, s).
Proof. reflexivity. Qed.





(** ** Up to the selection, [best_guess] writes to the log only *)

Lemma nested_attributes mg sn pb s :
  without_log (snd (nested mg sn pb s)) = without_log s.
Proof.
  unfold nested, bind, log_msg, modify, get_self, attr, lift, ret, raise.
  cbn beta iota.
  destruct sn as [cut|]; [destruct (truthy (Some cut))|]; cbn beta iota;
    try (match goal with
         | |- context [match snr_map ?x with _ => _ end] =>
             destruct (snr_map x)
         end; cbn beta iota);
    try reflexivity;
    match goal with
    | |- context [Grid.mapM_res ?f ?l] => destruct (Grid.mapM_res f l)
    end; reflexivity.
Qed.

Lemma residual_stage_attributes e mg sn pb mem s :
  without_log (snd (residual_stage e mg sn pb mem s)) = without_log s.
Proof.
  destruct (Z.ltb_spec mem (threshold s (arr mg))) as [H|H].
  - rewrite residual_stage_low by assumption.
    destruct (Sel.per_pixel e (cube s) mg) as [r [|]]; [|reflexivity].
    pose proof (nested_attributes (arr mg) sn pb (add_log low_memory_warning s))
      as E.
    unfold bind.
    destruct (nested (arr mg) sn pb (add_log low_memory_warning s))
      as [[maps|x] s1]; exact E.
  - rewrite residual_stage_high by assumption.
    now destruct (Sel.broadcast _ _ _).
Qed.

Lemma at_residuals_attributes e s :
  without_log (at_residuals e s) = without_log s.
Proof.
  unfold at_residuals. now destruct (psutil_available e), (free_g e).
Qed.

Lemma residuals_attributes e mg sn pb mem s :
  without_log (snd (residual_stage e mg sn pb mem (at_residuals e s)))
  = without_log s.
Proof. now rewrite residual_stage_attributes, at_residuals_attributes. Qed.

Lemma accepted_2d (s : SubCube) (mg : marray) (g : nat) :
  shape (arr mg) = [g; nchan (cube s)] -> accepted s mg.
Proof.
  intros Hsh. unfold accepted. rewrite Hsh. cbn.
  split; [discriminate|]. split; [reflexivity|lia].
Qed.

Lemma residuals_frame (e : env) (mem : Z) (mg : marray) (s : SubCube) :
  let s1 := if (mem <? threshold (at_residuals e s) (arr mg))%Z
            then add_log low_memory_warning (at_residuals e s)
            else at_residuals e s in
  cube s1 = cube s /\ guess_grid s1 = guess_grid s /\
  snr_map s1 = snr_map s /\ _best_map s1 = _best_map s /\
  best_guesses s1 = best_guesses s /\ best_snr_guess s1 = best_snr_guess s.
Proof.
  cbv zeta. unfold at_residuals.
  destruct (_ <? _)%Z, (psutil_available e), (free_g e);
    repeat split; reflexivity.
Qed.






(** ** The guesses of the pixels *)

Lemma block_inv (gg : ndarray Q) (G P i : nat) (blk : list Q) :
  shape gg = [G; P] -> length (data gg) = G * P ->
  Pick.block gg i = Ok blk ->
  i < G /\ length blk = P /\
  forall k, k < P -> nth k blk 0%Q = nth (i * P + k) (data gg) 0%Q.
Proof.
  intros Hsh Hd. unfold Pick.block. rewrite Hsh.
  cbn [prod_nat fold_right]. rewrite Nat.mul_1_r.
  destruct (Nat.ltb_spec i G); [|discriminate]. intros [= <-].
  split; [assumption|]. split.
  - rewrite length_firstn, length_skipn, Hd.
    assert (S i * P <= G * P) by (apply Nat.mul_le_mono_r; lia).
    cbn in *. lia.
  - intros k Hk. rewrite nth_firstn, nth_skipn.
    apply Nat.ltb_lt in Hk. now rewrite Hk.
Qed.

(** X13: after a completed run of [best_guess], [best_guesses] is an array
    of shape [(P, Y, X)] that holds, for every pixel, the guess its
    best-model index selects: [best_guesses[k, y, x]] is
    [guess_grid[best_map[y, x], k]]. *)
Theorem best_guesses_hold_the_guess_of_each_pixel (e : env)
    (mgo : option marray) (sn ml : option Q) (ff : option marray) (pb : nat)
    (s s' : SubCube) (gg : ndarray Q) (G P : nat) :
  best_guess e mgo sn ml ff pb s = (Ok tt, s') ->
  guess_grid s = Some gg -> shape gg = [G; P] ->
  length (data gg) = G * P ->
  exists bm bg,
    _best_map s' = Some bm /\ best_guesses s' = Some bg /\
    shape bg = [P; ny (cube s); nx (cube s)] /\
    forall k p, k < P -> p < ny (cube s) * nx (cube s) ->
      nth (k * (ny (cube s) * nx (cube s)) + p) (data bg) 0%Q
      = nth (nth p (cells bm) 0 * P + k) (data gg) 0%Q.
Proof.
  intros Hrun Hgg Hsh Hd.
  apply best_guess_ok in Hrun
    as (mg & l & s1 & pre & _ & _ & _ & Hsel & Hcube & Hgs & _).
  apply selection_ok in Hsel
    as (r & bm & rm & gg' & bgs & m & freq & v & last_event & _ & Hb & _
        & Hgg' & Hlook & _ & _ & Hbm & _ & Hbgs & _).
  rewrite Hgs, Hgg in Hgg'. injection Hgg' as <-.
  rewrite Hcube in Hb.
  destruct (argmin_axis0_cells _ _ _ _ Hb) as (Hrows & Hcols & Hlen & _).
  exists bm, bgs. split; [exact Hbm|]. split; [exact Hbgs|].
  unfold Pick.lookup_guesses in Hlook.
  destruct (Grid.mapM_res (Pick.block gg) (cells bm)) as [blocks|] eqn:Hblocks;
    [|discriminate].
  rewrite Hsh in Hlook. injection Hlook as <-.
  apply mapM_res_Forall2 in Hblocks.
  unfold Pick.rollaxis_last. cbn [shape data last removelast].
  rewrite Hrows, Hcols. split; [reflexivity|].
  intros k p Hk Hp.
  cbn [prod_nat fold_right]. rewrite Nat.mul_1_r.
  rewrite (nth_grid (fun j i => nth (i * P + j) (concat blocks) 0%Q))
    by assumption.
  assert (Hbl : length blocks = ny (cube s) * nx (cube s))
    by (apply Forall2_length in Hblocks; congruence).
  pose proof (Forall2_nth_rel _ _ _ p 0 [] Hblocks ltac:(lia)) as Hblk.
  cbv beta in Hblk.
  destruct (block_inv gg G P _ _ Hsh Hd Hblk) as (_ & _ & Hnth).
  rewrite (nth_concat_uniform _ P) by
    (try assumption; apply Forall_forall; intros blk Hin;
     apply (In_nth _ _ []) in Hin as (q & Hq & <-);
     pose proof (Forall2_nth_rel _ _ _ q 0 [] Hblocks Hq) as Hq';
     cbv beta in Hq';
     now destruct (block_inv gg G P _ _ Hsh Hd Hq') as (_ & ? & _)).
  now apply Hnth.
Qed.

(** ** The guess at the pixel of highest signal-to-noise ratio *)

Lemma selection_snr_guess (l : locals) (sn : option Q) (s s' : SubCube) :
  selection_stage l sn s = (Ok tt, s') ->
  match snr_map s with
  | None =>
      best_snr_guess s' = best_snr_guess s /\
      last (log s') (LInfo, ""%string) = snr_missing_warning
  | Some snr =>
      exists bm gg i j v,
        _best_map s' = Some bm /\ guess_grid s = Some gg /\
        F.argmax (cells snr) = Some i /\
        Pick.at_snr_index bm snr i = Ok j /\
        Pick.block gg j = Ok v /\
        best_snr_guess s' = Some v
  end.
Proof.
  unfold selection_stage. intros H.
  apply bind_ok in H as (a & s1 & H0 & H). apply get_self_ok in H0 as [-> ->].
  apply bind_ok in H as (r0 & s1 & Hr & H).
  apply bind_ok in H as (r & s2 & Hl & H). apply local_ok in Hl as [-> ->].
  assert (Hs1 : s1 = s).
  { destruct sn as [cut|]; [destruct (truthy (Some cut))|].
    - apply bind_ok in Hr as (snr & s3 & Ha & Hr).
      apply attr_ok in Ha as [_ ->].
      apply bind_ok in Hr as (r1 & s3 & Ha & Hr).
      apply local_ok in Ha as [_ ->].
      apply bind_ok in Hr as (r2 & s3 & Ha & Hr).
      apply lift_ok in Ha as [_ ->]. now apply ret_ok in Hr as [_ ->].
    - now apply ret_ok in Hr as [_ ->].
    - now apply ret_ok in Hr as [_ ->]. }
  subst s1. clear Hr.
  apply bind_ok in H as (bm & s1 & Hb & H). apply lift_ok in Hb as [Hb ->].
  apply bind_ok in H as (rm & s1 & Hrm & H). apply lift_ok in Hrm as [Hrm ->].
  apply bind_ok in H as (u1 & s1 & E1 & H). apply modify_ok in E1 as ->.
  apply bind_ok in H as (u2 & s1 & E2 & H). apply modify_ok in E2 as ->.
  apply bind_ok in H as (g & s1 & Hg & H).
  destruct (guess_grid s) as [g'|] eqn:Eg; [|discriminate].
  apply ret_ok in Hg as [-> ->].
  apply bind_ok in H as (bgs & s1 & Hbg & H). apply lift_ok in Hbg as [Hbg ->].
  apply bind_ok in H as (u3 & s1 & E3 & H). apply modify_ok in E3 as ->.
  apply bind_ok in H as ([m freq] & s1 & Hmode & H).
  apply lift_ok in Hmode as [Hmode ->].
  apply bind_ok in H as (u4 & s1 & Hw & H).
  apply bind_ok in H as (u5 & s2 & E5 & H). apply modify_ok in E5 as ->.
  apply bind_ok in H as (v & s2 & Hv & H). apply lift_ok in Hv as [Hv ->].
  apply bind_ok in H as (u6 & s2 & E6 & H). apply modify_ok in E6 as ->.
  apply bind_ok in H as (u7 & s2 & E7 & H). apply log_msg_ok in E7 as ->.
  rename Hw into Hw0.
  assert (Hs1 : best_snr_guess s1 = best_snr_guess s).
  { destruct (F.Qltb _ _).
    - now apply log_msg_ok in Hw0 as ->.
    - now apply ret_ok in Hw0 as [_ ->]. }
  unfold try_except in H.
  match type of H with
  | context [bind ?a ?k ?st] => destruct (bind a k st) as [[u|x] s3] eqn:Eb
  end.
  - assert (s3 = s') by congruence. subst s3. clear H.
    apply bind_ok in Eb as (snr & s4 & Ha & Eb).
    apply attr_ok in Ha as [Ha ->]. rewrite Ha.
    apply bind_ok in Eb as (i & s4 & Hi & Eb).
    destruct (F.argmax (cells snr)) as [i'|]; [|discriminate].
    apply ret_ok in Hi as [-> ->].
    apply bind_ok in Eb as (j & s4 & Hj & Eb). apply lift_ok in Hj as [Hj ->].
    apply bind_ok in Eb as (w & s4 & Hw & Eb). apply lift_ok in Hw as [Hw ->].
    apply bind_ok in Eb as (u8 & s4 & E8 & Eb). apply modify_ok in E8 as ->.
    apply log_msg_ok in Eb as ->.
    exists bm, g', i', j, w. repeat split; try assumption.
    destruct (F.Qltb _ _);
      [apply log_msg_ok in Hw0 as ->|apply ret_ok in Hw0 as [_ ->]];
      reflexivity.
  - destruct x; try discriminate. cbn [exn_eqb] in H.
    apply log_msg_ok in H as ->.
    destruct (snr_map s) as [snr|] eqn:Esnr.
    + exfalso. revert Eb. rewrite bind_attr. intros Eb.
      assert (R : raises_only (not_exn AttributeError)
                    (best_snr <-
                       match F.argmax (cells snr) with
                       | Some i => ret i
                       | None => raise ValueError
                       end ;;
                     i <- lift (Pick.at_snr_index bm snr best_snr) ;;
                     v0 <- lift (Pick.block g' i) ;;
                     modify (set_best_snr_guess v0) ;;
                     log_msg LInfo "Best model @ highest SNR"))
        by never_raises.
      now apply R in Eb.
    + injection Eb as <-. split; [exact Hs1|].
      cbn [log add_log]. now rewrite last_last.
Qed.

(** X14: a completed run of [best_guess] stores as [best_snr_guess] the
    guess selected for the pixel where [np.argmax] finds the highest
    signal-to-noise ratio.  On an object without SNR map the run still
    completes: it logs a warning and leaves [best_snr_guess] as it
    was. *)
Theorem best_snr_guess_is_the_guess_at_the_peak (e : env)
    (mgo : option marray) (sn ml : option Q) (ff : option marray) (pb : nat)
    (s s' : SubCube) :
  best_guess e mgo sn ml ff pb s = (Ok tt, s') ->
  snr_map_fits s ->
  match snr_map s with
  | None =>
      best_snr_guess s' = best_snr_guess s /\
      In snr_missing_warning (new_log s s')
  | Some snr =>
      exists bm gg i v,
        _best_map s' = Some bm /\ guess_grid s = Some gg /\
        F.argmax (cells snr) = Some i /\
        Pick.block gg (nth i (cells bm) 0) = Ok v /\
        best_snr_guess s' = Some v
  end.
Proof.
  intros Hrun Hfit.
  apply best_guess_ok in Hrun
    as (mg & l & s1 & pre & _ & _ & Hst & Hsel & Hcube & Hgs & Hsnr & Hlog & _).
  pose proof (selection_snr_guess _ _ _ _ Hsel) as Hguess.
  apply selection_ok in Hsel
    as (r & bm & rm & gg' & bgs & m & freq & v & last_event & _ & Hb & _
        & _ & _ & _ & _ & Hbm & _ & _ & _ & _ & Hlog' & _).
  rewrite Hsnr in Hguess. unfold snr_map_fits in Hfit.
  destruct (snr_map s) as [snr|].
  - destruct Hguess as (bm' & gg & i & j & w & Hbm' & Hgg & Hi & Hat & Hblk & Hw).
    rewrite Hbm in Hbm'. injection Hbm' as <-.
    exists bm, gg, i, w. split; [exact Hbm|]. split; [congruence|].
    split; [exact Hi|]. split; [|exact Hw].
    destruct Hfit as (Hsr & Hsc & Hsl).
    destruct (argmin_axis0_cells _ _ _ _ Hb) as (Hrows & Hcols & _).
    rewrite Hcube in Hrows, Hcols.
    unfold Pick.at_snr_index in Hat. rewrite Hsc, Hcols in Hat.
    destruct (_ && _) eqn:E; [|discriminate]. injection Hat as <-.
    apply andb_true_iff in E as [_ E]. apply Nat.ltb_lt in E.
    replace (i / nx (cube s) * nx (cube s) + i mod nx (cube s)) with i
      in Hblk by (pose proof (Nat.div_mod_eq i (nx (cube s))); lia).
    exact Hblk.
  - destruct Hguess as [Hkeep Hlast].
    pose proof (residuals_attributes e mg sn pb (memory_bytes e ml) s) as Hat.
    rewrite Hst in Hat. cbn [snd] in Hat.
    apply (f_equal best_snr_guess) in Hat. cbn [best_snr_guess without_log] in Hat.
    split; [congruence|].
    assert (Hl : last_event = snr_missing_warning).
    { rewrite Hlog' in Hlast.
      change [(LInfo, "Overall best model"%string); last_event]
        with ([(LInfo, "Overall best model"%string)] ++ [last_event]) in Hlast.
      now rewrite !app_assoc, last_last in Hlast. }
    rewrite Hlog, <- !app_assoc in Hlog'.
    rewrite (new_log_app _ _ _ Hlog').
    apply in_or_app. right. apply in_or_app. right.
    rewrite Hl. right. now left.
Qed.

(** ** What a cutoff needs *)

Lemma truthy_nonzero (q : Q) : ~ (q == 0)%Q -> truthy (Some q) = true.
Proof.
  intros H. unfold truthy. apply negb_true_iff.
  destruct (Qeq_bool q 0) eqn:E; [|reflexivity].
  apply Qeq_bool_iff in E. contradiction.
Qed.

Lemma selection_without_snr (l : locals) (q : Q) (s : SubCube) :
  truthy (Some q) = true -> snr_map s = None ->
  selection_stage l (Some q) s = (Raise AttributeError, s).
Proof.
  intros Ht Hs. unfold selection_stage.
  rewrite bind_get_self. cbv zeta. rewrite Ht, Hs.
  unfold bind at 1. now rewrite bind_attr_none.
Qed.

Lemma nested_without_snr (mg : ndarray Q) (q : Q) (pb : nat) (s : SubCube) :
  truthy (Some q) = true -> snr_map s = None ->
  nested mg (Some q) pb s = (Raise AttributeError, add_log nested_warning s).
Proof.
  intros Ht Hs. unfold nested.
  rewrite bind_log, bind_get_self, Ht.
  cbn [snr_map add_log]. rewrite Hs.
  unfold bind at 1. now rewrite bind_attr_none.
Qed.

(** X15: a cutoff needs the SNR map.  With a cutoff that is not zero on an
    object without SNR map, [best_guess] raises [AttributeError] in
    every tier, having written to the log only. *)
Theorem cutoff_needs_an_snr_map (e : env) (mgo : option marray) (q : Q)
    (ml : option Q) (ff : option marray) (pb : nat) (s : SubCube)
    (mg : marray) (g : nat) :
  fst (resolve_model_grid mgo ff s) = Ok mg ->
  shape (arr mg) = [g; nchan (cube s)] ->
  ~ (q == 0)%Q -> snr_map s = None -> oom_broadcast e = false ->
  let run := best_guess e mgo (Some q) ml ff pb s in
  fst run = Raise AttributeError /\
  without_log (snd run) = without_log s.
Proof.
  intros Hmg Hsh Hq Hsnr Hoom. cbv zeta.
  apply truthy_nonzero in Hq.
  rewrite (best_guess_accepted e mgo (Some q) ml ff pb s mg Hmg
             (accepted_2d s mg g Hsh)).
  set (s0 := at_residuals e s).
  assert (Hs0 : snr_map s0 = None).
  { pose proof (at_residuals_attributes e s) as E.
    apply (f_equal snr_map) in E. cbn [snr_map without_log] in E.
    unfold s0. congruence. }
  assert (H0 : without_log s0 = without_log s)
    by apply at_residuals_attributes.
  assert (Hrun : exists s',
             bind (residual_stage e mg (Some q) pb (memory_bytes e ml))
                  (fun l => selection_stage l (Some q)) s0
             = (Raise AttributeError, s') /\
             without_log s' = without_log s).
  { destruct (Z.ltb_spec (memory_bytes e ml) (threshold s0 (arr mg))) as [H|H].
    - unfold bind at 1. rewrite residual_stage_low by assumption.
      destruct (Sel.per_pixel e (cube s0) mg) as [r [|]].
      + unfold bind. rewrite nested_without_snr by assumption.
        eexists. split; [reflexivity|exact H0].
      + rewrite selection_without_snr by assumption.
        eexists. split; [reflexivity|exact H0].
    - unfold bind at 1. rewrite residual_stage_high by assumption.
      rewrite (broadcast_residuals e (cube s0) (arr mg) g (nchan (cube s)))
        by assumption.
      rewrite selection_without_snr by assumption.
      eexists. split; [reflexivity|exact H0]. }
  destruct Hrun as (s' & -> & Hs'). split; [reflexivity|exact Hs'].
Qed.

(** X16: the mask of a cutoff is built with one layer per channel and laid
    over the residuals, which have one layer per model.  With a cutoff
    that is not zero, [best_guess] on a grid held in memory therefore
    raises [IndexError] whenever the number of models differs from the
    number of channels, having written to the log only. *)
Theorem cutoff_needs_as_many_models_as_channels (e : env)
    (mgo : option marray) (q : Q) (ml : option Q) (ff : option marray)
    (pb : nat) (s : SubCube) (mg : marray) (g : nat) (snr : map2 fval) :
  fst (resolve_model_grid mgo ff s) = Ok mg ->
  shape (arr mg) = [g; nchan (cube s)] -> is_ndarray mg = true ->
  no_allocation_fails e ->
  ~ (q == 0)%Q -> snr_map s = Some snr ->
  g <> nchan (cube s) ->
  let run := best_guess e mgo (Some q) ml ff pb s in
  fst run = Raise IndexError /\
  without_log (snd run) = without_log s.
Proof.
  intros Hmg Hsh Hnd He Hq Hsnr Hg. cbv zeta.
  apply truthy_nonzero in Hq.
  rewrite (best_guess_accepted e mgo (Some q) ml ff pb s mg Hmg
             (accepted_2d s mg g Hsh)).
  rewrite (bind_run _ _ _ _ _
             (residual_stage_completes e mg (Some q) pb _ _ g _ Hsh Hnd He)).
  destruct (residuals_frame e (memory_bytes e ml) mg s)
    as (Hc & _ & Hs & _).
  cbv zeta in Hc, Hs.
  match goal with
  | |- context [selection_stage _ _ ?st] => set (s1 := st) in *
  end.
  assert (H1 : without_log s1 = without_log s).
  { unfold s1. destruct (_ <? _)%Z; apply at_residuals_attributes. }
  assert (Hrun : selection_stage
                   (mk_locals (Some (residuals (cube (at_residuals e s))
                                               (arr mg) g)) None)
                   (Some q) s1
                 = (Raise IndexError, s1)).
  { unfold selection_stage.
    rewrite bind_get_self. cbv zeta. rewrite Hq, Hs, Hsnr.
    unfold bind at 1.
    rewrite bind_attr. cbn [residual_rms]. rewrite bind_local.
    rewrite (bind_lift_raise _ IndexError); [reflexivity|].
    unfold Pick.mask_assign, Pick.get_slice_mask, Pick.snr_mask.
    cbn [residuals shape rows cols].
    rewrite shape_eqb_neq by (rewrite Hc; congruence).
    reflexivity. }
  rewrite Hrun. split; [reflexivity|exact H1].
Qed.

(** ** Refusals before any computation *)

(** X17: [best_guess] refuses what it cannot work on before it computes or
    logs anything, and leaves the object untouched: [TypeError] when no
    model grid is given, named or stored, [ValueError] when the last axis
    of the grid is not the spectral axis of the cube. *)
Theorem best_guess_refuses_before_computing (e : env) (sn ml : option Q)
    (pb : nat) (s : SubCube) :
  (model_grid s = None ->
   best_guess e None sn ml None pb s = (Raise TypeError, s)) /\
  (forall mgo ff mg,
      fst (resolve_model_grid mgo ff s) = Ok mg ->
      shape (arr mg) <> [] ->
      last (shape (arr mg)) 0 <> nchan (cube s) ->
      best_guess e mgo sn ml ff pb s = (Raise ValueError, s)).
Proof.
  split.
  - intros Hm. unfold best_guess, resolve_model_grid.
    rewrite bind_get_self. unfold bind at 1. rewrite bind_get_self, Hm.
    reflexivity.
  - intros mgo ff mg Hmg Hne Hl.
    unfold best_guess. rewrite bind_get_self.
    destruct (resolve_model_grid mgo ff s) as [r s0] eqn:Er.
    pose proof (resolve_state mgo ff s) as Hs0. rewrite Er in Hs0.
    cbn [fst snd] in Hmg, Hs0. subst r s0.
    rewrite (bind_run _ _ _ _ _ Er).
    destruct (shape (arr mg)) as [|d sh] eqn:Esh; [congruence|].
    apply Nat.eqb_neq in Hl. rewrite Hl. reflexivity.
Qed.

(** ** The log only grows *)

Lemma extends_bind {A B} (m : M A) (k : A -> M B) :
  log_extends m -> (forall a, log_extends (k a)) -> log_extends (bind m k).
Proof.
  intros Hm Hk s. unfold bind. destruct (Hm s) as (ev1 & E1).
  destruct (m s) as [[a|x] s1]; cbn [snd] in E1.
  - destruct (Hk a s1) as (ev2 & E2). exists (ev1 ++ ev2).
    now rewrite E2, E1, app_assoc.
  - now exists ev1.
Qed.

Lemma extends_pure {A} (r : res A) : log_extends (fun s => (r, s)).
Proof. intros s. exists []. now rewrite app_nil_r. Qed.

Lemma extends_log (lv : level) (msg : string) : log_extends (log_msg lv msg).
Proof. intros s. now exists [(lv, msg)]. Qed.

Lemma extends_set (f : SubCube -> SubCube) :
  (forall s, log (f s) = log s) -> log_extends (modify f).
Proof. intros H s. exists []. cbn. now rewrite H, app_nil_r. Qed.

Lemma extends_try {A} (body handler : M A) (x : exn) :
  log_extends body -> log_extends handler ->
  log_extends (try_except body x handler).
Proof.
  intros Hb Hh s. unfold try_except. destruct (Hb s) as (ev1 & E1).
  destruct (body s) as [[a|y] s1]; cbn [snd] in E1.
  - now exists ev1.
  - destruct (exn_eqb x y).
    + destruct (Hh s1) as (ev2 & E2). exists (ev1 ++ ev2).
      now rewrite E2, E1, app_assoc.
    + now exists ev1.
Qed.

Ltac log_grows :=
  repeat
    match goal with
    | |- forall _, log_extends _ => intro
    | |- log_extends (bind _ _) => apply extends_bind
    | |- log_extends (ret _) => apply extends_pure
    | |- log_extends (raise _) => apply extends_pure
    | |- log_extends (lift _) => apply extends_pure
    | |- log_extends get_self => intros ?; exists []; now rewrite app_nil_r
    | |- log_extends (attr ?o) => destruct o; apply extends_pure
    | |- log_extends (local ?o) => destruct o; apply extends_pure
    | |- log_extends (log_msg _ _) => apply extends_log
    | |- log_extends (modify _) => apply extends_set; reflexivity
    | |- log_extends (try_except _ _ _) => apply extends_try
    | |- log_extends (match ?x with _ => _ end) => destruct x
    | |- log_extends (if ?x then _ else _) => destruct x
    end.

Lemma selection_extends (l : locals) (sn : option Q) :
  log_extends (selection_stage l sn).
Proof. unfold selection_stage. log_grows. Qed.

Lemma nested_extends (mg : ndarray Q) (sn : option Q) (pb : nat) :
  log_extends (nested mg sn pb).
Proof. unfold nested. log_grows. Qed.

Lemma residual_stage_extends e mg sn pb mem :
  log_extends (residual_stage e mg sn pb mem).
Proof.
  unfold residual_stage. log_grows. apply nested_extends.
Qed.

Lemma extends_keeps {A} (m : M A) (s : SubCube) (ev : event) :
  log_extends m -> In ev (log s) -> In ev (log (snd (m s))).
Proof.
  intros H Hin. destruct (H s) as (evs & ->). apply in_or_app. now left.
Qed.

Lemma bind_keeps {A B} (m : M A) (k : A -> M B) (s : SubCube) (ev : event) :
  (forall a, log_extends (k a)) ->
  In ev (log (snd (m s))) -> In ev (log (snd (bind m k s))).
Proof.
  intros Hk Hin. unfold bind. destruct (m s) as [[a|x] s1]; cbn [snd] in *.
  - now apply extends_keeps.
  - exact Hin.
Qed.

Lemma Qfloor_fraction (l : Q) : (0 < l)%Q -> (l < 1)%Q -> Qfloor l = 0%Z.
Proof.
  intros H0 H1.
  pose proof (Qfloor_le l) as Hle. pose proof (Qlt_floor l) as Hlt.
  assert (Ha : (-1 < Qfloor l)%Z).
  { rewrite Zlt_Qlt. rewrite inject_Z_plus in Hlt.
    change (inject_Z (-1)) with (-1)%Q. change (inject_Z 1) with 1%Q in Hlt.
    lra. }
  assert (Hb : (Qfloor l < 1)%Z).
  { rewrite Zlt_Qlt. change (inject_Z 1) with 1%Q. lra. }
  lia.
Qed.

(** ** The memory taken as available when [psutil] is missing *)

(** X18: without [psutil] the memory limit of the caller, read in GB, is
    cut to whole gigabytes: a limit below 1 GB counts as no memory at
    all, so that [best_guess] leaves the broadcast for the slower tiers
    whatever the size of the grid.  When [free -g] cannot be read either,
    8 GB are assumed where no limit is given, and the warning is logged
    in any case. *)
Theorem memory_limit_without_psutil (e : env) (mgo : option marray)
    (sn ml : option Q) (ff : option marray) (pb : nat) (s : SubCube)
    (mg : marray) (g : nat) :
  psutil_available e = None ->
  fst (resolve_model_grid mgo ff s) = Ok mg ->
  shape (arr mg) = [g; nchan (cube s)] ->
  let run := best_guess e mgo sn ml ff pb s in
  (forall l, ml = Some l -> (0 < l)%Q ->
             memory_bytes e ml = (Qfloor l * 2 ^ 30)%Z) /\
  (ml = None -> free_g e = None -> memory_bytes e ml = (8 * 2 ^ 30)%Z) /\
  (free_g e = None -> In free_ram_warning (log (snd run))) /\
  (forall l, ml = Some l -> (0 < l)%Q -> (l < 1)%Q ->
             (0 < threshold s (arr mg))%Z ->
             In low_memory_warning (log (snd run))).
Proof.
  intros Hps Hmg Hsh. cbv zeta.
  assert (Hmem : forall l, ml = Some l -> (0 < l)%Q ->
             memory_bytes e ml = (Qfloor l * 2 ^ 30)%Z).
  { intros l -> Hl. unfold memory_bytes. rewrite Hps.
    assert (Ht : truthy (Some l) = true)
      by (apply truthy_nonzero; intros E; rewrite E in Hl; lra).
    rewrite Ht. unfold int_of_Q.
    assert (Hb : Qle_bool 0 l = true) by (apply Qle_bool_iff; lra).
    now rewrite Hb. }
  rewrite (best_guess_accepted e mgo sn ml ff pb s mg Hmg
             (accepted_2d s mg g Hsh)).
  split; [exact Hmem|]. split; [|split].
  - intros -> Hf. unfold memory_bytes. rewrite Hps, Hf. reflexivity.
  - intros Hf. apply bind_keeps; [intros; apply selection_extends|].
    apply extends_keeps; [apply residual_stage_extends|].
    unfold at_residuals. rewrite Hps, Hf. cbn [log add_log].
    apply in_or_app. right. now left.
  - intros l El Hl0 Hl1 Hthr.
    apply bind_keeps; [intros; apply selection_extends|].
    rewrite (Hmem l El Hl0), Qfloor_fraction by assumption.
    rewrite residual_stage_low
      by (rewrite threshold_at_residuals; cbn; lia).
    destruct (Sel.per_pixel e (cube (at_residuals e s)) mg) as [r [|]].
    + apply bind_keeps; [intros; apply extends_pure|].
      apply extends_keeps; [apply nested_extends|].
      cbn [log add_log]. apply in_or_app. right. now left.
    + cbn [snd log add_log]. apply in_or_app. right. now left.
Qed.

(** * Further properties of the estimator *)

Lemma set_slice_nth (low high : Z) (mask : list bool) (ch : nat) :
  ch < length mask ->
  nth ch (set_slice low high mask) false
  = ((slice_bound (length mask) low <=? Z.of_nat ch)%Z
     && (Z.of_nat ch <? slice_bound (length mask) high)%Z)
    || nth ch mask false.
Proof.
  intros Hch. rewrite set_slice_map.
  rewrite (nth_map_seq
             (fun p => if ((slice_bound (length mask) low <=? Z.of_nat p)%Z
                           && (Z.of_nat p <? slice_bound (length mask) high)%Z)
                       then true else nth p mask false)) by exact Hch.
  now destruct (_ && _).
Qed.

Section EstimatorRuns.

Variable unit_ok : string -> bool.
Variable x_to_pix : string -> Q -> Z.

(** The loop of [get_mask] on ranges given in pixels. *)
Lemma get_mask_pixel_fold (pairs : list (Q * Q)) (unit : string)
    (acc : M (list bool)) (m0 : list bool) (s : SubCube) :
  existsb (String.eqb unit) pixel_units = true ->
  acc s = (Ok m0, s) ->
  fold_left
    (fun (acc : M (list bool)) (lh : Q * Q) =>
       mask <- acc ;;
       '(index_low, index_high) <-
         (if negb (existsb (String.eqb unit) pixel_units) then
            if unit_ok unit
            then ret (x_to_pix unit (fst lh), x_to_pix unit (snd lh))
            else raise UnitConversionError
          else ret (int_of_Q (fst lh), int_of_Q (snd lh))) ;;
       ret (set_slice (Z.min index_low index_high)
                      (Z.max index_low index_high) mask))
    pairs acc s
  = (Ok (fold_left
           (fun m lh => set_slice (Z.min (int_of_Q (fst lh)) (int_of_Q (snd lh)))
                                  (Z.max (int_of_Q (fst lh)) (int_of_Q (snd lh)))
                                  m)
           pairs m0), s).
Proof.
  intros Hu. revert acc m0. induction pairs as [|lh pairs IH]; intros acc m0 Ha.
  - exact Ha.
  - cbn [fold_left]. apply IH. rewrite Hu. cbn [negb].
    rewrite (bind_run _ _ _ _ _ Ha). reflexivity.
Qed.

Lemma fold_set_slice_length (pairs : list (Q * Q)) (m0 : list bool) :
  length (fold_left
            (fun m lh => set_slice (Z.min (int_of_Q (fst lh)) (int_of_Q (snd lh)))
                                   (Z.max (int_of_Q (fst lh)) (int_of_Q (snd lh)))
                                   m)
            pairs m0) = length m0.
Proof.
  revert m0. induction pairs as [|lh pairs IH]; intros m0; [reflexivity|].
  cbn [fold_left]. now rewrite IH, set_slice_length.
Qed.

Lemma fold_set_slice_nth (pairs : list (Q * Q)) (m0 : list bool) (ch : nat) :
  ch < length m0 ->
  (nth ch (fold_left
             (fun m lh => set_slice (Z.min (int_of_Q (fst lh)) (int_of_Q (snd lh)))
                                    (Z.max (int_of_Q (fst lh)) (int_of_Q (snd lh)))
                                    m)
             pairs m0) false = true
   <-> nth ch m0 false = true \/
       exists lh, In lh pairs /\ in_slice (length m0) lh ch).
Proof.
  revert m0. induction pairs as [|lh pairs IH]; intros m0 Hch.
  - cbn. split; [auto|]. intros [H|(lh & [] & _)]. exact H.
  - cbn [fold_left]. rewrite IH by (now rewrite set_slice_length).
    rewrite set_slice_length, set_slice_nth by exact Hch.
    rewrite orb_true_iff, andb_true_iff, Z.leb_le, Z.ltb_lt.
    split.
    + intros [[H|H]|(lh' & Hin & H)].
      * right. exists lh. split; [now left|exact H].
      * now left.
      * right. exists lh'. split; [now right|exact H].
    + intros [H|(lh' & [<-|Hin] & H)].
      * left. now right.
      * left. left. exact H.
      * right. exists lh'. now split.
Qed.

(** X19: for ranges given in pixels, [get_mask] returns a mask of one entry
    per channel that marks exactly the channels of the ranges: the bounds
    of a range are cut to integers and put in increasing order, then
    taken as the bounds of a slice, and ranges beyond the shorter of the
    two lists are dropped.  The object is not touched. *)
Theorem get_mask_marks_the_ranges (lows highs : list Q) (unit : string)
    (s : SubCube) :
  In unit pixel_units ->
  exists mask,
    get_mask unit_ok x_to_pix lows highs unit s = (Ok mask, s) /\
    length mask = nchan (cube s) /\
    forall ch, ch < nchan (cube s) ->
      (nth ch mask false = true <->
       exists lh, In lh (combine lows highs) /\
                  in_slice (nchan (cube s)) lh ch).
Proof.
  intros Hu.
  assert (Hub : existsb (String.eqb unit) pixel_units = true).
  { apply existsb_exists. exists unit. split; [exact Hu|apply String.eqb_refl]. }
  eexists. split; [|split].
  - unfold get_mask. rewrite bind_get_self.
    now apply get_mask_pixel_fold.
  - now rewrite fold_set_slice_length, repeat_length.
  - intros ch Hch.
    rewrite fold_set_slice_nth by (now rewrite repeat_length).
    rewrite repeat_length, nth_repeat.
    split; [intros [H|H]; [discriminate|exact H]|auto].
Qed.

Lemma get_mask_swap_fold (pairs : list (Q * Q)) (unit : string)
    (acc acc' : M (list bool)) (s : SubCube) :
  acc s = acc' s ->
  fold_left
    (fun (acc : M (list bool)) (lh : Q * Q) =>
       mask <- acc ;;
       '(index_low, index_high) <-
         (if negb (existsb (String.eqb unit) pixel_units) then
            if unit_ok unit
            then ret (x_to_pix unit (fst lh), x_to_pix unit (snd lh))
            else raise UnitConversionError
          else ret (int_of_Q (fst lh), int_of_Q (snd lh))) ;;
       ret (set_slice (Z.min index_low index_high)
                      (Z.max index_low index_high) mask))
    pairs acc s
  = fold_left
      (fun (acc : M (list bool)) (lh : Q * Q) =>
         mask <- acc ;;
         '(index_low, index_high) <-
           (if negb (existsb (String.eqb unit) pixel_units) then
              if unit_ok unit
              then ret (x_to_pix unit (fst lh), x_to_pix unit (snd lh))
              else raise UnitConversionError
            else ret (int_of_Q (fst lh), int_of_Q (snd lh))) ;;
         ret (set_slice (Z.min index_low index_high)
                        (Z.max index_low index_high) mask))
      (map (fun lh => (snd lh, fst lh)) pairs) acc' s.
Proof.
  revert acc acc'. induction pairs as [|lh pairs IH]; intros acc acc' Ha.
  - exact Ha.
  - cbn [fold_left map fst snd]. apply IH.
    unfold bind. rewrite Ha. destruct (acc' s) as [[m|x] s1]; [|reflexivity].
    destruct (negb _); [destruct (unit_ok unit)|]; unfold ret, raise;
      try reflexivity; now rewrite Z.min_comm, Z.max_comm.
Qed.

Lemma combine_swap {A B} (a : list A) (b : list B) :
  combine b a = map (fun p => (snd p, fst p)) (combine a b).
Proof.
  revert b. induction a as [|x a IH]; intros [|y b]; cbn; try reflexivity.
  now rewrite IH.
Qed.

(** X20: [get_mask] sorts the bounds of every range, so a range may be
    given either way round: exchanging the array of starts with the
    array of ends gives the same outcome, in any unit. *)
Theorem get_mask_takes_ranges_either_way_round (lows highs : list Q)
    (unit : string) (s : SubCube) :
  get_mask unit_ok x_to_pix lows highs unit s
  = get_mask unit_ok x_to_pix highs lows unit s.
Proof.
  unfold get_mask. rewrite !bind_get_self.
  rewrite (combine_swap lows highs). now apply get_mask_swap_fold.
Qed.

(** X21: ranges in a unit that the spectral axis does not convert to are
    refused: [get_snr_map] raises the unit conversion error of the first
    range and stores nothing, neither masks nor maps. *)
Theorem unconvertible_ranges_are_refused (signal : list Q * list Q)
    (noise : option (list Q * list Q)) (unit : string)
    (noise_mask : option (list bool)) (s : SubCube) :
  ~ In unit pixel_units -> unit_ok unit = false ->
  combine (fst signal) (snd signal) <> [] ->
  get_snr_map unit_ok x_to_pix (Some signal) noise unit None noise_mask s
  = (Raise UnitConversionError, s).
Proof.
  intros Hu Hok Hne.
  assert (Hub : existsb (String.eqb unit) pixel_units = false).
  { apply not_true_iff_false. intros E. apply existsb_exists in E as (x & Hx & E).
    apply String.eqb_eq in E. subst x. contradiction. }
  assert (Hm : get_mask unit_ok x_to_pix (fst signal) (snd signal) unit s
               = (Raise UnitConversionError, s)).
  { unfold get_mask. rewrite bind_get_self.
    destruct (combine (fst signal) (snd signal)) as [|lh pairs]; [congruence|].
    cbn [fold_left]. rewrite Hub, Hok. cbn [negb].
    set (acc := (mask <- ret (repeat false (nchan (cube s))) ;;
                 ' (index_low, index_high) <- raise UnitConversionError ;;
                 ret (set_slice (Z.min index_low index_high)
                        (Z.max index_low index_high) mask))).
    assert (Ha : acc s = (Raise UnitConversionError, s)) by reflexivity.
    clearbody acc. clear Hne. revert acc Ha.
    induction pairs as [|lh' pairs IH]; intros acc Ha; [exact Ha|].
    cbn [fold_left]. apply IH. unfold bind. now rewrite Ha. }
  unfold get_snr_map. rewrite bind_get_self. cbv zeta.
  destruct signal as [lows highs]. cbn [fst snd] in *.
  destruct noise as [[nl nh]|]; cbn beta iota;
    unfold bind at 1; now rewrite Hm.
Qed.

End EstimatorRuns.

(** ** The signal map *)

Lemma Qmax_cases (x y : Q) : Qmax x y = x \/ Qmax x y = y.
Proof.
  unfold Qmax, GenericMinMax.gmax. destruct (x ?= y)%Q; auto.
Qed.

Lemma Qmax_list_spec (x : Q) (l : list Q) :
  In (Qmax_list x l) (x :: l) /\
  forall y, In y (x :: l) -> (y <= Qmax_list x l)%Q.
Proof.
  unfold Qmax_list. revert x. induction l as [|z l IH]; intros x.
  - cbn. split; [now left|]. intros y [<-|[]]. lra.
  - cbn [fold_left]. destruct (IH (Qmax x z)) as [Hin Hle]. split.
    + destruct Hin as [E|Hin]; [|right; now right].
      rewrite <- E. destruct (Qmax_cases x z) as [->| ->]; [now left|].
      right. now left.
    + intros y [E|[E|Hy]].
      * subst y. apply Qle_trans with (Qmax x z); [apply Q.le_max_l|].
        apply Hle. now left.
      * subst y. apply Qle_trans with (Qmax x z); [apply Q.le_max_r|].
        apply Hle. now left.
      * apply Hle. now right.
Qed.

Lemma select_channels_spec (c : cube3) (mask : list bool) :
  length mask = nchan c ->
  select_channels c mask
  = Ok (filter (fun ch => nth ch mask false) (seq 0 (nchan c))).
Proof.
  intros H. unfold select_channels. apply Nat.eqb_eq in H. now rewrite H.
Qed.

Lemma selected_iff (c : cube3) (mask : list bool) (ch : nat) :
  In ch (filter (fun ch => nth ch mask false) (seq 0 (nchan c)))
  <-> ch < nchan c /\ nth ch mask false = true.
Proof.
  rewrite filter_In, in_seq. intuition lia.
Qed.

(** X22: given a mask of one entry per channel, [get_signal_map] stores
    and returns, for every pixel, the largest flux among the channels
    the mask selects: the flux of one of these channels, not exceeded
    by any of them.  A mask that selects no channel is a [ValueError]. *)
Theorem signal_map_is_the_channel_maximum (mask : list bool) (s : SubCube) :
  length mask = nchan (cube s) ->
  (In true mask ->
   exists m,
     get_signal_map (Some mask) s = (Ok m, set_signal_map m s) /\
     rows m = ny (cube s) /\ cols m = nx (cube s) /\
     length (cells m) = ny (cube s) * nx (cube s) /\
     forall p, p < ny (cube s) * nx (cube s) ->
       (exists ch, ch < nchan (cube s) /\ nth ch mask false = true /\
                   nth p (cells m) 0%Q = flux_at (cube s) ch p) /\
       (forall ch, ch < nchan (cube s) -> nth ch mask false = true ->
                   (flux_at (cube s) ch p <= nth p (cells m) 0)%Q)) /\
  (~ In true mask ->
   get_signal_map (Some mask) s = (Raise ValueError, s)).
Proof.
  intros Hlen.
  unfold get_signal_map. rewrite bind_get_self, bind_ret.
  rewrite (bind_lift _ _ _ _ (select_channels_spec (cube s) mask Hlen)).
  pose proof (selected_iff (cube s) mask) as Hsel.
  destruct (filter _ _) as [|ch0 rest] eqn:Ef; split.
  - intros Hin. exfalso. apply (In_nth _ _ false) in Hin as (ch & Hch & E).
    apply (Hsel ch). split; [lia|exact E].
  - reflexivity.
  - intros _. eexists. split; [reflexivity|]. cbn [rows cols cells].
    split; [reflexivity|]. split; [reflexivity|].
    split; [now rewrite length_map, length_seq|].
    intros p Hp.
    rewrite (nth_map_seq
               (fun p => Qmax_list
                           (nth (ch0 * Sel.npix (cube s) + p) (flux (cube s)) 0%Q)
                           (map (fun ch => nth (ch * Sel.npix (cube s) + p)
                                               (flux (cube s)) 0%Q) rest)))
      by exact Hp.
    fold (flux_at (cube s) ch0 p).
    change (map (fun ch => nth (ch * Sel.npix (cube s) + p) (flux (cube s)) 0%Q)
                rest)
      with (map (fun ch => flux_at (cube s) ch p) rest).
    destruct (Qmax_list_spec (flux_at (cube s) ch0 p)
                (map (fun ch => flux_at (cube s) ch p) rest)) as [Hin Hle].
    change (flux_at (cube s) ch0 p :: map (fun ch => flux_at (cube s) ch p) rest)
      with (map (fun ch => flux_at (cube s) ch p) (ch0 :: rest)) in Hin, Hle.
    split.
    + apply in_map_iff in Hin as (ch & E & Hch).
      apply Hsel in Hch as [H1 H2]. exists ch. now rewrite E.
    + intros ch H1 H2. apply Hle.
      apply (in_map (fun ch => flux_at (cube s) ch p)). apply Hsel. auto.
  - intros Hn. exfalso. apply Hn.
    assert (Hch : In ch0 (ch0 :: rest)) by now left.
    apply Hsel in Hch as [H1 H2]. rewrite <- H2. apply nth_In. lia.
Qed.

(** X23: called without a mask, [get_signal_map] makes one up from the
    shape of the spectral axis, which has a single entry: after the
    warning it raises [IndexError] on every cube that has not exactly one
    channel, and stores no map. *)
Theorem signal_map_without_mask_needs_one_channel (s : SubCube) :
  nchan (cube s) <> 1 ->
  get_signal_map None s
  = (Raise IndexError, add_log no_signal_mask_warning s).
Proof.
  intros Hn. unfold get_signal_map.
  unfold bind, get_self, log_msg, modify, ret, lift, select_channels.
  cbn [length cube add_log].
  apply Nat.eqb_neq in Hn. rewrite Nat.eqb_sym, Hn. reflexivity.
Qed.

(** * The standard deviation *)
















(** ** The rms map and the map of signal-to-noise ratios *)

Lemma get_rms_map_run (mask : list bool) (s : SubCube) :
  length mask = nchan (cube s) ->
  get_rms_map (Some mask) s
  = let m := mk_map (ny (cube s)) (nx (cube s))
               (map (fun p => F.std (map (fun ch => flux_at (cube s) ch p)
                                         (filter (fun ch => nth ch mask false)
                                                 (seq 0 (nchan (cube s))))))
                    (seq 0 (Sel.npix (cube s)))) in
    (Ok m, set_rms_map m s).
Proof.
  intros Hlen. unfold get_rms_map. rewrite bind_get_self, bind_ret.
  rewrite (bind_lift _ _ _ _ (select_channels_spec (cube s) mask Hlen)).
  reflexivity.
Qed.

Lemma selected_some (c : cube3) (mask : list bool) :
  length mask = nchan c ->
  In true mask <-> filter (fun ch => nth ch mask false) (seq 0 (nchan c)) <> [].
Proof.
  intros Hlen. pose proof (selected_iff c mask) as Hsel. split.
  - intros Hin E. apply (In_nth _ _ false) in Hin as (ch & Hch & Et).
    assert (H : In ch []) by (rewrite <- E; apply Hsel; split; [lia|exact Et]).
    destruct H.
  - destruct (filter _ _) as [|ch0 rest]; [congruence|]. intros _.
    assert (Hch : In ch0 (ch0 :: rest)) by now left.
    apply Hsel in Hch as [H1 H2]. rewrite <- H2. apply nth_In. lia.
Qed.




Lemma default_cuts (n : nat) :
  9 <= n -> (0 <= i_low n /\ i_low n + 2 < i_high n /\ i_high n <= Z.of_nat n)%Z.
Proof.
  intros Hn. split; [apply i_low_nonneg|].
  unfold i_low, i_high, py_round.
  assert (H9 : (9 <= inject_Z (Z.of_nat n))%Q) by (rewrite <- (Zle_Qle 9); lia).
  rewrite (Zlt_Qlt (_ + 2)), (Zle_Qle _ (Z.of_nat n)), inject_Z_plus.
  generalize dependent (inject_Z (Z.of_nat n)). intros N H9.
  assert (Hl : (0 <= N * (33 # 100))%Q) by lra.
  assert (Hh : (0 <= N * (1 - (33 # 100)))%Q) by lra.
  apply Qle_bool_iff in Hl as ->. apply Qle_bool_iff in Hh as ->.
  pose proof (Qfloor_le (N * (33 # 100) + (1 # 2))) as L1.
  pose proof (Qfloor_le (N * (1 - (33 # 100)) + (1 # 2))) as H1.
  pose proof (Qlt_floor (N * (1 - (33 # 100)) + (1 # 2))) as H2.
  rewrite inject_Z_plus in H2.
  change (inject_Z 2) with 2%Q. change (inject_Z 1) with 1%Q in H2.
  generalize dependent (inject_Z (Qfloor (N * (33 # 100) + (1 # 2)))).
  generalize dependent (inject_Z (Qfloor (N * (1 - (33 # 100)) + (1 # 2)))).
  intros H_ ? ? L_ ?. split; lra.
Qed.

Lemma default_signal_mask_length (n : nat) :
  length (default_signal_mask n) = n.
Proof. unfold default_signal_mask. now rewrite length_map, length_seq. Qed.

Lemma default_noise_mask_length (n : nat) :
  length (default_noise_mask n) = n.
Proof. unfold default_noise_mask. now rewrite length_map, length_seq. Qed.

Lemma default_signal_mask_In (n : nat) :
  In true (default_signal_mask n)
  <-> exists ch, ch < n /\ in_range (i_low n + 1) (i_high n - 1) ch = true.
Proof.
  unfold default_signal_mask. rewrite in_map_iff. split.
  - intros (ch & E & Hch). apply in_seq in Hch. exists ch. split; [lia|exact E].
  - intros (ch & Hch & E). exists ch. split; [exact E|]. apply in_seq. lia.
Qed.

Lemma default_signal_mask_some (n : nat) :
  In true (default_signal_mask n) <-> ~ In n [0; 4; 6; 8].
Proof.
  destruct (le_lt_dec 9 n) as [H9|H9].
  - split; [intros _; cbn [In]; lia|intros _].
    destruct (default_cuts n H9) as (H0 & H1 & H2).
    apply default_signal_mask_In. exists (Z.to_nat (i_low n + 1)).
    split; [lia|]. unfold in_range.
    apply andb_true_iff. split; [apply Z.leb_le|apply Z.ltb_lt]; lia.
  - do 9 (destruct n as [|n]; [vm_compute; intuition congruence|]). lia.
Qed.

Section SnrRuns.

Variable unit_ok : string -> bool.
Variable x_to_pix : string -> Q -> Z.

Lemma get_snr_map_default (unit : string) (s : SubCube) :
  get_snr_map unit_ok x_to_pix None None unit None None s
  = get_snr_map unit_ok x_to_pix None None unit
      (Some (default_signal_mask (nchan (cube s))))
      (Some (default_noise_mask (nchan (cube s)))) s.
Proof.
  unfold get_snr_map. rewrite !bind_get_self. cbn [fst snd].
  fold (i_low (nchan (cube s))). fold (i_high (nchan (cube s))).
  unfold bind at 1. rewrite get_mask_pixel_one.
  unfold bind at 1.
  change (inject_Z 0) with (inject_Z 0%Z).
  rewrite get_mask_pixel_two.
  rewrite default_signal_slice, default_noise_slice.
  reflexivity.
Qed.

Lemma get_snr_map_masks (sg nz : option (list Q * list Q)) (unit : string)
    (ms mn : list bool) (s : SubCube) :
  get_snr_map unit_ok x_to_pix sg nz unit (Some ms) (Some mn) s
  = (sm <- get_signal_map (Some ms) ;;
     rm <- get_rms_map (Some mn) ;;
     let snr := mk_map (rows sm) (cols sm)
                  (map (fun sr => F.div (F.of_Q (fst sr)) (snd sr))
                       (combine (cells sm) (cells rm))) in
     modify (set_snr_map snr) ;; ret snr) (set_masks ms mn s).
Proof.
  unfold get_snr_map. rewrite bind_get_self.
  destruct sg as [sg|], nz as [nz|]; reflexivity.
Qed.

Lemma get_signal_map_frame (mask : list bool) (s : SubCube) :
  length mask = nchan (cube s) -> In true mask ->
  exists m,
    rows m = ny (cube s) /\ cols m = nx (cube s) /\
    length (cells m) = ny (cube s) * nx (cube s) /\
    forall s', cube s' = cube s ->
      get_signal_map (Some mask) s' = (Ok m, set_signal_map m s').
Proof.
  intros Hlen Hin.
  apply (selected_some (cube s) mask Hlen) in Hin.
  destruct (filter (fun ch => nth ch mask false) (seq 0 (nchan (cube s))))
    as [|ch0 rest] eqn:Ef; [congruence|].
  eexists (mk_map _ _ (map _ (seq 0 (Sel.npix (cube s))))).
  cbn [rows cols cells].
  split; [reflexivity|]. split; [reflexivity|].
  split; [now rewrite length_map, length_seq|].
  intros s' Hc. unfold get_signal_map. rewrite bind_get_self, bind_ret.
  rewrite Hc.
  rewrite (bind_lift _ _ _ _ (select_channels_spec (cube s) mask Hlen)).
  rewrite Ef. reflexivity.
Qed.

Lemma get_signal_map_empty (mask : list bool) (s : SubCube) :
  length mask = nchan (cube s) -> ~ In true mask ->
  get_signal_map (Some mask) s = (Raise ValueError, s).
Proof.
  intros Hlen Hno.
  pose proof (selected_some (cube s) mask Hlen) as Hs.
  unfold get_signal_map. rewrite bind_get_self, bind_ret.
  rewrite (bind_lift _ _ _ _ (select_channels_spec (cube s) mask Hlen)).
  destruct (filter _ _); [reflexivity|].
  exfalso. apply Hno, Hs. discriminate.
Qed.

Lemma get_rms_map_frame (mask : list bool) (s : SubCube) :
  length mask = nchan (cube s) ->
  exists m,
    length (cells m) = ny (cube s) * nx (cube s) /\
    forall s', cube s' = cube s ->
      get_rms_map (Some mask) s' = (Ok m, set_rms_map m s').
Proof.
  intros Hlen.
  eexists (mk_map _ _ (map _ (seq 0 (Sel.npix (cube s))))).
  cbn [cells]. split; [now rewrite length_map, length_seq|].
  intros s' Hc. rewrite get_rms_map_run by now rewrite Hc.
  cbv zeta. rewrite Hc. reflexivity.
Qed.

Lemma nth_ratio (a : list Q) (b : list fval) (p : nat) :
  p < length a -> length b = length a ->
  nth p (map (fun sr => F.div (F.of_Q (fst sr)) (snd sr)) (combine a b)) Nan
  = F.div (F.of_Q (nth p a 0%Q)) (nth p b Nan).
Proof.
  intros Hp Hl.
  rewrite (nth_indep _ Nan ((fun sr => F.div (F.of_Q (fst sr)) (snd sr))
                              (0%Q, Nan)))
    by (rewrite length_map, length_combine; lia).
  rewrite (map_nth (fun sr => F.div (F.of_Q (fst sr)) (snd sr))).
  now rewrite combine_nth by lia.
Qed.

(** X27: given its two masks, one entry per channel each and a signal
    channel selected, [get_snr_map] stores the masks and the three maps
    and returns, pixel by pixel, the ratio of what [get_signal_map] and
    [get_rms_map] give on these masks, whatever ranges and unit are passed
    along; it writes nothing to the log.  When the signal mask selects no
    channel it raises [ValueError] after storing the masks. *)
Theorem snr_map_is_signal_over_rms (sg nz : option (list Q * list Q))
    (unit : string) (ms mn : list bool) (s : SubCube) :
  length ms = nchan (cube s) -> length mn = nchan (cube s) ->
  (In true ms ->
   exists sm rm m,
     get_signal_map (Some ms) s = (Ok sm, set_signal_map sm s) /\
     get_rms_map (Some mn) s = (Ok rm, set_rms_map rm s) /\
     get_snr_map unit_ok x_to_pix sg nz unit (Some ms) (Some mn) s
     = (Ok m, set_snr_map m (set_rms_map rm (set_signal_map sm
                                               (set_masks ms mn s)))) /\
     rows m = ny (cube s) /\ cols m = nx (cube s) /\
     length (cells m) = ny (cube s) * nx (cube s) /\
     forall p, p < ny (cube s) * nx (cube s) ->
       nth p (cells m) Nan
       = F.div (F.of_Q (nth p (cells sm) 0%Q)) (nth p (cells rm) Nan)) /\
  (~ In true ms ->
   get_snr_map unit_ok x_to_pix sg nz unit (Some ms) (Some mn) s
   = (Raise ValueError, set_masks ms mn s)).
Proof.
  intros Hs Hn. rewrite get_snr_map_masks. split.
  - intros Hin.
    destruct (get_signal_map_frame ms s Hs Hin) as (sm & Hr & Hc & Hl & Hsm).
    destruct (get_rms_map_frame mn s Hn) as (rm & Hl' & Hrm).
    exists sm, rm. eexists.
    split; [now apply Hsm|]. split; [now apply Hrm|].
    unfold bind at 1. rewrite (Hsm (set_masks ms mn s) eq_refl).
    unfold bind at 1. rewrite (Hrm (set_signal_map sm (set_masks ms mn s)) eq_refl).
    cbv zeta. rewrite bind_modify.
    split; [reflexivity|]. cbn [rows cols cells].
    split; [exact Hr|]. split; [exact Hc|].
    split; [rewrite length_map, length_combine; lia|].
    intros p Hp. apply nth_ratio; lia.
  - intros Hno.
    unfold bind at 1.
    now rewrite (get_signal_map_empty ms (set_masks ms mn s) Hs Hno).
Qed.

Lemma default_snr_run (unit : string) (s : SubCube) :
  ~ In (nchan (cube s)) [0; 4; 6; 8] ->
  exists sm rm m,
    get_snr_map unit_ok x_to_pix None None unit None None s
    = (Ok m, set_snr_map m
               (set_rms_map rm
                  (set_signal_map sm
                     (set_masks (default_signal_mask (nchan (cube s)))
                                (default_noise_mask (nchan (cube s))) s)))) /\
    rows m = ny (cube s) /\ cols m = nx (cube s) /\
    length (cells m) = ny (cube s) * nx (cube s) /\
    forall p, p < ny (cube s) * nx (cube s) ->
      nth p (cells m) Nan
      = F.div (F.of_Q (nth p (cells sm) 0%Q)) (nth p (cells rm) Nan).
Proof.
  intros Hout. rewrite get_snr_map_default, get_snr_map_masks.
  set (ms := default_signal_mask (nchan (cube s))).
  set (mn := default_noise_mask (nchan (cube s))).
  assert (Hs : length ms = nchan (cube s)) by apply default_signal_mask_length.
  assert (Hn : length mn = nchan (cube s)) by apply default_noise_mask_length.
  apply (default_signal_mask_some (nchan (cube s))) in Hout. fold ms in Hout.
  destruct (get_signal_map_frame ms s Hs Hout) as (sm & Hr & Hc & Hl & Hsm).
  destruct (get_rms_map_frame mn s Hn) as (rm & Hl' & Hrm).
  exists sm, rm. eexists.
  unfold bind at 1. rewrite (Hsm (set_masks ms mn s) eq_refl).
  unfold bind at 1.
  rewrite (Hrm (set_signal_map sm (set_masks ms mn s)) eq_refl).
  cbv zeta. rewrite bind_modify.
  split; [reflexivity|]. cbn [rows cols cells].
  split; [exact Hr|]. split; [exact Hc|].
  split; [rewrite length_map, length_combine; lia|].
  intros p Hp. apply nth_ratio; lia.
Qed.

(** X28: called without ranges and without masks, [get_snr_map] completes
    on every cube except those of 0, 4, 6 or 8 channels: there the default
    signal range [[i_low + 1, i_high - 1)] is empty and the call raises
    [ValueError], the two default masks stored but no map.  On the other
    cubes it stores and returns a map of one ratio per pixel and writes
    nothing to the log. *)
Theorem default_snr_map_needs_a_signal_channel (unit : string) (s : SubCube) :
  let run := get_snr_map unit_ok x_to_pix None None unit None None s in
  (In (nchan (cube s)) [0; 4; 6; 8] ->
   run = (Raise ValueError,
          set_masks (default_signal_mask (nchan (cube s)))
                    (default_noise_mask (nchan (cube s))) s)) /\
  (~ In (nchan (cube s)) [0; 4; 6; 8] ->
   exists sm rm m,
     fst run = Ok m /\
     _signal_map (snd run) = Some sm /\ _rms_map (snd run) = Some rm /\
     snr_map (snd run) = Some m /\ log (snd run) = log s /\
     length (cells m) = ny (cube s) * nx (cube s) /\
     forall p, p < ny (cube s) * nx (cube s) ->
       nth p (cells m) Nan
       = F.div (F.of_Q (nth p (cells sm) 0%Q)) (nth p (cells rm) Nan)).
Proof.
  cbv zeta. rewrite get_snr_map_default, get_snr_map_masks.
  set (ms := default_signal_mask (nchan (cube s))).
  set (mn := default_noise_mask (nchan (cube s))).
  assert (Hs : length ms = nchan (cube s)) by apply default_signal_mask_length.
  assert (Hn : length mn = nchan (cube s)) by apply default_noise_mask_length.
  pose proof (default_signal_mask_some (nchan (cube s))) as Hsome.
  fold ms in Hsome. split.
  - intros Hin.
    assert (Hno : ~ In true ms) by (intros H; now apply Hsome in H).
    unfold bind at 1.
    now rewrite (get_signal_map_empty ms (set_masks ms mn s) Hs Hno).
  - intros Hout.
    destruct (default_snr_run unit s Hout)
      as (sm & rm & m & E & _ & _ & Hl & Hp).
    rewrite get_snr_map_default, get_snr_map_masks in E. fold ms mn in E.
    rewrite E. exists sm, rm, m. cbn [fst snd].
    repeat (split; [reflexivity|]). split; [exact Hl|exact Hp].
Qed.

End SnrRuns.

(** ** The model chosen and the bounds recorded *)



(** ** The sequence of the example script *)


(** * Sample runs of the further properties *)

(** Bounds given the wrong way round, 2 above 1: the grid is made and
    the error is in the log. *)
Lemma inverted_bounds_are_reported_not_refused_witness :
  exists g s',
    make_guess_grid [2%Q] [1%Q] (Scalar 2) None None None true
                    (Demo.blank Demo.cube22) = (Ok g, s') /\
    shape g = [2; 1] /\
    In inverted_bounds_error (new_log (Demo.blank Demo.cube22) s').
Proof.
  destruct (inverted_bounds_are_reported_not_refused [2%Q] [1%Q] (Scalar 2)
              true None None None (Demo.blank Demo.cube22))
    as (g & s' & H1 & _ & H3 & H4).
  - discriminate.
  - reflexivity.
  - split; [reflexivity|repeat constructor].
  - exists g, s'. split; [exact H1|]. split; [exact H3|].
    apply H4. exists 0. split; [cbn; lia|reflexivity].
Defined.

(** The range from 0 to 10 at finesse 3, edges kept: both bounds are
    among the three points. *)
Lemma unclipped_grid_reaches_the_bounds_witness :
  exists g s',
    make_guess_grid [0%Q] [10%Q] (Scalar 3) None None None false
                    (Demo.blank Demo.cube22) = (Ok g, s') /\
    length (rows_of g) = 3 /\
    (exists row, In row (rows_of g) /\ (comp row 0 == 0)%Q) /\
    (exists row, In row (rows_of g) /\ comp row 0 = 10%Q).
Proof.
  destruct (unclipped_grid_reaches_the_bounds [0%Q] [10%Q] (Scalar 3)
              None None None (Demo.blank Demo.cube22))
    as (g & s' & H1 & _ & H3 & _ & (r1 & Hr1 & E1) & H6).
  - discriminate.
  - reflexivity.
  - intros [|i] Hi; [cbn; discriminate|cbn in Hi; lia].
  - split; [reflexivity|repeat constructor].
  - destruct H6 as (r2 & Hr2 & E2); [repeat constructor; cbn; lia|].
    exists g, s'. split; [exact H1|]. split; [exact H3|]. split.
    + exists r1. split; [exact Hr1|]. apply E1. cbn; lia.
    + exists r2. split; [exact Hr2|]. apply E2. cbn; lia.
Defined.


(** Two parameters, the second one at finesse 0. *)
Lemma zero_finesse_gives_an_empty_grid_witness :
  exists s',
    make_guess_grid [0%Q; 0%Q] [1%Q; 1%Q] (Vector [2%Z; 0%Z]) None None None
                    true (Demo.blank Demo.cube22)
    = (Ok (mk_array [0; 2] []), s') /\
    guess_grid s' = Some (mk_array [0; 2] []).
Proof.
  apply (zero_finesse_gives_an_empty_grid [0%Q; 0%Q] [1%Q; 1%Q]
           (Vector [2%Z; 0%Z]) true None None None (Demo.blank Demo.cube22)).
  - discriminate.
  - reflexivity.
  - reflexivity.
  - repeat constructor; cbn; lia.
  - cbn. auto.
Defined.

(** The sample object has a guess grid but no recorded bounds. *)
Lemma expand_needs_recorded_bounds_witness :
  let run := expand_guess_grid [0%Q] [8%Q] (Scalar 2) true Demo.sc in
  fst run = Raise AttributeError /\
  guess_grid (snd run) = guess_grid Demo.sc /\
  fiteach_args (snd run) = None.
Proof.
  apply (expand_needs_recorded_bounds [0%Q] [8%Q] (Scalar 2) true Demo.sc).
  - reflexivity.
  - discriminate.
  - reflexivity.
  - split; [reflexivity|repeat constructor].
Defined.

(** Bounds of two parameters for an object that recorded one. *)
Lemma expand_refuses_another_parameter_count_witness :
  let run := expand_guess_grid [0%Q; 0%Q] [1%Q; 1%Q] (Scalar 2) true
                               Demo.sc_bounds in
  fst run = Raise ValueError /\
  guess_grid (snd run) = guess_grid Demo.sc_bounds /\
  fiteach_args (snd run) = Some Demo.bounds0.
Proof.
  apply (expand_refuses_another_parameter_count [0%Q; 0%Q] [1%Q; 1%Q]
           (Scalar 2) true Demo.sc_bounds Demo.bounds0).
  - reflexivity.
  - cbn. lia.
  - discriminate.
  - reflexivity.
  - split; [reflexivity|repeat constructor].
Defined.

(** A grid of two points between 0 and 10, expanded by one point between
    20 and 30. *)
Lemma make_then_expand_witness :
  exists g1 s1 g2 s2 args,
    make_guess_grid [0%Q] [10%Q] (Scalar 2) None None None true
                    (Demo.blank Demo.cube22) = (Ok g1, s1) /\
    expand_guess_grid [20%Q] [30%Q] (Scalar 1) true s1 = (Ok g2, s2) /\
    length (rows_of g2) = 3 /\
    firstn 2 (rows_of g2) = rows_of g1 /\
    fiteach_args s2 = Some args /\
    comp (minpars args) 0 = 0%Q /\ comp (maxpars args) 0 = 30%Q.
Proof.
  destruct (make_then_expand [0%Q] [10%Q] (Scalar 2) true None None None
              [20%Q] [30%Q] (Scalar 1) true (Demo.blank Demo.cube22))
    as (g1 & s1 & g2 & s2 & args & H1 & H2 & _ & _ & H5 & H6 & H7 & H8).
  - discriminate.
  - reflexivity.
  - split; [reflexivity|repeat constructor].
  - reflexivity.
  - reflexivity.
  - split; [reflexivity|repeat constructor].
  - exists g1, s1, g2, s2, args.
    destruct (H8 0) as [Hmin Hmax]; [cbn; lia|].
    repeat (split; [assumption|]). exact Hmax.
Defined.

(** The two guesses of the sample object, with a model function that
    repeats its parameter on the two channels. *)
Lemma model_grid_rows_follow_the_guesses_witness :
  exists m s',
    generate_model Demo.flat_model None None true Demo.sc = (Ok tt, s') /\
    model_grid s' = Some m /\
    shape m = [2; 2] /\
    rows_of m = [[10%Q; 10%Q]; [20%Q; 20%Q]].
Proof.
  destruct (model_grid_rows_follow_the_guesses Demo.flat_model None Demo.sc
              Demo.guesses 2 1)
    as (m & s' & H1 & H2 & H3 & H4 & _).
  - reflexivity.
  - reflexivity.
  - discriminate.
  - reflexivity.
  - intros pars. reflexivity.
  - exists m, s'. repeat (split; [assumption|]). exact H4.
Defined.

(** A single vector of one parameter. *)
Lemma a_vector_gives_a_grid_of_one_model_witness :
  exists s',
    generate_model Demo.flat_model (Some (mk_array [1] [7%Q])) None true
                   Demo.sc = (Ok tt, s') /\
    model_grid s' = Some (mk_array [1; 2] [7%Q; 7%Q]).
Proof.
  apply (a_vector_gives_a_grid_of_one_model Demo.flat_model Demo.sc
           (mk_array [1] [7%Q]) 1).
  - reflexivity.
  - reflexivity.
  - discriminate.
  - reflexivity.
  - intros pars. reflexivity.
Defined.

(** Saved under the name [models], the grid lands in [models.npy], and a
    second call for [models] with [redo=False] computes it again. *)
Lemma saved_models_are_found_by_their_full_name_witness :
  let first := generate_model Demo.flat_model (Some Demo.guesses)
                              (Some "models"%string) true Demo.sc in
  fst first = Ok tt /\
  (exists m, files (snd first) = [("models.npy"%string, m)]) /\
  generate_model Demo.flat_model (Some Demo.guesses) (Some "models"%string)
                 false (snd first)
  = generate_model Demo.flat_model (Some Demo.guesses) (Some "models"%string)
                   true (snd first).
Proof.
  pose proof (saved_models_are_found_by_their_full_name Demo.flat_model
                Demo.sc Demo.guesses 2 1 "models"%string eq_refl) as H.
  cbv zeta in *.
  destruct H as (H1 & _ & (m & Hm & _) & _ & H5).
  - discriminate.
  - reflexivity.
  - intros pars. reflexivity.
  - split; [exact H1|]. split; [exists m; exact Hm|].
    apply H5; reflexivity.
Defined.



(** The sample run: the array of best guesses has shape [(1, 2, 2)]. *)
Lemma best_guesses_hold_the_guess_of_each_pixel_witness :
  exists bm bg,
    _best_map (snd Sample.selection) = Some bm /\
    best_guesses (snd Sample.selection) = Some bg /\
    shape bg = [1; 2; 2] /\
    forall p, p < 4 ->
      nth p (data bg) 0%Q = nth (nth p (cells bm) 0) (data Demo.guesses) 0%Q.
Proof.
  destruct (best_guesses_hold_the_guess_of_each_pixel Demo.roomy Sample.grid
              None None None 1000 Demo.sc (snd Sample.selection)
              Demo.guesses 2 1)
    as (bm & bg & H1 & H2 & H3 & H4).
  - vm_compute. reflexivity.
  - reflexivity.
  - reflexivity.
  - reflexivity.
  - exists bm, bg. repeat (split; [assumption|]).
    intros p Hp. specialize (H4 0 p ltac:(lia) Hp).
    cbn [Nat.mul Nat.add] in H4. rewrite H4. f_equal. lia.
Defined.

(** The sample run stores a guess for the pixel of highest
    signal-to-noise ratio. *)
Lemma best_snr_guess_is_the_guess_at_the_peak_witness :
  exists bm i v,
    _best_map (snd Sample.selection) = Some bm /\
    F.argmax (cells Demo.snr22) = Some i /\
    Pick.block Demo.guesses (nth i (cells bm) 0) = Ok v /\
    best_snr_guess (snd Sample.selection) = Some v.
Proof.
  pose proof (best_snr_guess_is_the_guess_at_the_peak Demo.roomy Sample.grid
                None None None 1000 Demo.sc (snd Sample.selection)) as H.
  destruct H as (bm & gg & i & v & H1 & H2 & H3 & H4 & H5).
  - vm_compute. reflexivity.
  - cbn. auto.
  - injection H2 as <-. exists bm, i, v. auto.
Defined.

(** A cutoff of 2 on the blank cube, which has no SNR map. *)
Lemma cutoff_needs_an_snr_map_witness :
  let run := best_guess Demo.roomy Sample.grid (Some 2%Q) None None 1000
                        (Demo.blank Demo.cube22) in
  fst run = Raise AttributeError /\
  without_log (snd run) = without_log (Demo.blank Demo.cube22).
Proof.
  apply (cutoff_needs_an_snr_map Demo.roomy Sample.grid 2%Q None None 1000
           (Demo.blank Demo.cube22) (Demo.in_memory Demo.models) 2).
  - reflexivity.
  - reflexivity.
  - discriminate.
  - reflexivity.
  - reflexivity.
Defined.

(** A cutoff of 2 with three models on the two channels of the sample
    cube. *)
Lemma cutoff_needs_as_many_models_as_channels_witness :
  let run := best_guess Demo.roomy
               (Some (Demo.in_memory Sample.three_models)) (Some 2%Q)
               None None 1000 Demo.sc in
  fst run = Raise IndexError /\
  without_log (snd run) = without_log Demo.sc.
Proof.
  apply (cutoff_needs_as_many_models_as_channels Demo.roomy
           (Some (Demo.in_memory Sample.three_models)) 2%Q None None 1000
           Demo.sc (Demo.in_memory Sample.three_models) 3 Demo.snr22).
  - reflexivity.
  - reflexivity.
  - reflexivity.
  - repeat split.
  - discriminate.
  - reflexivity.
  - cbn. lia.
Defined.

(** Without [psutil], a limit of half a gigabyte counts as no memory:
    the sample run leaves the broadcast. *)
Lemma memory_limit_without_psutil_witness :
  memory_bytes Demo.no_psutil (Some (1 # 2)%Q) = 0%Z /\
  In low_memory_warning
     (log (snd (best_guess Demo.no_psutil Sample.grid None (Some (1 # 2)%Q)
                           None 1000 Demo.sc))).
Proof.
  pose proof (memory_limit_without_psutil Demo.no_psutil Sample.grid None
                (Some (1 # 2)%Q) None 1000 Demo.sc
                (Demo.in_memory Demo.models) 2 eq_refl eq_refl eq_refl) as H.
  cbv zeta in H. destruct H as (H1 & _ & _ & H4). split.
  - now rewrite (H1 (1 # 2)%Q eq_refl).
  - apply (H4 (1 # 2)%Q eq_refl); reflexivity.
Defined.

(** The range from channel 1 to channel 3 on the spectrum of 9
    channels. *)
Lemma get_mask_marks_the_ranges_witness :
  exists mask,
    get_mask Sample.no_unit Sample.no_pix [1%Q] [3%Q] "pixel"
             (Demo.blank Demo.line9)
    = (Ok mask, Demo.blank Demo.line9) /\
    length mask = 9 /\
    nth 2 mask false = true.
Proof.
  destruct (get_mask_marks_the_ranges Sample.no_unit Sample.no_pix
              [1%Q] [3%Q] "pixel" (Demo.blank Demo.line9))
    as (mask & H1 & H2 & H3).
  - cbn. auto.
  - exists mask. split; [exact H1|]. split; [exact H2|].
    apply (H3 2); [cbn; lia|].
    exists (1%Q, 3%Q). split; [now left|]. split; vm_compute; congruence.
Defined.

(** Ranges in km/s on an axis that does not convert to it. *)
Lemma unconvertible_ranges_are_refused_witness :
  get_snr_map Sample.no_unit Sample.no_pix (Some ([1%Q], [3%Q])) None "km/s"
              None None Demo.sc
  = (Raise UnitConversionError, Demo.sc).
Proof.
  apply (unconvertible_ranges_are_refused Sample.no_unit Sample.no_pix
           ([1%Q], [3%Q]) None "km/s" None Demo.sc).
  - cbn. intuition discriminate.
  - reflexivity.
  - discriminate.
Defined.

(** The second channel of the sample cube alone: the signal map is the
    flux of that channel. *)
Lemma signal_map_is_the_channel_maximum_witness :
  exists m,
    get_signal_map (Some [false; true]) Demo.sc
    = (Ok m, set_signal_map m Demo.sc) /\
    length (cells m) = 4 /\
    forall p, p < 4 -> (flux_at Demo.cube22 1 p <= nth p (cells m) 0)%Q.
Proof.
  destruct (signal_map_is_the_channel_maximum [false; true] Demo.sc eq_refl)
    as [H _].
  destruct H as (m & H1 & _ & _ & H4 & H5); [cbn; auto|].
  exists m. split; [exact H1|]. split; [exact H4|].
  intros p Hp. destruct (H5 p Hp) as [_ Hle].
  apply Hle; [cbn; lia|reflexivity].
Defined.

(** The sample cube has two channels. *)
Lemma signal_map_without_mask_needs_one_channel_witness :
  get_signal_map None Demo.sc
  = (Raise IndexError, add_log no_signal_mask_warning Demo.sc).
Proof.
  apply (signal_map_without_mask_needs_one_channel Demo.sc). discriminate.
Defined.




(** The sample cube with the second channel as signal and both channels
    as noise. *)
Lemma snr_map_is_signal_over_rms_witness :
  exists sm rm m,
    get_signal_map (Some [false; true]) Demo.sc
    = (Ok sm, set_signal_map sm Demo.sc) /\
    get_rms_map (Some [true; true]) Demo.sc = (Ok rm, set_rms_map rm Demo.sc) /\
    fst (get_snr_map Sample.no_unit Sample.no_pix None None "km/s"
                     (Some [false; true]) (Some [true; true]) Demo.sc)
    = Ok m /\
    forall p, p < 4 ->
      nth p (cells m) Nan
      = F.div (F.of_Q (nth p (cells sm) 0%Q)) (nth p (cells rm) Nan).
Proof.
  destruct (snr_map_is_signal_over_rms Sample.no_unit Sample.no_pix None None
              "km/s" [false; true] [true; true] Demo.sc eq_refl eq_refl)
    as [H _].
  destruct H as (sm & rm & m & H1 & H2 & H3 & _ & _ & _ & H7); [cbn; auto|].
  exists sm, rm, m. split; [exact H1|]. split; [exact H2|].
  split; [now rewrite H3|exact H7].
Defined.

(** The default masks on 9 channels and on 8. *)
Lemma default_snr_map_needs_a_signal_channel_witness :
  (exists m,
     fst (get_snr_map Sample.no_unit Sample.no_pix None None "km/s" None None
                      (Demo.blank Demo.line9)) = Ok m /\
     length (cells m) = 1) /\
  fst (get_snr_map Sample.no_unit Sample.no_pix None None "km/s" None None
                   (Demo.blank Sample.line8)) = Raise ValueError.
Proof.
  split.
  - pose proof (default_snr_map_needs_a_signal_channel Sample.no_unit
                  Sample.no_pix "km/s" (Demo.blank Demo.line9)) as H.
    cbv zeta in H. destruct H as [_ H].
    destruct H as (sm & rm & m & H1 & _ & _ & _ & _ & H6 & _).
    + cbn. lia.
    + exists m. split; [exact H1|exact H6].
  - pose proof (default_snr_map_needs_a_signal_channel Sample.no_unit
                  Sample.no_pix "km/s" (Demo.blank Sample.line8)) as H.
    cbv zeta in H. destruct H as [H _].
    rewrite H; [reflexivity|cbn; auto].
Defined.


